(** * Field-gated dispatch (CPUX / IPTP): a shallow embedding

    The development follows the JavaScript sources of the repository:

    - [Utils]             utils/field.js ([fieldAbsorb] with a [consume] flag)
    - [ObjectServer]      object-server.js (field operations of the object O1)
    - [Clean]             clean-cpux-server.js (field operations, scheduler pass,
                          intake of emissions)
    - [Enhanced]          enhanced-cpux-server.js (field operations, the loop body
                          of the polling scheduler [runCPUX])
    - [DN]                enhanced-dn-container-server.js ([/execute], the life of
                          an accepted job, [/cleanup])
    - [FinalObjectServer] final-corrected-object-server.js ([/execute] of O1)
    - [Deployment]        the two servers behind the URLs of [targetRegistry]

    Modelling conventions.

    - A JavaScript object used as a dictionary (the semantic field, the
      container registry) and a [Map] are finite maps [gmap string _]; a [Set]
      of strings is a [gset string].  Inherited properties of [Object.prototype]
      are not modelled: a lookup of an absent key yields [None] ([undefined]).
    - A pulse is a record; a property that an object literal omits holds
      [JUndefined].  Truth values ([TV]) are the strings the code compares
      with [===].
    - Wall-clock readings ([new Date()], [Date.now()]) are arguments named
      [now] of the function that takes the reading, one reading per call; no
      modelled decision reads a timestamp except [/cleanup].
    - A request handler runs to completion before the next one starts (the
      single control thread of the orchestrator); whatever lies behind an
      [axios.post] is a transition of an explicit world state. *)

From stdpp Require Import base strings gmap list pretty.
From Stdlib Require Import ZArith.

Open Scope string_scope.

(** ** JavaScript values carried as payloads *)

#[local] Unset Elimination Schemes.
Inductive JVal : Type :=
| JUndefined
| JNull
| JBool (b : bool)
| JNum (z : Z)
| JStr (s : string)
| JArr (items : list JVal)
| JObj (props : list (string * JVal)).
#[local] Set Elimination Schemes.

(** [!!v] of JavaScript. *)
Definition truthy (v : JVal) : bool :=
  match v with
  | JUndefined | JNull => false
  | JBool b => b
  | JNum z => negb (z =? 0)%Z
  | JStr s => negb (String.eqb s "")
  | JArr _ | JObj _ => true
  end.

(** [v || w]. *)
Definition jsOr (v w : JVal) : JVal := if truthy v then v else w.

Definition isUndefined (v : JVal) : bool :=
  match v with JUndefined => true | _ => false end.

(** A string-or-missing property used as a condition: [null], [undefined]
    and the empty string are falsy. *)
Definition truthyStr (o : option string) : bool :=
  match o with
  | Some s => negb (String.eqb s "")
  | None => false
  end.

(** ** Pulses, signals and fields *)

Record Pulse : Type := mkPulse {
  name : string;
  TV : string;
  response : JVal;
  timestamp : JVal
}.

(** A design-time entry [{ name, TV }]. *)
Definition requirement (n tv : string) : Pulse := mkPulse n tv JUndefined JUndefined.

(** [fieldPulse?.response]. *)
Definition responseOf (o : option Pulse) : JVal :=
  match o with
  | Some fieldPulse => response fieldPulse
  | None => JUndefined
  end.

(** Rewrites the payload and timestamp of a pulse, keeping name and TV. *)
Definition withPayload (g : Pulse → JVal * JVal) (p : Pulse) : Pulse :=
  mkPulse (name p) (TV p) (g p).1 (g p).2.

(** ** Messages on the wire *)

Module Wire.

(** The body of [POST /execute].  The clean orchestrator leaves [source],
    [consumeSignal] and [targetConsumption] out. *)
Record Payload : Type := mkPayload {
  cpuxId : string;
  stepId : N;
  intention : string;
  signal : list Pulse;
  source : option string;
  target : string;
  consumeSignal : option bool;
  targetConsumption : option string;
  dnInstanceId : option string
}.

(** What is sent with [axios.post]: an execute request, or the
    [{ cpuxId, stepId }] body of the [/ready] and [/result] polls. *)
Inductive Body : Type :=
| Execute (payload : Payload)
| Poll (cpuxId : string) (stepId : N).

(** An HTTP response: the status code and the properties of [response.data]
    that decide something on either side; texts for the operator
    ([message], counters, echoes of the request) are left out. *)
Record Reply : Type := mkReply {
  code : nat;
  status : option string;
  reason : option string;
  error : option string;
  instanceId : option string;
  ready : bool;
  resultSignal : list Pulse
}.

Definition jsonReply (code : nat) (status : string) (reason error instanceId : option string)
    : Reply :=
  mkReply code (Some status) reason error instanceId false [].

(** [axios.post] resolves with the response for a 2xx code and throws
    otherwise; [None] is the thrown error. *)
Definition axios (r : Reply) : option Reply :=
  if bool_decide (200 ≤ code r < 300)%nat then Some r else None.

Definition withSignal (s : list Pulse) (req : Payload) : Payload :=
  mkPayload (cpuxId req) (stepId req) (intention req) s (source req) (target req)
    (consumeSignal req) (targetConsumption req) (dnInstanceId req).

End Wire.

(** The body of [POST /cpux/intention], sent by a DN or by the object. *)
Module Emission.

Record Message : Type := mkMessage {
  cpuxId : string;
  intention : string;
  signal : list Pulse;
  dnInstanceId : option string;
  objectInstanceId : option string;
  source : option string
}.

End Emission.

(** utils/field.js *)
Module Utils.

Definition fieldAbsorb (signal : list Pulse) (field : gmap string Pulse)
    (consume : bool) : gmap string Pulse :=
  foldl (λ (updated : gmap string Pulse) pulse,
           if consume || negb (bool_decide (is_Some (updated !! name pulse)))
           then <[name pulse :=
                    mkPulse (name pulse) (TV pulse) (jsOr (response pulse) JNull) JUndefined]>
                  updated
           else updated)
        field signal.

End Utils.

(** object-server.js *)
Module ObjectServer.

Definition fieldAbsorb (signal : list Pulse) (field : gmap string Pulse)
    : gmap string Pulse :=
  foldl (λ (field : gmap string Pulse) pulse, <[name pulse := pulse]> field) field signal.

(** [condition.every(p => field[p.name]?.TV === p.TV)] *)
Definition fieldMatch (field : gmap string Pulse) (condition : list Pulse) : bool :=
  forallb (λ p, bool_decide (TV <$> field !! name p = Some (TV p))) condition.

End ObjectServer.

(** clean-cpux-server.js: field operations *)
Module Clean.

Definition fieldAbsorb (now : string) (incomingSignal : list Pulse)
    (currentField : gmap string Pulse) : gmap string Pulse :=
  foldl (λ (updatedField : gmap string Pulse) pulse,
           <[name pulse :=
               mkPulse (name pulse) (TV pulse) (jsOr (response pulse) JNull) (JStr now)]>
             updatedField)
        currentField incomingSignal.

Definition fieldMatch (field : gmap string Pulse) (requiredSignal : list Pulse) : bool :=
  forallb (λ requiredPulse,
             match field !! name requiredPulse with
             | Some fieldPulse => bool_decide (TV fieldPulse = TV requiredPulse)
             | None => false
             end)
          requiredSignal.

(** *** The workflow definition and the state of the orchestrator *)

Record Step : Type := mkStep {
  stepId : N;
  intention : string;
  designTimeSignal : list Pulse;
  target : string;
  type : string
}.

Definition targetRegistry : gmap string string :=
  list_to_map [
    ("O1", "http://localhost:4000");
    ("DN1", "http://localhost:5001");
    ("DN2", "http://localhost:5001");
    ("DN3", "http://localhost:5001");
    ("DN4", "http://localhost:5001")
  ].

(** [CPUXDefinition.startIntention.signal] and [CPUXDefinition.sequence]. *)
Definition startSignal : list Pulse :=
  [mkPulse "start_license_request" "Y" (JStr "initiated") JUndefined].

Definition CPUXDefinition : list Step := [
  mkStep 1 "add_personal_detail" [requirement "start_license_request" "Y"] "O1" "object";
  mkStep 2 "fetch_personal_detail" [requirement "start_license_request" "Y"] "DN1" "dn";
  mkStep 3 "reflect_personal_detail" [requirement "personal_detail" "Y"] "O1" "object";
  mkStep 4 "fetch_driver_points" [requirement "personal_detail" "Y"] "DN2" "dn";
  mkStep 5 "reflect_driver_points" [requirement "driver_points" "Y"] "O1" "object";
  mkStep 6 "compute_expiry" [requirement "driver_points" "Y"] "DN3" "dn";
  mkStep 7 "reflect_expiry" [requirement "expiry_date" "Y"] "O1" "object";
  mkStep 8 "generate_license" [requirement "expiry_date" "Y"] "DN4" "dn";
  mkStep 9 "license_complete" [requirement "compiled_license" "Y"] "CONSOLE" "final"
].

(** The three module-level variables [cpuxField], [executionLog] and
    [memberStatus]. *)
Record Cpux : Type := mkCpux {
  cpuxField : gmap string Pulse;
  executionLog : gset string;
  memberStatus : gmap string string
}.

Definition initial : Cpux := mkCpux ∅ ∅ ∅.

(** [`${step.stepId}:${step.intention}:${step.target}`] *)
Definition stepKey (step : Step) : string :=
  pretty (stepId step) +:+ ":" +:+ intention step +:+ ":" +:+ target step.

(** [`${contextId}:${step.stepId}:${step.target}`] *)
Definition instanceKey (contextId : string) (step : Step) : string :=
  contextId +:+ ":" +:+ pretty (stepId step) +:+ ":" +:+ target step.

(** [`${memberUrl}/execute`]; a target missing from the registry yields the
    text [undefined]. *)
Definition executeUrl (step : Step) : string :=
  default "undefined" (targetRegistry !! target step) +:+ "/execute".

Definition initializeDNStatus (sequence : list Step) (contextId : string)
    (status : gmap string string) : gmap string string :=
  foldl (λ (status : gmap string string) step,
           if bool_decide (type step = "dn")
           then <[instanceKey contextId step := "ready"]> status
           else status)
        status sequence.

(** What [POST /cpux/intention] answers. *)
Inductive IntakeReply : Type :=
| WrongContext
    (* status 400, { error: 'Wrong CPUX context' } *)
| Received (absorbed activations : nat) (sourceType instanceId : string).
    (* { status: 'received', message, contextId, sourceType, instanceId } *)

Section Orchestrator.
Context {World : Type}.
(** [axios.post(url, body)]: the remote side moves and either answers or
    makes the call throw. *)
Variable post : World → string → Wire.Body → World * option Wire.Reply.
Variable CPUX_CONTEXT_ID : string.

(** The remote side as it is after some further calls. *)
Inductive later : World → World → Prop :=
| later_refl w : later w w
| later_post w w' url body : later w w' → later w (post w' url body).1.

(** [response.data.status === 'accepted'] for a call that did not throw. *)
Definition accepted (r : option Wire.Reply) : bool :=
  match r with
  | Some reply => bool_decide (Wire.status reply = Some "accepted")
  | None => false
  end.

Definition signalToSend (field : gmap string Pulse) (step : Step) : list Pulse :=
  (λ pulseSpec,
     mkPulse (name pulseSpec) (TV pulseSpec)
       (jsOr (responseOf (field !! name pulseSpec)) JNull) JUndefined)
    <$> designTimeSignal step.

Definition payloadOf (field : gmap string Pulse) (step : Step) : Wire.Payload :=
  Wire.mkPayload CPUX_CONTEXT_ID (stepId step) (intention step)
    (signalToSend field step) None (target step) None None
    (if bool_decide (type step = "dn")
     then Some (instanceKey CPUX_CONTEXT_ID step) else None).

Definition executeObjectStep (w : World) (step : Step) (payload : Wire.Payload)
    : World * bool :=
  let '(w', response) := post w (executeUrl step) (Wire.Execute payload) in
  match response with
  | Some _ => (w', true)
  | None => (w', false)
  end.

Definition executeDNStep (st : Cpux) (w : World) (step : Step) (payload : Wire.Payload)
    : Cpux * World * bool :=
  let dnInstanceId := Wire.dnInstanceId payload in
  let dnStatus := dnInstanceId ≫= (λ id, memberStatus st !! id) in
  if bool_decide (dnStatus ≠ Some "ready") then (st, w, false)
  else
    let '(w', response) := post w (executeUrl step) (Wire.Execute payload) in
    if accepted response then
      (mkCpux (cpuxField st) (executionLog st)
         (<[default "" dnInstanceId := "busy"]> (memberStatus st)),
       w', true)
    else (st, w', false).

Definition executeFinalStep (step : Step) (signal : list Pulse) : bool := true.

Definition executeStep (st : Cpux) (w : World) (step : Step) : Cpux * World * bool :=
  let payload := payloadOf (cpuxField st) step in
  if bool_decide (type step = "object") then
    let '(w', executed) := executeObjectStep w step payload in (st, w', executed)
  else if bool_decide (type step = "dn") then executeDNStep st w step payload
  else if bool_decide (type step = "final") then
    (st, w, executeFinalStep step (Wire.signal payload))
  else (st, w, false).

(** The body of the [for] loop of [executeSequencePass]; the third
    component counts [passActivations]. *)
Definition visit (acc : Cpux * World * nat) (step : Step) : Cpux * World * nat :=
  let '(st, w, passActivations) := acc in
  if bool_decide (stepKey step ∈ executionLog st) then acc
  else if negb (fieldMatch (cpuxField st) (designTimeSignal step)) then acc
  else
    let '(st', w', executed) := executeStep st w step in
    if executed
    then (mkCpux (cpuxField st') ({[stepKey step]} ∪ executionLog st') (memberStatus st'),
          w', S passActivations)
    else (st', w', passActivations).

Definition executeSequencePass (sequence : list Step) (st : Cpux) (w : World)
    : Cpux * World * nat :=
  foldl visit (st, w, 0) sequence.

(** [executeCPUX]: absorb the start intention, register the DN
    instances, run the first pass. *)
Definition executeCPUX (now : string) (start : list Pulse) (sequence : list Step)
    (st : Cpux) (w : World) : Cpux * World * nat :=
  executeSequencePass sequence
    (mkCpux (fieldAbsorb now start (cpuxField st)) (executionLog st)
       (initializeDNStatus sequence CPUX_CONTEXT_ID (memberStatus st)))
    w.

(** The state in which the intake handler starts its pass: the signal is
    absorbed and a DN instance named by the message is marked ready. *)
Definition absorbEmission (now : string) (st : Cpux) (req : Emission.Message) : Cpux :=
  mkCpux (fieldAbsorb now (Emission.signal req) (cpuxField st))
    (executionLog st)
    (if truthyStr (Emission.dnInstanceId req)
     then <[default "" (Emission.dnInstanceId req) := "ready"]> (memberStatus st)
     else memberStatus st).

(** [app.post('/cpux/intention', ...)].  [checkCompletion] only prints. *)
Definition intake (now : string) (sequence : list Step) (st : Cpux) (w : World)
    (req : Emission.Message) : Cpux * World * IntakeReply :=
  let instanceId :=
    if truthyStr (Emission.dnInstanceId req) then default "" (Emission.dnInstanceId req)
    else if truthyStr (Emission.objectInstanceId req)
         then default "" (Emission.objectInstanceId req)
         else "unknown" in
  if bool_decide (Emission.cpuxId req ≠ CPUX_CONTEXT_ID) then (st, w, WrongContext)
  else
    let '(st', w', activations) :=
      executeSequencePass sequence (absorbEmission now st req) w in
    (st', w',
     Received (length (Emission.signal req)) activations
       (if bool_decide (Emission.source req = Some "O1") then "object" else "dn")
       instanceId).

End Orchestrator.

End Clean.

(** enhanced-cpux-server.js: field operations *)
Module Enhanced.

(** The [for] loop with its two early [return false]. *)
Fixpoint fieldMatch (field : gmap string Pulse) (requiredSignal : list Pulse) : bool :=
  match requiredSignal with
  | [] => true
  | requiredPulse :: rest =>
      match field !! name requiredPulse with
      | None => false
      | Some fieldPulse =>
          if bool_decide (TV fieldPulse ≠ TV requiredPulse) then false
          else fieldMatch field rest
      end
  end.

(** The response an existing pulse holds after an incoming one is merged. *)
Definition mergeResponse (consume : bool) (existing incoming : JVal) : JVal :=
  if isUndefined incoming then existing
  else if consume then incoming
  else match existing with
       | JArr items => JArr (items ++ [incoming])
       | _ => if truthy existing then JArr [existing; incoming] else incoming
       end.

(** The update of an existing pulse is done in place on the pulse object,
    which the shallow copy [{ ...currentField }] shares with
    [currentField]; the function below is the field that is returned, the
    only one a caller keeps ([cpuxField = fieldAbsorb(signal, cpuxField)]). *)
Definition fieldAbsorb (now : string) (incomingSignal : list Pulse)
    (currentField : gmap string Pulse) (consume : bool) : gmap string Pulse :=
  foldl (λ (updatedField : gmap string Pulse) incomingPulse,
           let pulseName := name incomingPulse in
           match updatedField !! pulseName with
           | Some existing =>
               <[pulseName :=
                   mkPulse (name existing) (TV incomingPulse)
                     (mergeResponse consume (response existing) (response incomingPulse))
                     (timestamp existing)]>
                 updatedField
           | None =>
               <[pulseName :=
                   mkPulse pulseName (TV incomingPulse)
                     (jsOr (response incomingPulse) JNull) (JStr now)]>
                 updatedField
           end)
        currentField incomingSignal.

(** *** The polling scheduler [runCPUX] *)

Record Step : Type := mkStep {
  stepId : N;
  type : string;
  intention : string;
  designTimeSignal : list Pulse;
  source : string;
  target : string;
  consumeSignal : option bool;
  targetConsumption : option string
}.

Definition targetRegistry : gmap string string :=
  list_to_map [
    ("O1", "http://localhost:4000");
    ("DN1", "http://localhost:5001");
    ("DN2", "http://localhost:5001");
    ("DN3", "http://localhost:5001");
    ("DN4", "http://localhost:5001");
    ("DN5", "http://localhost:5001")
  ].

Record Cpux : Type := mkCpux {
  cpuxField : gmap string Pulse;
  executionLog : gset string;
  memberStatus : gmap string string
}.

(** [`${step.intention}-${step.target}-${step.stepId}`] *)
Definition stepKey (step : Step) : string :=
  intention step +:+ "-" +:+ target step +:+ "-" +:+ pretty (stepId step).

Definition instanceKey (contextId : string) (step : Step) : string :=
  contextId +:+ ":" +:+ pretty (stepId step) +:+ ":" +:+ target step.

(** [step.target.startsWith('DN')] *)
Definition targetsDN (step : Step) : bool := String.prefix "DN" (target step).

Definition memberUrl (step : Step) : string :=
  default "undefined" (targetRegistry !! target step).

(** [if (step.consumeSignal)] and [step.consumeSignal !== false]. *)
Definition flagSet (flag : option bool) : bool := default false flag.
Definition flagNotFalse (flag : option bool) : bool := default true flag.

(** The loop [for (const pulse of step.designTimeSignal) if
    (cpuxField[pulse.name]) delete cpuxField[pulse.name]]. *)
Definition consumeFromField (field : gmap string Pulse) (designTimeSignal : list Pulse)
    : gmap string Pulse :=
  foldl (λ (field : gmap string Pulse) pulse,
           if bool_decide (is_Some (field !! name pulse))
           then delete (name pulse) field else field)
        field designTimeSignal.

Section Orchestrator.
Context {World : Type}.
Variable post : World → string → Wire.Body → World * option Wire.Reply.
Variable CPUX_CONTEXT_ID : string.
(** [cpuxDef.cpuxId], which the polls carry. *)
Variable cpuxId : string.

(** [{ ...pulse, response: cpuxField[pulse.name]?.response || pulse.response }] *)
Definition signalToSend (field : gmap string Pulse) (step : Step) : list Pulse :=
  (λ pulse,
     mkPulse (name pulse) (TV pulse)
       (jsOr (responseOf (field !! name pulse)) (response pulse)) (timestamp pulse))
    <$> designTimeSignal step.

Definition payloadOf (field : gmap string Pulse) (step : Step) : Wire.Payload :=
  Wire.mkPayload CPUX_CONTEXT_ID (stepId step) (intention step)
    (signalToSend field step) (Some (source step)) (target step)
    (consumeSignal step)
    (Some (if truthyStr (targetConsumption step)
           then default "" (targetConsumption step) else "absorb"))
    (if targetsDN step then Some (instanceKey CPUX_CONTEXT_ID step) else None).

(** The [while (!dnCompleted && dnWaitCount < maxWait)] loop; [remaining]
    is [maxWait - dnWaitCount].  The result is [dnCompleted]. *)
Fixpoint pollReady (remaining : nat) (w : World) (step : Step) : World * bool :=
  match remaining with
  | O => (w, false)
  | S remaining' =>
      let '(w', statusResponse) :=
        post w (memberUrl step +:+ "/ready") (Wire.Poll cpuxId (stepId step)) in
      match statusResponse with
      | None => (w', false)
      | Some reply =>
          if Wire.ready reply then (w', true) else pollReady remaining' w' step
      end
  end.

Definition maxWait : nat := 30.

(** The body of the [for] loop over the sequence; the third component
    tells whether [activationsThisPass] was incremented.  [dnReady] is
    declared [false] and never assigned. *)
Definition runStep (now : string) (st : Cpux) (w : World) (step : Step)
    : Cpux * World * bool :=
  let key := stepKey step in
  if bool_decide (key ∈ executionLog st) then (st, w, false)
  else if negb (fieldMatch (cpuxField st) (designTimeSignal step)) then (st, w, false)
  else
    let dnStatus := memberStatus st !! instanceKey CPUX_CONTEXT_ID step in
    if targetsDN step
       && (bool_decide (dnStatus = Some "busy") || bool_decide (dnStatus = Some "stopped"))
    then (st, w, false)
    else
      let '(w1, response) :=
        post w (memberUrl step +:+ "/execute")
          (Wire.Execute (payloadOf (cpuxField st) step)) in
      match response with
      | None => (st, w1, false)
      | Some _ =>
          let field1 :=
            if flagSet (consumeSignal step)
            then consumeFromField (cpuxField st) (designTimeSignal step)
            else cpuxField st in
          if targetsDN step then
            let status1 := <[target step := "executing"]> (memberStatus st) in
            let '(w2, dnCompleted) := pollReady maxWait w1 step in
            let dnReady := false in
            if dnReady then
              let '(w3, resultResponse) :=
                post w2 (memberUrl step +:+ "/result")
                  (Wire.Poll cpuxId (stepId step)) in
              match resultResponse with
              | Some reply =>
                  (mkCpux
                     (fieldAbsorb now (Wire.resultSignal reply) field1
                        (flagNotFalse (consumeSignal step)))
                     ({[key]} ∪ executionLog st)
                     (<[target step := "ready"]> status1),
                   w3, true)
              | None =>
                  (mkCpux field1 (executionLog st) (<[target step := "stopped"]> status1),
                   w3, true)
              end
            else
              (mkCpux field1 (executionLog st) (<[target step := "stopped"]> status1),
               w2, true)
          else
            (mkCpux field1 ({[key]} ∪ executionLog st) (memberStatus st), w1, true)
      end.

End Orchestrator.

End Enhanced.

(** ** enhanced-dn-container-server.js *)

Module DN.

(** A container of the registry; the [handler] is an opaque asynchronous
    function, represented by the outcome it eventually produces. *)
Record Container : Type := mkContainer {
  containerName : string;
  valve : list Pulse
}.

Definition DN_CONTAINERS : gmap string Container :=
  list_to_map [
    ("DN1", mkContainer "Personal Detail Processor" [requirement "start_license_request" "Y"]);
    ("DN2", mkContainer "Driver Points Fetcher" [requirement "personal_detail" "Y"]);
    ("DN3", mkContainer "License Expiry Calculator" [requirement "driver_points" "Y"]);
    ("DN4", mkContainer "License Generator" [requirement "expiry_date" "Y"])
  ].

(** An entry of [activeInstances]. *)
Record Task : Type := mkTask {
  status : string;
  startTime : option Z;
  completedTime : option Z;
  emitted : bool;
  error : option string;
  cpuxId : string;
  stepId : option N;
  dnType : string;
  intention : option string
}.

(** A started call [processAsyncAndEmit(container, dnType, inputSignal,
    cpuxId, originalIntention, instanceId)] that has not settled yet. *)
Record Job : Type := mkJob {
  jobDnType : string;
  inputSignal : list Pulse;
  jobCpuxId : string;
  originalIntention : string;
  jobInstanceId : string
}.

Record Server : Type := mkServer {
  activeInstances : gmap string Task;
  jobs : list Job
}.

Definition initial : Server := mkServer ∅ [].

(** [dnInstanceId || `${cpuxId}:${stepId}:${target}`] *)
Definition instanceIdOf (req : Wire.Payload) : string :=
  if truthyStr (Wire.dnInstanceId req)
  then default "" (Wire.dnInstanceId req)
  else Wire.cpuxId req +:+ ":" +:+ pretty (Wire.stepId req) +:+ ":" +:+ Wire.target req.

(** [activeInstances.has(id) && activeInstances.get(id).status === 'running'] *)
Definition isRunning (srv : Server) (instanceId : string) : bool :=
  match activeInstances srv !! instanceId with
  | Some existingTask => bool_decide (status existingTask = "running")
  | None => false
  end.

(** [container.valve.every(required => signal.some(incoming => ...))] *)
Definition canProcess (valve signal : list Pulse) : bool :=
  forallb (λ requiredPulse,
             existsb (λ incomingPulse,
                        bool_decide (name incomingPulse = name requiredPulse)
                        && bool_decide (TV incomingPulse = TV requiredPulse))
                     signal)
          valve.

Section Endpoints.
Variable containers : gmap string Container.

(** [app.post('/execute', ...)] *)
Definition execute (now : Z) (srv : Server) (req : Wire.Payload) : Server * Wire.Reply :=
  match containers !! Wire.target req with
  | None =>
      (srv,
       Wire.jsonReply 400 "rejected" None (Some ("Unknown DN: " +:+ Wire.target req)) None)
  | Some container =>
      let instanceId := instanceIdOf req in
      if isRunning srv instanceId then
        (srv, Wire.jsonReply 200 "rejected" (Some "instance_busy") None (Some instanceId))
      else if negb (canProcess (valve container) (Wire.signal req)) then
        (srv, Wire.jsonReply 200 "rejected" (Some "valve_conditions_not_met") None
                (Some instanceId))
      else
        (mkServer
           (<[instanceId :=
                mkTask "running" (Some now) None false None (Wire.cpuxId req)
                  (Some (Wire.stepId req)) (Wire.target req) (Some (Wire.intention req))]>
              (activeInstances srv))
           (jobs srv ++
              [mkJob (Wire.target req) (Wire.signal req) (Wire.cpuxId req)
                 (Wire.intention req) instanceId]),
         Wire.jsonReply 200 "accepted" None None (Some instanceId))
  end.

End Endpoints.

(** The [emissionIntention] a job posts to [/cpux/intention] once its
    handler has produced [resultSignal]. *)
Definition emissionIntention (job : Job) (resultSignal : list Pulse) : Emission.Message :=
  Emission.mkMessage (jobCpuxId job) ("result_" +:+ originalIntention job) resultSignal
    (Some (jobInstanceId job)) None (Some (jobDnType job)).

(** How a started [processAsyncAndEmit] settles.  Its own [try]/[catch]
    handles every failure, so the [.catch] attached by [/execute] (status
    [error]) never runs. *)
Inductive Outcome : Type :=
| Emitted
| EmissionFailed (message : string)
| ProcessingFailed (message : string).

Definition settledTask (now : Z) (job : Job) (o : Outcome) : Task :=
  match o with
  | Emitted =>
      mkTask "completed" None (Some now) true None (jobCpuxId job) None (jobDnType job) None
  | EmissionFailed message =>
      mkTask "emission_failed" None None false (Some message) (jobCpuxId job) None
        (jobDnType job) None
  | ProcessingFailed message =>
      mkTask "processing_failed" None None false (Some message) (jobCpuxId job) None
        (jobDnType job) None
  end.

(** The [i]-th pending job settles with outcome [o]. *)
Definition settle (now : Z) (i : nat) (o : Outcome) (srv : Server) : Server :=
  match jobs srv !! i with
  | Some job =>
      mkServer (<[jobInstanceId job := settledTask now job o]> (activeInstances srv))
               (delete i (jobs srv))
  | None => srv
  end.

(** The test of [/cleanup]: [status === 'completed' && completedTime &&
    (now - completedTime) > maxAge]. *)
Definition expired (now maxAge : Z) (instance : Task) : bool :=
  bool_decide (status instance = "completed")
  && match completedTime instance with
     | Some t => negb (t =? 0)%Z && (maxAge <? now - t)%Z
     | None => false
     end.

(** [app.post('/cleanup', ...)] *)
Definition cleanup (now maxAge : Z) (srv : Server) : Server :=
  mkServer
    (filter (λ entry : string * Task, expired now maxAge entry.2 = false)
            (activeInstances srv))
    (jobs srv).

(** One event of the DN server's life. *)
Inductive step (containers : gmap string Container) : Server → Server → Prop :=
| step_execute now srv req : step containers srv (execute containers now srv req).1
| step_settle now i o srv : step containers srv (settle now i o srv)
| step_cleanup now maxAge srv : step containers srv (cleanup now maxAge srv).

Definition reachable (containers : gmap string Container) (srv : Server) : Prop :=
  rtc (step containers) initial srv.

(** Every pending job owns its instance id, and that instance is running. *)
Definition exclusive (srv : Server) : Prop :=
  NoDup (jobInstanceId <$> jobs srv) ∧
  ∀ job, job ∈ jobs srv → isRunning srv (jobInstanceId job) = true.

End DN.

(** ** final-corrected-object-server.js: the [/execute] endpoint of O1 *)

Module FinalObjectServer.

Record Mapping : Type := mkMapping {
  incomingIntention : string;
  triggerCondition : list Pulse;
  outgoingIntention : string;
  target : string;
  emitSignal : list Pulse
}.

Definition triggerMappings : list Mapping := [
  mkMapping "add_personal_detail" [requirement "start_license_request" "Y"]
    "start_confirmed" "CPUX" [requirement "start_license_request" "Y"];
  mkMapping "reflect_personal_detail" [requirement "personal_detail" "Y"]
    "personal_detail_ready" "CPUX" [requirement "personal_detail" "Y"];
  mkMapping "reflect_driver_points" [requirement "driver_points" "Y"]
    "driver_points_ready" "CPUX" [requirement "driver_points" "Y"];
  mkMapping "reflect_expiry" [requirement "expiry_date" "Y"]
    "expiry_ready" "CPUX" [requirement "expiry_date" "Y"]
].

(** [objectField], [activeTriggers] and the emissions handed to
    [setTimeout] that have not been posted yet. *)
Record State : Type := mkState {
  objectField : gmap string Pulse;
  activeTriggers : gset string;
  outbox : list Emission.Message
}.

Definition initial : State := mkState ∅ ∅ [].

Definition fieldAbsorb (now : string) (signal : list Pulse) (field : gmap string Pulse)
    : gmap string Pulse :=
  foldl (λ (field : gmap string Pulse) pulse,
           <[name pulse :=
               mkPulse (name pulse) (TV pulse) (jsOr (response pulse) JNull) (JStr now)]>
             field)
        field signal.

Definition fieldMatch (field : gmap string Pulse) (condition : list Pulse) : bool :=
  forallb (λ requiredPulse,
             match field !! name requiredPulse with
             | Some fieldPulse => bool_decide (TV fieldPulse = TV requiredPulse)
             | None => false
             end)
          condition.

Definition execute (now : string) (st : State) (req : Wire.Payload)
    : State * Wire.Reply :=
  let objectInstanceId :=
    Wire.cpuxId req +:+ ":" +:+ pretty (Wire.stepId req) +:+ ":O1" in
  let field := fieldAbsorb now (Wire.signal req) (objectField st) in
  let '(triggers, triggeredMappings) :=
    foldl (λ (acc : gset string * list Emission.Message) mapping,
             if bool_decide (incomingIntention mapping ≠ Wire.intention req) then acc
             else
               let triggerKey :=
                 Wire.intention req +:+ ":" +:+ outgoingIntention mapping in
               if fieldMatch field (triggerCondition mapping)
                  && negb (bool_decide (triggerKey ∈ acc.1))
               then ({[triggerKey]} ∪ acc.1,
                     (acc.2 ++
                        [Emission.mkMessage (Wire.cpuxId req) (outgoingIntention mapping)
                           ((λ pulseSpec,
                               mkPulse (name pulseSpec) (TV pulseSpec)
                                 (jsOr (responseOf (field !! name pulseSpec)) JNull)
                                 JUndefined) <$> emitSignal mapping)
                           None (Some objectInstanceId) (Some "O1")])%list)
               else acc)
          (activeTriggers st, []) triggerMappings in
  (mkState field triggers (outbox st ++ triggeredMappings)%list,
   Wire.jsonReply 200
     (if bool_decide (0 < length triggeredMappings)%nat then "triggered" else "absorbed")
     None None None).

End FinalObjectServer.

(** ** The servers as the orchestrator reaches them *)

Module Deployment.

(** The DN container server on port 5001, the object O1 on port 4000, and
    the wall clock as [Date.now()] and as [new Date().toISOString()]. *)
Record World : Type := mkWorld {
  dnServer : DN.Server;
  objectServer : FinalObjectServer.State;
  clockMs : Z;
  clockISO : string
}.

Definition initial : World := mkWorld DN.initial FinalObjectServer.initial 0 "".

(** A call to a URL nobody serves throws. *)
Definition post (w : World) (url : string) (body : Wire.Body)
    : World * option Wire.Reply :=
  match body with
  | Wire.Execute payload =>
      if bool_decide (url = "http://localhost:5001/execute") then
        let '(srv, reply) :=
          DN.execute DN.DN_CONTAINERS (clockMs w) (dnServer w) payload in
        (mkWorld srv (objectServer w) (clockMs w) (clockISO w), Wire.axios reply)
      else if bool_decide (url = "http://localhost:4000/execute") then
        let '(obj, reply) :=
          FinalObjectServer.execute (clockISO w) (objectServer w) payload in
        (mkWorld (dnServer w) obj (clockMs w) (clockISO w), Wire.axios reply)
      else (w, None)
  | Wire.Poll _ _ => (w, None)
  end.

Definition contextId : string := "CPUX_1_abc123".

(** The state [executeCPUX] leaves after its first pass over
    [CPUXDefinition], started from nothing. *)
Definition afterStart : Clean.Cpux * World * nat :=
  Clean.executeCPUX post contextId "t0" Clean.startSignal Clean.CPUXDefinition
    Clean.initial initial.

End Deployment.

(** The same servers, with O1 starting late: the first call to O1 finds
    nobody listening and throws; O1 listens from then on.  The DN server is up
    throughout. *)
Module LateStart.

Record World : Type := mkWorld {
  objectUp : bool;
  servers : Deployment.World
}.

Definition initial : World := mkWorld false Deployment.initial.

Definition post (w : World) (url : string) (body : Wire.Body)
    : World * option Wire.Reply :=
  if bool_decide (url = "http://localhost:4000/execute") && negb (objectUp w)
  then (mkWorld true (servers w), None)
  else
    let '(s, reply) := Deployment.post (servers w) url body in
    (mkWorld (objectUp w) s, reply).

(** The first pass of [executeCPUX] over [CPUXDefinition] in this setting. *)
Definition firstPass : Clean.Cpux * World * nat :=
  Clean.executeCPUX post Deployment.contextId "t0" Clean.startSignal Clean.CPUXDefinition
    Clean.initial initial.

End LateStart.

(** ** Vocabulary of the statements *)

(** The truth value carried by the last pulse of the signal named [n]. *)
Fixpoint latestTV (n : string) (signal : list Pulse) : option string :=
  match signal with
  | [] => None
  | pulse :: rest =>
      match latestTV n rest with
      | Some tv => Some tv
      | None => if decide (name pulse = n) then Some (TV pulse) else None
      end
  end.

(** The truth value carried by the first pulse of the signal named [n]. *)
Fixpoint earliestTV (n : string) (signal : list Pulse) : option string :=
  match signal with
  | [] => None
  | pulse :: rest => if decide (name pulse = n) then Some (TV pulse) else earliestTV n rest
  end.

(** The truth value the field records under the name [n]. *)
Definition tvAt (field : gmap string Pulse) (n : string) : option string :=
  TV <$> field !! n.

(** Vocabulary for the scheduler of clean-cpux-server.js. *)
Section SchedulerVocabulary.
Context {World : Type}.
Variable post : World → string → Wire.Body → World * option Wire.Reply.
Variable CPUX_CONTEXT_ID : string.

(** What the remote side answers to the dispatch of [step]. *)
Definition dispatchReply (st : Clean.Cpux) (w : World) (step : Clean.Step)
    : option Wire.Reply :=
  (post w (Clean.executeUrl step)
     (Wire.Execute (Clean.payloadOf CPUX_CONTEXT_ID (Clean.cpuxField st) step))).2.

(** The orchestrator records the instance of [step] as ready. *)
Definition instanceReady (st : Clean.Cpux) (step : Clean.Step) : Prop :=
  Clean.memberStatus st !! Clean.instanceKey CPUX_CONTEXT_ID step = Some "ready".

#[global] Instance instanceReady_dec (st : Clean.Cpux) (step : Clean.Step) :
  Decision (instanceReady st step).
Proof. unfold instanceReady. apply _. Defined.

(** A DN step is dispatched and the DN takes the work. *)
Definition dispatchAccepted (st : Clean.Cpux) (w : World) (step : Clean.Step) : Prop :=
  Clean.fieldMatch (Clean.cpuxField st) (Clean.designTimeSignal step) = true ∧
  instanceReady st step ∧
  Clean.accepted (dispatchReply st w step) = true.

(** What a pass may do to the orchestrator: the field stays, the log
    grows, an instance leaves [ready] and never leaves [busy]. *)
Definition advances (st st' : Clean.Cpux) : Prop :=
  Clean.cpuxField st' = Clean.cpuxField st ∧
  Clean.executionLog st ⊆ Clean.executionLog st' ∧
  (∀ id, Clean.memberStatus st' !! id = Some "ready" →
         Clean.memberStatus st !! id = Some "ready") ∧
  (∀ id, Clean.memberStatus st !! id = Some "busy" →
         Clean.memberStatus st' !! id = Some "busy").

(** The pass finds nothing to do for [step]: it is logged, or its
    precondition fails, or its execution fails. *)
Definition settled (st : Clean.Cpux) (w : World) (step : Clean.Step) : Prop :=
  Clean.stepKey step ∈ Clean.executionLog st ∨
  Clean.fieldMatch (Clean.cpuxField st) (Clean.designTimeSignal step) = false ∨
  (Clean.type step = "object" ∧ dispatchReply st w step = None) ∨
  (Clean.type step = "dn" ∧
     (¬ instanceReady st step ∨ Clean.accepted (dispatchReply st w step) = false)) ∨
  (Clean.type step ≠ "object" ∧ Clean.type step ≠ "dn" ∧ Clean.type step ≠ "final").

(** A call that throws keeps throwing, and a call that is not accepted is
    not accepted later either, as long as the remote side only moves by
    the calls it receives. *)
Definition refusalsPersist : Prop :=
  ∀ w w' url body,
    Clean.later post w w' →
    ((post w url body).2 = None → (post w' url body).2 = None) ∧
    (Clean.accepted (post w' url body).2 = true →
     Clean.accepted (post w url body).2 = true).

End SchedulerVocabulary.

(** ** Sample data used by the concrete instances *)

Module Sample.

Definition startY : Pulse := mkPulse "start_license_request" "Y" (JStr "initiated") JUndefined.
Definition startN : Pulse := requirement "start_license_request" "N".
Definition detailY : Pulse := requirement "personal_detail" "Y".

(** A field that already records [start_license_request:Y]. *)
Definition started : gmap string Pulse :=
  {[ "start_license_request" := startY ]}.

(** The dispatch of step 2 to DN1, with a pulse the valve does not name. *)
Definition dn1Request : Wire.Payload :=
  Wire.mkPayload "CPUX_1_abc123" 2 "fetch_personal_detail"
    [mkPulse "driver_points" "N" JNull JUndefined; startY]
    None "DN1" None None (Some "CPUX_1_abc123:2:DN1").

(** Step 2 of [CPUXDefinition]: [fetch_personal_detail], sent to DN1. *)
Definition fetchPersonalDetail : Clean.Step :=
  Clean.mkStep 2 "fetch_personal_detail" [requirement "start_license_request" "Y"]
    "DN1" "dn".

(** The orchestrator as [executeCPUX] has it when its first pass begins. *)
Definition readyToStart : Clean.Cpux :=
  Clean.mkCpux (Clean.fieldAbsorb "t0" Clean.startSignal ∅) ∅
    (Clean.initializeDNStatus Clean.CPUXDefinition Deployment.contextId ∅).

(** The result of DN1 reaching the orchestrator of another run. *)
Definition strayEmission : Emission.Message :=
  Emission.mkMessage "CPUX_0_zzzzzz" "result_fetch_personal_detail"
    [mkPulse "personal_detail" "Y" JNull JUndefined]
    (Some "CPUX_0_zzzzzz:2:DN1") None (Some "DN1").

(** The result of DN1 for step 2, as [processAsyncAndEmit] posts it. *)
Definition dn1Emission : Emission.Message :=
  DN.emissionIntention
    (DN.mkJob "DN1" [startY] Deployment.contextId "fetch_personal_detail"
       "CPUX_1_abc123:2:DN1")
    [mkPulse "personal_detail" "Y"
       (JObj [("name", JStr "Alice Johnson"); ("age", JNum 24);
              ("licenseType", JStr "standard"); ("fine_flag", JStr "Y")])
       JUndefined].

(** Step 4 of the sequence of enhanced-cpux-server.js (consuming) and a
    copying variant of it. *)
Definition fetchDriverPoints : Enhanced.Step :=
  Enhanced.mkStep 4 "intention-to-object" "fetch_driver_points"
    [requirement "personal_detail" "Y"] "O1" "DN2" (Some true) (Some "absorb").

Definition fetchDriverPointsCopy : Enhanced.Step :=
  Enhanced.mkStep 4 "intention-to-object" "fetch_driver_points"
    [requirement "personal_detail" "Y"] "O1" "DN2" (Some false) (Some "copy").

Definition withDetail : Enhanced.Cpux :=
  Enhanced.mkCpux
    (Enhanced.fieldAbsorb "t0" [startY; detailY] ∅ true) ∅ ∅.

(** A field whose [personal_detail] already carries a list of payloads. *)
Definition batches : gmap string Pulse :=
  {[ "personal_detail" :=
       mkPulse "personal_detail" "Y" (JArr [JStr "batch 1"]) (JStr "t0") ]}.

Definition batch (text : string) : Pulse :=
  mkPulse "personal_detail" "Y" (JStr text) JUndefined.

End Sample.

(** ** clean-cpux-server.js: the completion check *)

Module CleanMonitor.

(** [checkCompletion]: [completedSteps >= totalSteps], where
    [completedSteps] is [executionLog.size] and [totalSteps] the length of
    the sequence. *)
Definition checkCompletion (sequence : list Clean.Step) (st : Clean.Cpux) : bool :=
  bool_decide (length sequence ≤ size (Clean.executionLog st))%nat.

(** The keys of the steps of a sequence. *)
Definition keysOf (sequence : list Clean.Step) : gset string :=
  list_to_set (Clean.stepKey <$> sequence).

(** The orchestrator with every step of [CPUXDefinition] logged. *)
Definition allLogged : Clean.Cpux :=
  Clean.mkCpux ∅ (keysOf Clean.CPUXDefinition) ∅.

End CleanMonitor.

(** ** enhanced-dn-container-server.js: monitoring and maintenance *)

Module DNAdmin.

(** [GET /status]: the number of entries of [activeInstances] whose status
    is [running], the number whose status is [completed], and
    [activeInstances.size]. *)
Definition runningInstances (srv : DN.Server) : nat :=
  size (filter (λ entry : string * DN.Task, DN.status entry.2 = "running")
          (DN.activeInstances srv)).

Definition completedInstances (srv : DN.Server) : nat :=
  size (filter (λ entry : string * DN.Task, DN.status entry.2 = "completed")
          (DN.activeInstances srv)).

Definition totalInstances (srv : DN.Server) : nat := size (DN.activeInstances srv).

(** [GET /instance/:instanceId/status]: the entry, or 404 ([None]). *)
Definition instanceStatus (srv : DN.Server) (instanceId : string) : option DN.Task :=
  DN.activeInstances srv !! instanceId.

(** [cleanedCount] of [POST /cleanup]: one for every entry the loop deletes. *)
Definition cleanedCount (now maxAge : Z) (srv : DN.Server) : nat :=
  size (filter (λ entry : string * DN.Task, DN.expired now maxAge entry.2 = true)
          (DN.activeInstances srv)).

(** [remainingInstances] of [POST /cleanup]. *)
Definition remainingInstances (now maxAge : Z) (srv : DN.Server) : nat :=
  size (DN.activeInstances (DN.cleanup now maxAge srv)).

End DNAdmin.

(** ** clean-cpux-server.js, second part: the IPTP protocol server

    Intentions travel in the headers, the signal is the body.  The field of
    an object is here an array of pulses [{ name, TV, response }], updated in
    place. *)

Module IPTP.

Record Mapping : Type := mkMapping {
  incomingIntention : string;
  triggerCondition : list Pulse;
  outgoingIntention : string;
  targetNode : string
}.

(** What [emitIPTPIntention] posts with [fetch]: the URL, the three
    headers and the body. *)
Record Emitted : Type := mkEmitted {
  url : string;
  intention : string;
  source : string;
  target : string;
  signal : list Pulse
}.

(** [objectRegistry] (the mappings of each object), [objectStates] (its
    [pulses]) and the requests sent so far. *)
Record Server : Type := mkServer {
  objectRegistry : gmap string (list Mapping);
  objectStates : gmap string (list Pulse);
  emitted : list Emitted
}.

Definition registerObject (objectId : string) (intentionMappings : list Mapping)
    (srv : Server) : Server :=
  mkServer (<[objectId := intentionMappings]> (objectRegistry srv))
    (<[objectId := []]> (objectStates srv)) (emitted srv).

(** [setupO1LoginObject()], run when the server starts. *)
Definition setupO1LoginObject (srv : Server) : Server :=
  registerObject "O1"
    [mkMapping "Log me in" [requirement "user responded" "Y"] "Log me in" "DN2"] srv.

Definition initial : Server := setupO1LoginObject (mkServer ∅ ∅ []).

(** [objectField.pulses.forEach((pulse, index) => existingPulseMap.set(pulse.name, index))] *)
Definition existingPulseMap (pulses : list Pulse) : gmap string nat :=
  foldl (λ (m : gmap string nat) (entry : nat * Pulse), <[name entry.2 := entry.1]> m)
    ∅ (imap (λ index pulse, (index, pulse)) pulses).

(** The callback of [signal.forEach] in [FieldAbsorb].  The map of
    indices is the one built before the loop; an index it holds is always
    within the array, which only grows. *)
Definition absorbPulse (existingPulseMap : gmap string nat) (pulses : list Pulse)
    (incomingPulse : Pulse) : list Pulse :=
  match existingPulseMap !! name incomingPulse with
  | Some existingIndex =>
      alter (λ existingPulse,
               mkPulse (name existingPulse) (TV incomingPulse)
                 (if isUndefined (response incomingPulse) then response existingPulse
                  else response incomingPulse)
                 (timestamp existingPulse))
        existingIndex pulses
  | None =>
      (pulses ++ [mkPulse (name incomingPulse) (TV incomingPulse) (response incomingPulse)
                    JUndefined])%list
  end.

(** [signal] is [None] when the body is not an array.  A missing entry of
    [objectStates] makes [objectField.pulses] throw inside the [try]. *)
Definition FieldAbsorb (objectId : string) (signal : option (list Pulse)) (srv : Server)
    : Server * bool :=
  match signal with
  | None => (srv, false)
  | Some signal =>
      match objectStates srv !! objectId with
      | None => (srv, false)
      | Some pulses =>
          (mkServer (objectRegistry srv)
             (<[objectId := foldl (absorbPulse (existingPulseMap pulses)) pulses signal]>
                (objectStates srv))
             (emitted srv),
           true)
      end
  end.

(** [objectField.pulses.forEach(pulse => fieldPulseMap.set(pulse.name, pulse))] *)
Definition fieldPulseMap (pulses : list Pulse) : gmap string Pulse :=
  foldl (λ (m : gmap string Pulse) pulse, <[name pulse := pulse]> m) ∅ pulses.

(** The [for] loop of [FieldTrigger] with its two [break]s; the result is
    [conditionMet]. *)
Fixpoint conditionMet (fieldPulseMap : gmap string Pulse) (triggerCondition : list Pulse)
    : bool :=
  match triggerCondition with
  | [] => true
  | requiredPulse :: rest =>
      match fieldPulseMap !! name requiredPulse with
      | None => false
      | Some fieldPulse =>
          if bool_decide (TV fieldPulse ≠ TV requiredPulse) then false
          else conditionMet fieldPulseMap rest
      end
  end.

Definition prepareCompleteSignal (pulses : list Pulse) : list Pulse :=
  filter (λ pulse, TV pulse = "Y") pulses.

Definition nodeUrls : gmap string string :=
  list_to_map [
    ("DN1", "http://localhost:3002/iptp");
    ("DN2", "http://localhost:3001/iptp");
    ("DN3", "http://localhost:3003/iptp");
    ("O1", "http://localhost:3000/iptp");
    ("O2", "http://localhost:3000/iptp")
  ].

(** [nodeUrls[nodeId] || `http://localhost:3001/iptp`] *)
Definition getNodeUrl (nodeId : string) : string :=
  default "http://localhost:3001/iptp" (nodeUrls !! nodeId).

(** The request is built and handed to [fetch] before the first [await];
    what comes back is only logged. *)
Definition emitIPTPIntention (intention source target : string) (signal : list Pulse)
    (srv : Server) : Server :=
  mkServer (objectRegistry srv) (objectStates srv)
    (emitted srv ++ [mkEmitted (getNodeUrl target) intention source target signal])%list.

Inductive TriggerResult : Type :=
| Triggered (outgoingIntention targetNode : string) (signalPulses : nat)
| NotTriggered
| TriggerError.

Definition FieldTrigger (objectId : string) (triggerCondition : list Pulse)
    (outgoingIntention targetNode : string) (srv : Server) : Server * TriggerResult :=
  match objectStates srv !! objectId with
  | None => (srv, TriggerError)
  | Some pulses =>
      if conditionMet (fieldPulseMap pulses) triggerCondition then
        let completeSignal := prepareCompleteSignal pulses in
        (emitIPTPIntention outgoingIntention objectId targetNode completeSignal srv,
         Triggered outgoingIntention targetNode (length completeSignal))
      else (srv, NotTriggered)
  end.

Inductive Result : Type :=
| NoMapping (availableIntentions : list string)
| AbsorbFailed
| Evaluated (triggerResult : TriggerResult).

(** [None] is the [TypeError] of [objectConfig.intentionMappings] for a
    target that is not registered. *)
Definition processIPTPMessage (intention source target : string)
    (signal : option (list Pulse)) (srv : Server) : Server * option Result :=
  match objectRegistry srv !! target with
  | None => (srv, None)
  | Some intentionMappings =>
      match find (λ mapping, bool_decide (incomingIntention mapping = intention))
              intentionMappings with
      | None => (srv, Some (NoMapping (incomingIntention <$> intentionMappings)))
      | Some intentionMapping =>
          let '(srv1, absorbed) := FieldAbsorb target signal srv in
          if negb absorbed then (srv1, Some AbsorbFailed)
          else
            let '(srv2, triggerResult) :=
              FieldTrigger target (triggerCondition intentionMapping)
                (outgoingIntention intentionMapping) (targetNode intentionMapping) srv1 in
            (srv2, Some (Evaluated triggerResult))
      end
  end.

Inductive Response : Type :=
| InvalidHeaders
| ObjectNotFound
| Processed (target intention : string) (result : Result)
| ProcessingFailed.

(** [POST /iptp]; a header that is absent is [None]. *)
Definition iptp (intention source target : option string) (signal : option (list Pulse))
    (srv : Server) : Server * Response :=
  if negb (truthyStr intention) || negb (truthyStr source) || negb (truthyStr target)
  then (srv, InvalidHeaders)
  else
    let intention := default "" intention in
    let source := default "" source in
    let target := default "" target in
    if negb (bool_decide (is_Some (objectRegistry srv !! target))) then (srv, ObjectNotFound)
    else
      let '(srv', result) := processIPTPMessage intention source target signal srv in
      match result with
      | Some result => (srv', Processed target intention result)
      | None => (srv', ProcessingFailed)
      end.

End IPTP.

(** ** dn2_iptp.js: the login node DN2 *)

Module DN2.

Module User.
Record t : Type := mk { password : string; name : string; role : string }.
End User.

Definition supportedIntentions : list string := ["Log me in"].

Definition userDatabase : gmap string User.t :=
  list_to_map [
    ("alice@example.com", User.mk "secret123" "Alice Wonderland" "user");
    ("john.doe@example.com", User.mk "securePassword123" "John Doe" "admin");
    ("test@example.com", User.mk "testpass" "Test User" "guest")
  ].

(** The object [credentials]; a property that was never assigned is
    [JUndefined]. *)
Record Credentials : Type := mkCredentials { username : JVal; password : JVal }.

(** [signal] is [None] when the body is not an array. *)
Definition extractCredentialsFromSignal (signal : option (list Pulse)) : Credentials :=
  match signal with
  | None => mkCredentials JUndefined JUndefined
  | Some signal =>
      foldl (λ credentials pulse,
               if bool_decide (name pulse = "user name present" ∧ TV pulse = "Y")
               then mkCredentials (response pulse) (password credentials)
               else if bool_decide (name pulse = "password present" ∧ TV pulse = "Y")
               then mkCredentials (username credentials) (response pulse)
               else credentials)
        (mkCredentials JUndefined JUndefined) signal
  end.

Record AuthResult : Type := mkAuthResult {
  success : bool;
  reason : string;
  code : string;
  user : option (string * string * string)
}.

(** [userDatabase.has(username)] holds for a string that is a key, and
    [user.password !== password] fails for that very string only. *)
Definition authenticateUser (username password : JVal) : AuthResult :=
  match username with
  | JStr key =>
      match userDatabase !! key with
      | None => mkAuthResult false "User not found" "USER_NOT_FOUND" None
      | Some user =>
          match password with
          | JStr text =>
              if bool_decide (User.password user ≠ text)
              then mkAuthResult false "Invalid password" "INVALID_PASSWORD" None
              else mkAuthResult true "Authentication successful" "AUTH_SUCCESS"
                     (Some (key, User.name user, User.role user))
          | _ => mkAuthResult false "Invalid password" "INVALID_PASSWORD" None
          end
      end
  | _ => mkAuthResult false "User not found" "USER_NOT_FOUND" None
  end.

Module Attempt.
Record t : Type := mk {
  timestamp : string;
  username : JVal;
  source : string;
  result : string;
  reason : string;
  code : string
}.
End Attempt.

(** What [processIntention] returns; [username] and [emittedIntention] are
    there for complete credentials only. *)
Module Outcome.
Record t : Type := mk {
  success : bool;
  reason : string;
  code : string;
  username : option JVal;
  emittedIntention : option string
}.
End Outcome.

(** The state is [loginAttempts]; the emission is only logged. *)
Definition processLoginIntention (signal : option (list Pulse)) (source timestamp : string)
    (loginAttempts : list Attempt.t) : list Attempt.t * Outcome.t :=
  let credentials := extractCredentialsFromSignal signal in
  if negb (truthy (username credentials)) || negb (truthy (password credentials))
  then (loginAttempts,
        Outcome.mk false "Incomplete credentials in signal" "INCOMPLETE_CREDENTIALS" None None)
  else
    let authResult := authenticateUser (username credentials) (password credentials) in
    let attempt :=
      Attempt.mk timestamp (username credentials) source
        (if success authResult then "SUCCESS" else "FAILED")
        (reason authResult) (code authResult) in
    ((loginAttempts ++ [attempt])%list,
     Outcome.mk (success authResult) (reason authResult) (code authResult)
       (Some (username credentials))
       (Some (if success authResult then "Authentication successful"
              else "Authentication failed"))).

Definition processIntention (intention source : string) (signal : option (list Pulse))
    (timestamp : string) (loginAttempts : list Attempt.t) : list Attempt.t * Outcome.t :=
  if bool_decide (intention = "Log me in")
  then processLoginIntention signal source timestamp loginAttempts
  else (loginAttempts,
        Outcome.mk false ("Unknown intention: " +:+ intention) "UNKNOWN_INTENTION" None None).

Inductive Response : Type :=
| InvalidHeaders
| UnsupportedIntention
| Processed (intention source : string) (result : Outcome.t).

(** [POST /iptp] of DN2; [stamp] is the header [x-iptp-timestamp]. *)
Definition iptp (now : string) (intention source stamp : option string)
    (signal : option (list Pulse)) (loginAttempts : list Attempt.t)
    : list Attempt.t * Response :=
  let timestamp := if truthyStr stamp then default "" stamp else now in
  if negb (truthyStr intention) || negb (truthyStr source)
  then (loginAttempts, InvalidHeaders)
  else
    let intention := default "" intention in
    let source := default "" source in
    if negb (bool_decide (intention ∈ supportedIntentions))
    then (loginAttempts, UnsupportedIntention)
    else
      let '(loginAttempts', result) :=
        processIntention intention source signal timestamp loginAttempts in
      (loginAttempts', Processed intention source result).

(** The [statistics] of [GET /dn2/status]. *)
Definition totalLoginAttempts (loginAttempts : list Attempt.t) : nat := length loginAttempts.

Definition successfulLogins (loginAttempts : list Attempt.t) : nat :=
  length (filter (λ a, Attempt.result a = "SUCCESS") loginAttempts).

Definition failedLogins (loginAttempts : list Attempt.t) : nat :=
  length (filter (λ a, Attempt.result a = "FAILED") loginAttempts).

(** The states the node can be in: [loginAttempts] is empty at the start
    and changes with a request only. *)
Inductive step : list Attempt.t → list Attempt.t → Prop :=
| step_iptp now intention source stamp signal loginAttempts :
    step loginAttempts (iptp now intention source stamp signal loginAttempts).1.

Definition reachable (loginAttempts : list Attempt.t) : Prop := rtc step [] loginAttempts.

End DN2.

(** ** final-corrected-object-server.js: one turn of the loop over the mappings *)

(** The body of [for (const mapping of triggerMappings)] in [/execute] of
    final-corrected-object-server.js, for the field after absorption. *)
Definition considerMapping (field : gmap string Pulse) (req : Wire.Payload)
    (acc : gset string * list Emission.Message) (mapping : FinalObjectServer.Mapping)
    : gset string * list Emission.Message :=
  if bool_decide (FinalObjectServer.incomingIntention mapping ≠ Wire.intention req) then acc
  else
    let triggerKey :=
      Wire.intention req +:+ ":" +:+ FinalObjectServer.outgoingIntention mapping in
    if FinalObjectServer.fieldMatch field (FinalObjectServer.triggerCondition mapping)
       && negb (bool_decide (triggerKey ∈ acc.1))
    then ({[triggerKey]} ∪ acc.1,
          (acc.2 ++
             [Emission.mkMessage (Wire.cpuxId req)
                (FinalObjectServer.outgoingIntention mapping)
                ((λ pulseSpec,
                    mkPulse (name pulseSpec) (TV pulseSpec)
                      (jsOr (responseOf (field !! name pulseSpec)) JNull)
                      JUndefined) <$> FinalObjectServer.emitSignal mapping)
                None
                (Some (Wire.cpuxId req +:+ ":" +:+ pretty (Wire.stepId req) +:+ ":O1"))
                (Some "O1")])%list)
    else acc.

(** ** Further vocabulary: whole pulses *)

(** The last pulse of the signal named [n]. *)
Fixpoint latestNamed (n : string) (signal : list Pulse) : option Pulse :=
  match signal with
  | [] => None
  | pulse :: rest =>
      match latestNamed n rest with
      | Some p => Some p
      | None => if decide (name pulse = n) then Some pulse else None
      end
  end.

(** The first pulse of the signal named [n]. *)
Fixpoint earliestNamed (n : string) (signal : list Pulse) : option Pulse :=
  match signal with
  | [] => None
  | pulse :: rest => if decide (name pulse = n) then Some pulse else earliestNamed n rest
  end.

(** The object literal [{ name, TV, response: pulse.response || null,
    timestamp }] that the absorbing loops store. *)
Definition stored (stamp : JVal) (pulse : Pulse) : Pulse :=
  mkPulse (name pulse) (TV pulse) (jsOr (response pulse) JNull) stamp.

(** Every pulse of the field sits under its own name. *)
Definition keyedByName (field : gmap string Pulse) : Prop :=
  ∀ key pulse, field !! key = Some pulse → name pulse = key.

(** ** The first system: cpux-server.js, object-server.js and
    dn-container-server.js

    The orchestrator makes one pass over the sequence; for every step it
    posts [/execute], polls [/ready] once a second until the member says yes,
    and fetches [/result]. *)

Module First.

(** The body of [POST /execute]. *)
Record Request : Type := mkRequest {
  cpuxId : string;
  sequenceIndex : nat;
  intention : string;
  signal : list Pulse;
  source : string;
  target : string
}.

(** What the orchestrator posts: an execute request, or the
    [{ cpuxId, sequenceIndex }] of [/ready] and [/result]. *)
Inductive Body : Type :=
| Execute (request : Request)
| Poll (cpuxId : string) (sequenceIndex : nat).

(** An entry of a [resultStore]; the DN server stores [{ signal }] only. *)
Module Result.
Record t : Type := mk {
  signal : list Pulse;
  target : option string;
  intention : option string
}.
End Result.

(** [response.data] of the three endpoints, and an answer with an error
    status. *)
Inductive Reply : Type :=
| Status (status : string)
| Ready (ready : bool)
| Stored (result : option Result.t)
| Refused (code : nat) (error : string).

(** [`${cpuxId}:${sequenceIndex}`] *)
Definition resultKey (cpuxId : string) (sequenceIndex : nat) : string :=
  cpuxId +:+ ":" +:+ pretty sequenceIndex.

(** *** object-server.js: the endpoints of O1 *)

Module Object.

Record Mapping : Type := mkMapping {
  incomingIntention : string;
  triggerCondition : list Pulse;
  outgoingIntention : string;
  target : string
}.

Definition triggerMappings : list Mapping := [
  mkMapping "reflect_personal_detail" [requirement "personal_detail" "Y"]
    "fetch_driver_points" "DN2";
  mkMapping "reflect_driver_points" [requirement "driver_points" "Y"]
    "compute_expiry" "DN3";
  mkMapping "reflect_expiry" [requirement "expiry_date" "Y"] "generate_license" "DN4";
  mkMapping "generate_license" [requirement "fine_flag" "Y"] "check_fine" "DN5"
].

Record State : Type := mkState {
  objectField : gmap string Pulse;
  resultStore : gmap string Result.t
}.

Definition initial : State := mkState ∅ ∅.

(** [POST /execute]; the answer is always [{ status: ok }]. *)
Definition execute (request : Request) (st : State) : State :=
  let objectField := ObjectServer.fieldAbsorb (signal request) (objectField st) in
  match find (λ m, bool_decide (incomingIntention m = intention request)
                   && ObjectServer.fieldMatch objectField (triggerCondition m))
          triggerMappings with
  | Some match_ =>
      mkState objectField
        (<[resultKey (cpuxId request) (sequenceIndex request) :=
             Result.mk (triggerCondition match_) (Some (target match_))
               (Some (outgoingIntention match_))]>
           (resultStore st))
  | None => mkState objectField (resultStore st)
  end.

(** [POST /ready]: [!!resultStore[key]] *)
Definition ready (key : string) (st : State) : bool :=
  bool_decide (is_Some (resultStore st !! key)).

(** [POST /result]: the entry, which is deleted. *)
Definition result (key : string) (st : State) : State * option Result.t :=
  (mkState (objectField st) (delete key (resultStore st)), resultStore st !! key).

End Object.

(** *** dn-container-server.js *)

Module Container.

(** [handler] takes no argument and returns a constant. *)
Record Container : Type := mkContainer {
  valve : list Pulse;
  handler : list Pulse
}.

Definition DN_CONTAINERS : gmap string Container :=
  list_to_map [
    ("DN1", mkContainer [requirement "start_license_request" "Y"]
              [mkPulse "personal_detail" "Y"
                 (JObj [("name", JStr "Alice"); ("age", JNum 24); ("fine_flag", JStr "Y")])
                 JUndefined]);
    ("DN2", mkContainer [requirement "personal_detail" "Y"]
              [mkPulse "driver_points" "Y" (JNum 3) JUndefined]);
    ("DN3", mkContainer [requirement "driver_points" "Y"]
              [mkPulse "expiry_date" "Y" (JStr "2028-06-30") JUndefined]);
    ("DN4", mkContainer [requirement "expiry_date" "Y"]
              [mkPulse "compiled_license" "Y"
                 (JObj [("id", JStr "LIC12345"); ("issueDate", JStr "2025-06-27")])
                 JUndefined]);
    ("DN5", mkContainer [requirement "fine_flag" "Y"]
              [mkPulse "fine_notice" "Y"
                 (JObj [("amount", JNum 100); ("reason", JStr "Pending fine")])
                 JUndefined])
  ].

(** [POST /execute] on the [resultStore]. *)
Definition execute (request : Request) (resultStore : gmap string Result.t)
    : gmap string Result.t * Reply :=
  match DN_CONTAINERS !! target request with
  | None => (resultStore, Refused 400 "Unknown DN")
  | Some container =>
      (<[resultKey (cpuxId request) (sequenceIndex request) :=
           Result.mk (handler container) None None]> resultStore,
       Status "executed")
  end.

Definition ready (key : string) (resultStore : gmap string Result.t) : bool :=
  bool_decide (is_Some (resultStore !! key)).

Definition result (key : string) (resultStore : gmap string Result.t)
    : gmap string Result.t * option Result.t :=
  (delete key resultStore, resultStore !! key).

End Container.

(** *** cpux-server.js *)

Module CpuxServer.

Record Step : Type := mkStep {
  intention : string;
  signal : list Pulse;
  source : string;
  target : string;
  consumeSignal : option bool
}.

Definition targetRegistry : gmap string string :=
  list_to_map [
    ("O1", "http://localhost:4000");
    ("DN1", "http://localhost:5001");
    ("DN2", "http://localhost:5001");
    ("DN3", "http://localhost:5001");
    ("DN4", "http://localhost:5001");
    ("DN5", "http://localhost:5001")
  ].

(** [field] and [executionLog]. *)
Record State : Type := mkState {
  field : gmap string Pulse;
  executionLog : gset string
}.

(** [step.signal.every(p => field[p.name]?.TV === p.TV)] *)
Definition signalMatch (field : gmap string Pulse) (step : Step) : bool :=
  forallb (λ p, bool_decide (TV <$> field !! name p = Some (TV p))) (signal step).

(** [targetRegistry[step.target]], spliced into the URL. *)
Definition memberUrl (step : Step) : string :=
  default "undefined" (targetRegistry !! target step).

(** How far the orchestrator got: through, stopped by an exception, or
    still in [while (!ready)] when the polls it is given are used up. *)
Inductive Outcome : Type :=
| Completed (st : State)
| Thrown
| Waiting.

Inductive Wait : Type :=
| IsReady
| WaitThrown
| StillWaiting.

Section Orchestrator.
Context {World : Type}.
Variable post : World → string → Body → World * option Reply.

(** [status.data.ready] *)
Definition readyOf (reply : Reply) : bool :=
  match reply with
  | Ready ready => ready
  | _ => false
  end.

(** The loop [while (!ready)]; [polls] bounds the number of its turns. *)
Fixpoint awaitReady (polls : nat) (w : World) (url cpuxId : string) (i : nat)
    : World * Wait :=
  match polls with
  | O => (w, StillWaiting)
  | S polls' =>
      let '(w', status) := post w (url +:+ "/ready") (Poll cpuxId i) in
      match status with
      | None => (w', WaitThrown)
      | Some reply =>
          if readyOf reply then (w', IsReady) else awaitReady polls' w' url cpuxId i
      end
  end.

(** The body of the [for] loop for [sequence[i]]. *)
Definition runStep (polls : nat) (cpuxId : string) (i : nat) (step : Step) (st : State)
    (w : World) : World * Outcome :=
  if bool_decide (intention step ∈ executionLog st) then (w, Completed st)
  else if negb (signalMatch (field st) step) then (w, Completed st)
  else
    let payload :=
      mkRequest cpuxId i (intention step) (signal step) (source step) (target step) in
    let '(w1, executed) := post w (memberUrl step +:+ "/execute") (Execute payload) in
    match executed with
    | None => (w1, Thrown)
    | Some _ =>
        let '(w2, wait) := awaitReady polls w1 (memberUrl step) cpuxId i in
        match wait with
        | StillWaiting => (w2, Waiting)
        | WaitThrown => (w2, Thrown)
        | IsReady =>
            let '(w3, result) := post w2 (memberUrl step +:+ "/result") (Poll cpuxId i) in
            match result with
            | Some (Stored (Some stored)) =>
                (w3,
                 Completed
                   (mkState
                      (Utils.fieldAbsorb (Result.signal stored) (field st)
                         (default true (consumeSignal step)))
                      ({[intention step]} ∪ executionLog st)))
            | _ => (w3, Thrown)
            end
        end
    end.

(** The [for] loop from index [i] on. *)
Fixpoint runFrom (polls : nat) (cpuxId : string) (i : nat) (sequence : list Step)
    (st : State) (w : World) : World * Outcome :=
  match sequence with
  | [] => (w, Completed st)
  | step :: rest =>
      let '(w', outcome) := runStep polls cpuxId i step st w in
      match outcome with
      | Completed st' => runFrom polls cpuxId (S i) rest st' w'
      | _ => (w', outcome)
      end
  end.

(** [runCPUX(cpuxDef)] *)
Definition runCPUX (polls : nat) (cpuxId : string) (startSignal : list Pulse)
    (sequence : list Step) (st : State) (w : World) : World * Outcome :=
  runFrom polls cpuxId 0 sequence
    (mkState (Utils.fieldAbsorb startSignal (field st) true) (executionLog st)) w.

End Orchestrator.

End CpuxServer.

(** *** The two members behind the URLs of [targetRegistry] *)

Record World : Type := mkWorld {
  object : Object.State;
  containerResults : gmap string Result.t
}.

(** [/ready] and [/result] read [cpuxId] and [sequenceIndex] off the
    body; [/execute] of O1 iterates over [signal], which a poll does not
    carry.  An error status and a URL nobody serves make [axios.post]
    throw. *)
Definition post (w : World) (url : string) (body : Body) : World * option Reply :=
  let key :=
    match body with
    | Execute request => resultKey (cpuxId request) (sequenceIndex request)
    | Poll cpuxId sequenceIndex => resultKey cpuxId sequenceIndex
    end in
  if bool_decide (url = "http://localhost:4000/execute") then
    match body with
    | Execute request =>
        (mkWorld (Object.execute request (object w)) (containerResults w), Some (Status "ok"))
    | Poll _ _ => (w, None)
    end
  else if bool_decide (url = "http://localhost:4000/ready") then
    (w, Some (Ready (Object.ready key (object w))))
  else if bool_decide (url = "http://localhost:4000/result") then
    let '(object', result) := Object.result key (object w) in
    (mkWorld object' (containerResults w), Some (Stored result))
  else if bool_decide (url = "http://localhost:5001/execute") then
    match body with
    | Execute request =>
        let '(results, reply) := Container.execute request (containerResults w) in
        (mkWorld (object w) results,
         match reply with Refused _ _ => None | _ => Some reply end)
    | Poll _ _ => (w, None)
    end
  else if bool_decide (url = "http://localhost:5001/ready") then
    (w, Some (Ready (Container.ready key (containerResults w))))
  else if bool_decide (url = "http://localhost:5001/result") then
    let '(results, result) := Container.result key (containerResults w) in
    (mkWorld (object w) results, Some (Stored result))
  else (w, None).

End First.

(** ** Steps of the first system *)

Module FirstSample.

(** Step 0 of the sequence of cpux-server.js. *)
Definition addPersonalDetail : First.CpuxServer.Step :=
  First.CpuxServer.mkStep "add_personal_detail" [requirement "start_license_request" "Y"]
    "O1" "DN1" (Some true).

(** Step 1 of the sequence. *)
Definition reflectPersonalDetail : First.CpuxServer.Step :=
  First.CpuxServer.mkStep "reflect_personal_detail" [requirement "personal_detail" "Y"]
    "DN1" "O1" None.

(** A step that hands an intention to O1 for which O1 has no mapping. *)
Definition notifyObject : First.CpuxServer.Step :=
  First.CpuxServer.mkStep "add_personal_detail" [requirement "start_license_request" "Y"]
    "DN1" "O1" None.

(** The orchestrator after [fieldAbsorb(startIntention.signal, field)]. *)
Definition started : First.CpuxServer.State :=
  First.CpuxServer.mkState
    (Utils.fieldAbsorb [requirement "start_license_request" "Y"] ∅ true) ∅.

(** The orchestrator once DN1 has delivered. *)
Definition detailed : First.CpuxServer.State :=
  First.CpuxServer.mkState
    (Utils.fieldAbsorb
       [mkPulse "personal_detail" "Y" (JObj [("name", JStr "Alice")]) JUndefined] ∅ true)
    {["add_personal_detail"]}.

Definition idle : First.World := First.mkWorld First.Object.initial ∅.

End FirstSample.

(** ** Messages of the login flow of the IPTP server *)

Module Login.

Definition userName : Pulse :=
  mkPulse "user name present" "Y" (JStr "alice@example.com") JUndefined.
Definition password : Pulse := mkPulse "password present" "Y" (JStr "secret123") JUndefined.
Definition submitted : Pulse := mkPulse "user responded" "Y" (JStr "form_submitted") JUndefined.
Definition withdrawn : Pulse := mkPulse "user responded" "N" JUndefined JUndefined.

(** The server after the first two messages of [/test/iptp-login]. *)
Definition credentialsGiven : IPTP.Server :=
  (IPTP.iptp (Some "Log me in") (Some "DN1") (Some "O1") (Some [password])
     (IPTP.iptp (Some "Log me in") (Some "DN1") (Some "O1") (Some [userName])
        IPTP.initial).1).1.

End Login.

(** ** Further vocabulary: arrays of pulses *)

(** The pulse at [index] is the last one of the array named [n]. *)
Definition lastNamedAt (pulses : list Pulse) (n : string) (index : nat) : Prop :=
  ∃ pulse, pulses !! index = Some pulse ∧ name pulse = n ∧
    ∀ j pulse', (index < j)%nat → pulses !! j = Some pulse' → name pulse' ≠ n.

(** Every index of the map points at the last pulse of its name. *)
Definition indexedBy (indices : gmap string nat) (pulses : list Pulse) : Prop :=
  ∀ n index, indices !! n = Some index → lastNamedAt pulses n index.

(** The truth value on record under [n] once [signal] has been taken in over
    a record that read [before]. *)
Definition tvAfter (signal : list Pulse) (before : string → option string) (n : string)
    : option string :=
  match latestTV n signal with Some tv => Some tv | None => before n end.

(** Every required pulse reads its truth value. *)
Definition requiredBy (reading : string → option string) (condition : list Pulse) : bool :=
  forallb (λ requiredPulse,
             bool_decide (reading (name requiredPulse) = Some (TV requiredPulse)))
    condition.

(** * Verification *)

(** ** Field matching *)

Lemma forallb_pointwise {A : Type} (f g : A → bool) (l : list A) :
  (∀ x, f x = g x) → forallb f l = forallb g l.
Proof. intros E. induction l as [|x l IH]; simpl; [done|]. by rewrite E, IH. Qed.

Lemma forallb_fmap {A B : Type} (h : A → B) (f : B → bool) (l : list A) :
  forallb f (h <$> l) = forallb (λ x, f (h x)) l.
Proof. induction l as [|x l IH]; csimpl; [done|]. by rewrite IH. Qed.

Lemma clean_fieldMatch_true (field : gmap string Pulse) (req : list Pulse) :
  Clean.fieldMatch field req = true ↔
  ∀ r, r ∈ req → ∃ p, field !! name r = Some p ∧ TV p = TV r.
Proof.
  unfold Clean.fieldMatch. rewrite forallb_forall. split.
  - intros H r Hr. apply list_elem_of_In, H in Hr.
    destruct (field !! name r) as [p|]; [|done].
    exists p. split; [done|]. by case_bool_decide.
  - intros H r Hr. apply list_elem_of_In, H in Hr as (p & -> & Hp).
    by case_bool_decide.
Qed.

Lemma object_fieldMatch_clean (field : gmap string Pulse) (req : list Pulse) :
  ObjectServer.fieldMatch field req = Clean.fieldMatch field req.
Proof.
  unfold ObjectServer.fieldMatch, Clean.fieldMatch. apply forallb_pointwise. intros r.
  destruct (field !! name r) as [p|]; simpl; [|done].
  apply bool_decide_ext. split; [by intros [= ->] | by intros ->].
Qed.

Lemma enhanced_fieldMatch_clean (field : gmap string Pulse) (req : list Pulse) :
  Enhanced.fieldMatch field req = Clean.fieldMatch field req.
Proof.
  induction req as [|r req IH]; [done|]. simpl.
  destruct (field !! name r) as [p|]; [|done].
  rewrite IH. destruct (decide (TV p = TV r)) as [E|E].
  - rewrite bool_decide_eq_false_2 by (intros ?; done).
    by rewrite bool_decide_eq_true_2.
  - rewrite bool_decide_eq_true_2 by done.
    by rewrite (bool_decide_eq_false_2 _ E).
Qed.

Lemma clean_fieldMatch_withPayload (g : Pulse → JVal * JVal)
    (field : gmap string Pulse) (req : list Pulse) :
  Clean.fieldMatch (withPayload g <$> field) req = Clean.fieldMatch field req.
Proof.
  unfold Clean.fieldMatch. apply forallb_pointwise. intros r.
  rewrite lookup_fmap. by destruct (field !! name r).
Qed.

(** C1. [fieldMatch] (clean-cpux-server.js and object-server.js) returns true
    exactly when every entry of the precondition names a pulse that is present
    in the field with the required truth value; the empty precondition matches
    every field, the empty one included; rewriting payloads (and timestamps)
    of the field's pulses and of the precondition's entries changes nothing. *)
Theorem fieldMatch_characterisation :
  (∀ (field : gmap string Pulse) (precondition : list Pulse),
     (Clean.fieldMatch field precondition = true ↔
        ∀ r, r ∈ precondition → ∃ p, field !! name r = Some p ∧ TV p = TV r) ∧
     (ObjectServer.fieldMatch field precondition = true ↔
        ∀ r, r ∈ precondition → ∃ p, field !! name r = Some p ∧ TV p = TV r)) ∧
  (∀ field : gmap string Pulse,
     Clean.fieldMatch field [] = true ∧ ObjectServer.fieldMatch field [] = true) ∧
  (Clean.fieldMatch ∅ [] = true ∧ ObjectServer.fieldMatch ∅ [] = true) ∧
  (∀ (g h : Pulse → JVal * JVal) (field : gmap string Pulse) (precondition : list Pulse),
     Clean.fieldMatch (withPayload g <$> field) (withPayload h <$> precondition)
       = Clean.fieldMatch field precondition ∧
     ObjectServer.fieldMatch (withPayload g <$> field) (withPayload h <$> precondition)
       = ObjectServer.fieldMatch field precondition).
Proof.
  split; [|split; [|split]].
  - intros field pre. rewrite object_fieldMatch_clean. split; apply clean_fieldMatch_true.
  - done.
  - done.
  - intros g h field pre. rewrite !object_fieldMatch_clean.
    rewrite clean_fieldMatch_withPayload.
    assert (Clean.fieldMatch field (withPayload h <$> pre) = Clean.fieldMatch field pre)
      as ->; [|done].
    unfold Clean.fieldMatch. by rewrite forallb_fmap.
Qed.

(** ** Field absorption *)

Lemma latestTV_app (n : string) (s1 s2 : list Pulse) :
  latestTV n (s1 ++ s2) =
  match latestTV n s2 with Some tv => Some tv | None => latestTV n s1 end.
Proof.
  induction s1 as [|q s1 IH]; simpl.
  - by destruct (latestTV n s2).
  - rewrite IH. by destruct (latestTV n s2).
Qed.

Lemma latestTV_None (n : string) (signal : list Pulse) :
  (∀ q, q ∈ signal → name q ≠ n) → latestTV n signal = None.
Proof.
  induction signal as [|q s IH]; intros H; simpl; [done|].
  rewrite IH by (intros q' Hq'; apply H; by right).
  rewrite decide_False; [done|]. apply H. by left.
Qed.

Lemma latestTV_Some (n tv : string) (signal : list Pulse) :
  latestTV n signal = Some tv → ∃ q, q ∈ signal ∧ name q = n ∧ TV q = tv.
Proof.
  induction signal as [|q s IH]; simpl; [done|].
  destruct (latestTV n s) as [tv'|].
  - intros [= <-]. destruct IH as (q' & ? & ? & ?); [done|].
    exists q'. split; [by right|done].
  - case_decide; [|done]. intros [= <-]. exists q. split; [by left|done].
Qed.

Lemma latestTV_last_occurrence (before after : list Pulse) (p : Pulse) :
  (∀ q, q ∈ after → name q ≠ name p) →
  latestTV (name p) (before ++ p :: after) = Some (TV p).
Proof.
  intros H. rewrite latestTV_app. simpl.
  rewrite (latestTV_None _ _ H). by rewrite decide_True.
Qed.

Lemma clean_fieldAbsorb_tvAt (now : string) (signal : list Pulse)
    (field : gmap string Pulse) (n : string) :
  tvAt (Clean.fieldAbsorb now signal field) n =
  match latestTV n signal with Some tv => Some tv | None => tvAt field n end.
Proof.
  unfold Clean.fieldAbsorb, tvAt. revert field.
  induction signal as [|q s IH]; intros field; simpl; [done|].
  rewrite IH. destruct (latestTV n s); [done|].
  case_decide as E.
  - by rewrite <- E, lookup_insert_eq.
  - by rewrite lookup_insert_ne.
Qed.

Lemma enhanced_fieldAbsorb_tvAt (now : string) (consume : bool) (signal : list Pulse)
    (field : gmap string Pulse) (n : string) :
  tvAt (Enhanced.fieldAbsorb now signal field consume) n =
  match latestTV n signal with Some tv => Some tv | None => tvAt field n end.
Proof.
  unfold Enhanced.fieldAbsorb, tvAt. revert field.
  induction signal as [|q s IH]; intros field; simpl; [done|].
  rewrite IH. destruct (latestTV n s); [done|].
  case_decide as E.
  - rewrite <- E. destruct (field !! name q); by rewrite lookup_insert_eq.
  - destruct (field !! name q); by rewrite lookup_insert_ne.
Qed.

Lemma utils_fieldAbsorb_consume_tvAt (signal : list Pulse)
    (field : gmap string Pulse) (n : string) :
  tvAt (Utils.fieldAbsorb signal field true) n =
  match latestTV n signal with Some tv => Some tv | None => tvAt field n end.
Proof.
  unfold Utils.fieldAbsorb, tvAt. revert field.
  induction signal as [|q s IH]; intros field; simpl; [done|].
  rewrite IH. destruct (latestTV n s); [done|].
  case_decide as E.
  - by rewrite <- E, lookup_insert_eq.
  - by rewrite lookup_insert_ne.
Qed.

(** Without [consume], utils/field.js guards the write with
    [!updated[pulse.name]]: the first value recorded under a name stays. *)
Lemma utils_fieldAbsorb_keep_tvAt (signal : list Pulse)
    (field : gmap string Pulse) (n : string) :
  tvAt (Utils.fieldAbsorb signal field false) n =
  match tvAt field n with Some tv => Some tv | None => earliestTV n signal end.
Proof.
  unfold Utils.fieldAbsorb, tvAt. revert field.
  induction signal as [|q s IH]; intros field; simpl.
  - by destruct (field !! n).
  - rewrite IH. case_bool_decide as Hq; simpl.
    + destruct (decide (name q = n)) as [E|E].
      * rewrite <- E. destruct Hq as [x ->]. done.
      * done.
    + destruct (decide (name q = n)) as [E|E].
      * rewrite <- E, lookup_insert_eq. simpl.
        destruct (field !! name q) eqn:Hf; [|done]. destruct Hq. by eexists.
      * by rewrite lookup_insert_ne.
Qed.






(** C8.  Absorbing with [consume = true] is idempotent on truth values: for
    [fieldAbsorb] of clean-cpux-server.js (which always replaces) and of
    enhanced-cpux-server.js with [consume = true], absorbing a pulse a second
    time, or a whole signal a second time, or the pulse twice within one
    signal, leaves under every name the truth value one absorption leaves. *)
Theorem fieldAbsorb_idempotent_TV :
  ∀ (now1 now2 : string) (field : gmap string Pulse) (pulse : Pulse)
    (signal : list Pulse) (n : string),
    (tvAt (Clean.fieldAbsorb now2 [pulse] (Clean.fieldAbsorb now1 [pulse] field)) n
       = tvAt (Clean.fieldAbsorb now1 [pulse] field) n ∧
     tvAt (Enhanced.fieldAbsorb now2 [pulse]
             (Enhanced.fieldAbsorb now1 [pulse] field true) true) n
       = tvAt (Enhanced.fieldAbsorb now1 [pulse] field true) n) ∧
    (tvAt (Clean.fieldAbsorb now1 [pulse; pulse] field) n
       = tvAt (Clean.fieldAbsorb now1 [pulse] field) n ∧
     tvAt (Enhanced.fieldAbsorb now1 [pulse; pulse] field true) n
       = tvAt (Enhanced.fieldAbsorb now1 [pulse] field true) n) ∧
    (tvAt (Clean.fieldAbsorb now2 signal (Clean.fieldAbsorb now1 signal field)) n
       = tvAt (Clean.fieldAbsorb now1 signal field) n ∧
     tvAt (Enhanced.fieldAbsorb now2 signal
             (Enhanced.fieldAbsorb now1 signal field true) true) n
       = tvAt (Enhanced.fieldAbsorb now1 signal field true) n) ∧
    tvAt (Clean.fieldAbsorb now2 [pulse] (Clean.fieldAbsorb now1 [pulse] field)) (name pulse)
      = Some (TV pulse) ∧
    tvAt (Enhanced.fieldAbsorb now2 [pulse]
            (Enhanced.fieldAbsorb now1 [pulse] field true) true) (name pulse)
      = Some (TV pulse).
Proof.
  intros. rewrite !clean_fieldAbsorb_tvAt, !enhanced_fieldAbsorb_tvAt.
  repeat split.
  - by destruct (latestTV n [pulse]).
  - by destruct (latestTV n [pulse]).
  - simpl. by case_decide.
  - simpl. by case_decide.
  - by destruct (latestTV n signal).
  - by destruct (latestTV n signal).
  - simpl. by rewrite decide_True.
  - simpl. by rewrite decide_True.
Qed.

(** ** The DN server *)

Lemma forallb_pointwise_elem {A : Type} (f g : A → bool) (l : list A) :
  (∀ x, x ∈ l → f x = g x) → forallb f l = forallb g l.
Proof.
  induction l as [|x l IH]; intros E; simpl; [done|].
  rewrite (E x) by (by left). rewrite IH; [done|]. intros y Hy. apply E. by right.
Qed.

Lemma existsb_filter_implied {A : Type} (f : A → bool) (P : A → Prop)
    `{!∀ x, Decision (P x)} (l : list A) :
  (∀ x, f x = true → P x) → existsb f (filter P l) = existsb f l.
Proof.
  intros HfP. induction l as [|x l IH]; [done|].
  rewrite filter_cons. destruct (decide (P x)) as [HP|HP]; simpl.
  - by rewrite IH.
  - rewrite IH. destruct (f x) eqn:Hf; [|done]. destruct HP. by apply HfP.
Qed.

Lemma canProcess_true (valve signal : list Pulse) :
  DN.canProcess valve signal = true ↔
  ∀ v, v ∈ valve → ∃ q, q ∈ signal ∧ name q = name v ∧ TV q = TV v.
Proof.
  unfold DN.canProcess. rewrite forallb_forall. split.
  - intros H v Hv. apply list_elem_of_In, H, existsb_exists in Hv as (q & Hq & Hv).
    exists q. apply list_elem_of_In in Hq. apply andb_true_iff in Hv as [H1 H2].
    split; [done|]. split; by eapply bool_decide_eq_true_1.
  - intros H v Hv. apply list_elem_of_In, H in Hv as (q & Hq & H1 & H2).
    apply existsb_exists. exists q. split; [by apply list_elem_of_In|].
    apply andb_true_iff. split; by apply bool_decide_eq_true_2.
Qed.

Lemma canProcess_named_only (valve signal : list Pulse) :
  DN.canProcess valve (filter (λ q, name q ∈ name <$> valve) signal)
  = DN.canProcess valve signal.
Proof.
  unfold DN.canProcess. apply forallb_pointwise_elem. intros v Hv.
  apply existsb_filter_implied. intros q Hq.
  apply andb_true_iff in Hq as [Hq _]. apply bool_decide_eq_true_1 in Hq.
  rewrite Hq. by apply list_elem_of_fmap_2.
Qed.

Lemma execute_known_idle (containers : gmap string DN.Container) (now : Z)
    (srv : DN.Server) (req : Wire.Payload) (container : DN.Container) :
  containers !! Wire.target req = Some container →
  DN.isRunning srv (DN.instanceIdOf req) = false →
  Wire.status (DN.execute containers now srv req).2
  = Some (if DN.canProcess (DN.valve container) (Wire.signal req)
          then "accepted" else "rejected").
Proof.
  intros Hc Hr. unfold DN.execute. rewrite Hc, Hr.
  by destruct (DN.canProcess _ _).
Qed.

(** C10.  For a request to a known DN whose instance is not running, the
    [/execute] endpoint answers [accepted] exactly when every pulse of the
    target's valve has a pulse of the same name and truth value in the
    incoming signal; the answer is the same in every state of the server
    (and at every time) in which that instance is not running, and the same
    when the pulses that no valve entry names are removed from the signal. *)
Theorem execute_decided_by_signal (containers : gmap string DN.Container) (now : Z)
    (srv : DN.Server) (req : Wire.Payload) (container : DN.Container)
    (Hknown : containers !! Wire.target req = Some container)
    (Hidle : DN.isRunning srv (DN.instanceIdOf req) = false) :
  (Wire.status (DN.execute containers now srv req).2 = Some "accepted" ↔
     ∀ v, v ∈ DN.valve container →
          ∃ q, q ∈ Wire.signal req ∧ name q = name v ∧ TV q = TV v) ∧
  (∀ (now' : Z) (srv' : DN.Server),
     DN.isRunning srv' (DN.instanceIdOf req) = false →
     Wire.status (DN.execute containers now' srv' req).2
     = Wire.status (DN.execute containers now srv req).2) ∧
  Wire.status
    (DN.execute containers now srv
       (Wire.withSignal
          (filter (λ q, name q ∈ name <$> DN.valve container) (Wire.signal req)) req)).2
  = Wire.status (DN.execute containers now srv req).2.
Proof.
  rewrite (execute_known_idle _ _ _ _ _ Hknown Hidle). split; [|split].
  - rewrite <- canProcess_true. by destruct (DN.canProcess _ _).
  - intros now' srv' Hidle'. by rewrite (execute_known_idle _ _ _ _ _ Hknown Hidle').
  - rewrite (execute_known_idle _ _ _ _ container); [|done|done].
    simpl. by rewrite canProcess_named_only.
Qed.

Lemma execute_decided_by_signal_witness :
  Wire.status (DN.execute DN.DN_CONTAINERS 0 DN.initial Sample.dn1Request).2
  = Some "accepted".
Proof.
  destruct (execute_decided_by_signal DN.DN_CONTAINERS 0 DN.initial Sample.dn1Request
              (DN.mkContainer "Personal Detail Processor"
                 [requirement "start_license_request" "Y"])
              eq_refl eq_refl) as [H _].
  apply H. intros v Hv. apply list_elem_of_singleton in Hv. subst v.
  exists Sample.startY. split; [|done]. right. left.
Defined.

Lemma execute_busy (containers : gmap string DN.Container) (now : Z)
    (srv : DN.Server) (req : Wire.Payload) (container : DN.Container) :
  containers !! Wire.target req = Some container →
  DN.isRunning srv (DN.instanceIdOf req) = true →
  DN.execute containers now srv req
  = (srv, Wire.jsonReply 200 "rejected" (Some "instance_busy") None
            (Some (DN.instanceIdOf req))).
Proof. intros Hc Hr. unfold DN.execute. by rewrite Hc, Hr. Qed.

Lemma isRunning_insert (srv : DN.Server) (id id' : string) (task : DN.Task) (js : list DN.Job) :
  DN.isRunning (DN.mkServer (<[id := task]> (DN.activeInstances srv)) js) id'
  = if decide (id = id') then bool_decide (DN.status task = "running")
    else DN.isRunning srv id'.
Proof.
  unfold DN.isRunning. simpl. case_decide as E.
  - subst. by rewrite lookup_insert_eq.
  - by rewrite lookup_insert_ne.
Qed.

Lemma settledTask_not_running (now : Z) (job : DN.Job) (o : DN.Outcome) :
  DN.status (DN.settledTask now job o) ≠ "running".
Proof. by destruct o. Qed.

Lemma exclusive_execute (containers : gmap string DN.Container) (now : Z)
    (srv : DN.Server) (req : Wire.Payload) :
  DN.exclusive srv → DN.exclusive (DN.execute containers now srv req).1.
Proof.
  intros [Hnd Hrun]. unfold DN.execute.
  destruct (containers !! Wire.target req) as [container|]; [|done].
  destruct (DN.isRunning srv (DN.instanceIdOf req)) eqn:Hbusy; [done|].
  destruct (DN.canProcess _ _); [|done]. simpl. split; simpl.
  - rewrite fmap_app. apply NoDup_app. split; [done|]. split; [|apply NoDup_singleton].
    intros id Hid Hnew. apply list_elem_of_singleton in Hnew. subst id.
    apply list_elem_of_fmap in Hid as (job & Hid & Hjob).
    apply Hrun in Hjob. rewrite <- Hid in Hjob. simpl in Hjob. congruence.
  - intros job Hjob. rewrite isRunning_insert. case_decide; [done|].
    apply elem_of_app in Hjob as [Hjob|Hjob]; [by apply Hrun|].
    apply list_elem_of_singleton in Hjob. by subst job.
Qed.

Lemma exclusive_settle (now : Z) (i : nat) (o : DN.Outcome) (srv : DN.Server) :
  DN.exclusive srv → DN.exclusive (DN.settle now i o srv).
Proof.
  intros [Hnd Hrun]. unfold DN.settle.
  destruct (DN.jobs srv !! i) as [job|] eqn:Hi; [|done]. split; simpl.
  - rewrite list_fmap_delete. eapply sublist_NoDup; [exact Hnd|apply sublist_delete].
  - intros job' Hjob'. rewrite isRunning_insert. case_decide as E.
    + exfalso. apply list_elem_of_lookup in Hjob' as [j Hj].
      rewrite list_lookup_delete in Hj.
      assert (DN.jobInstanceId <$> DN.jobs srv !! i = Some (DN.jobInstanceId job))
        as H1 by (by rewrite Hi).
      assert (DN.jobInstanceId <$>
                DN.jobs srv !! (if decide (j < i) then j else S j)
              = Some (DN.jobInstanceId job)) as H2 by (by rewrite Hj, E).
      rewrite <- list_lookup_fmap in H1, H2.
      pose proof (NoDup_lookup _ _ _ _ Hnd H1 H2) as Hij. case_decide; lia.
    + apply Hrun. by eapply list_elem_of_delete_inv.
Qed.

Lemma exclusive_cleanup (now maxAge : Z) (srv : DN.Server) :
  DN.exclusive srv → DN.exclusive (DN.cleanup now maxAge srv).
Proof.
  intros [Hnd Hrun]. split; [done|]. simpl. intros job Hjob.
  specialize (Hrun job Hjob). unfold DN.isRunning in *. simpl.
  destruct (DN.activeInstances srv !! DN.jobInstanceId job) as [task|] eqn:Ht; [|done].
  erewrite map_lookup_filter_Some_2; [done|done|]. simpl.
  apply bool_decide_eq_true_1 in Hrun. unfold DN.expired. rewrite Hrun. done.
Qed.

Lemma reachable_exclusive (containers : gmap string DN.Container) (srv : DN.Server) :
  DN.reachable containers srv → DN.exclusive srv.
Proof.
  unfold DN.reachable. intros Hr.
  apply (rtc_ind_r (R := DN.step containers) DN.exclusive DN.initial); [| |exact Hr].
  - split; [constructor|]. intros job Hjob. by apply elem_of_nil in Hjob.
  - intros mid srv' _ Hstep IH. destruct Hstep;
      [by apply exclusive_execute|by apply exclusive_settle|by apply exclusive_cleanup].
Qed.

(** ** The scheduler of clean-cpux-server.js *)

Section CleanScheduler.
Context {World : Type}.
Variable post : World → string → Wire.Body → World * option Wire.Reply.
Variable CPUX_CONTEXT_ID : string.

Local Abbreviation visit := (Clean.visit post CPUX_CONTEXT_ID).
Local Abbreviation executeStep := (Clean.executeStep post CPUX_CONTEXT_ID).
Local Abbreviation executeSequencePass := (Clean.executeSequencePass post CPUX_CONTEXT_ID).
Local Abbreviation reply := (dispatchReply post CPUX_CONTEXT_ID).
Local Abbreviation ready := (instanceReady CPUX_CONTEXT_ID).
Local Abbreviation later := (Clean.later post).

Lemma later_trans (w1 w2 w3 : World) : later w1 w2 → later w2 w3 → later w1 w3.
Proof. intros H12 H23. induction H23; [done|]. constructor. auto. Qed.

Lemma later_one (w : World) (url : string) (body : Wire.Body) :
  later w (post w url body).1.
Proof. constructor. constructor. Qed.

Lemma advances_refl (st : Clean.Cpux) : advances st st.
Proof. repeat split; auto. Qed.

Lemma advances_trans (st1 st2 st3 : Clean.Cpux) :
  advances st1 st2 → advances st2 st3 → advances st1 st3.
Proof.
  intros (F1 & L1 & R1 & B1) (F2 & L2 & R2 & B2). repeat split.
  - congruence.
  - set_solver.
  - auto.
  - auto.
Qed.

(** [executeStep] by cases on the type of the step. *)
Lemma executeStep_object (st : Clean.Cpux) (w : World) (step : Clean.Step) :
  Clean.type step = "object" →
  executeStep st w step
  = (st,
     (post w (Clean.executeUrl step)
        (Wire.Execute (Clean.payloadOf CPUX_CONTEXT_ID (Clean.cpuxField st) step))).1,
     if reply st w step is Some _ then true else false).
Proof.
  intros Ht. unfold Clean.executeStep, Clean.executeObjectStep, dispatchReply.
  rewrite bool_decide_eq_true_2 by done.
  by destruct (post _ _ _) as [w' [r|]].
Qed.

Lemma executeStep_dn (st : Clean.Cpux) (w : World) (step : Clean.Step) :
  Clean.type step = "dn" →
  executeStep st w step
  = if bool_decide (ready st step) then
      if Clean.accepted (reply st w step) then
        (Clean.mkCpux (Clean.cpuxField st) (Clean.executionLog st)
           (<[Clean.instanceKey CPUX_CONTEXT_ID step := "busy"]> (Clean.memberStatus st)),
         (post w (Clean.executeUrl step)
            (Wire.Execute (Clean.payloadOf CPUX_CONTEXT_ID (Clean.cpuxField st) step))).1,
         true)
      else
        (st,
         (post w (Clean.executeUrl step)
            (Wire.Execute (Clean.payloadOf CPUX_CONTEXT_ID (Clean.cpuxField st) step))).1,
         false)
    else (st, w, false).
Proof.
  intros Ht. unfold Clean.executeStep, Clean.executeDNStep, dispatchReply, instanceReady.
  rewrite Ht. rewrite (bool_decide_eq_false_2 ("dn" = "object")) by done.
  rewrite (bool_decide_eq_true_2 ("dn" = "dn")) by done.
  unfold Clean.payloadOf at 1 2 3. simpl. rewrite Ht.
  rewrite (bool_decide_eq_true_2 ("dn" = "dn")) by done. simpl.
  destruct (decide (Clean.memberStatus st !! Clean.instanceKey CPUX_CONTEXT_ID step
                    = Some "ready")) as [E|E].
  - rewrite bool_decide_eq_false_2 by (by intros ?).
    rewrite bool_decide_eq_true_2 by done.
    unfold Clean.payloadOf. rewrite Ht.
    rewrite (bool_decide_eq_true_2 ("dn" = "dn")) by done.
    destruct (post _ _ _) as [w' r]. simpl. by destruct (Clean.accepted r).
  - rewrite bool_decide_eq_true_2 by done. by rewrite bool_decide_eq_false_2.
Qed.

Lemma executeStep_other (st : Clean.Cpux) (w : World) (step : Clean.Step) :
  Clean.type step ≠ "object" → Clean.type step ≠ "dn" →
  executeStep st w step = (st, w, bool_decide (Clean.type step = "final")).
Proof.
  intros H1 H2. unfold Clean.executeStep.
  rewrite !bool_decide_eq_false_2 by done.
  by case_bool_decide.
Qed.

(** One visit of the pass, by cases: either nothing is left to do for the
    step and the orchestrator stays as it is, or the step is executed, its
    key is logged and one activation is counted. *)
Lemma visit_inv (st st' : Clean.Cpux) (w w' : World) (n n' : nat) (step : Clean.Step) :
  visit (st, w, n) step = (st', w', n') →
  (settled post CPUX_CONTEXT_ID st w step ∧ st' = st ∧ n' = n ∧ later w w') ∨
  ((Clean.stepKey step ∉ Clean.executionLog st) ∧
   Clean.fieldMatch (Clean.cpuxField st) (Clean.designTimeSignal step) = true ∧
   n' = S n ∧ later w w' ∧
   Clean.cpuxField st' = Clean.cpuxField st ∧
   Clean.executionLog st' = {[Clean.stepKey step]} ∪ Clean.executionLog st ∧
   ((Clean.type step = "dn" ∧ ready st step ∧ Clean.accepted (reply st w step) = true ∧
     Clean.memberStatus st'
     = <[Clean.instanceKey CPUX_CONTEXT_ID step := "busy"]> (Clean.memberStatus st)) ∨
    (Clean.type step ≠ "dn" ∧ Clean.memberStatus st' = Clean.memberStatus st ∧
     ((Clean.type step = "object" ∧ is_Some (reply st w step)) ∨
      Clean.type step = "final")))).
Proof.
  unfold Clean.visit.
  case_bool_decide as Hlog.
  { intros ?; simplify_eq. left. repeat split; [by left|constructor]. }
  destruct (Clean.fieldMatch _ _) eqn:Hm; simpl.
  2:{ intros ?; simplify_eq. left. repeat split; [by right; left|constructor]. }
  destruct (decide (Clean.type step = "object")) as [Ho|Ho].
  { rewrite (executeStep_object _ _ _ Ho).
    destruct (reply st w step) as [r|] eqn:Hr.
    - intros ?; simplify_eq. right. repeat split; try done; [apply later_one|].
      right. split; [by rewrite Ho|]. split; [done|]. left. by split.
    - intros ?; simplify_eq. left. repeat split; [|apply later_one].
      right. right. left. done. }
  destruct (decide (Clean.type step = "dn")) as [Hd|Hd].
  { rewrite (executeStep_dn _ _ _ Hd).
    case_bool_decide as Hrdy.
    - destruct (Clean.accepted (reply st w step)) eqn:Ha.
      + intros ?; simplify_eq. right. repeat split; try done; [apply later_one|].
        left. done.
      + intros ?; simplify_eq. left. repeat split; [|apply later_one].
        right. right. right. left. split; [done|]. by right.
    - intros ?; simplify_eq. left. repeat split; [|constructor].
      right. right. right. left. split; [done|]. by left. }
  rewrite (executeStep_other _ _ _ Ho Hd).
  case_bool_decide as Hf.
  - intros ?; simplify_eq. right. repeat split; try done; [constructor|].
    right. split; [done|]. split; [done|]. by right.
  - intros ?; simplify_eq. left. repeat split; [|constructor].
    right. right. right. right. done.
Qed.

Lemma visit_advances (st st' : Clean.Cpux) (w w' : World) (n n' : nat) (step : Clean.Step) :
  visit (st, w, n) step = (st', w', n') → advances st st' ∧ later w w'.
Proof.
  intros H. apply visit_inv in H as [(_ & -> & _ & Hl)|(_ & _ & _ & Hl & Hf & Hlog & Hms)].
  - split; [apply advances_refl|done].
  - split; [|done]. split; [done|]. split; [rewrite Hlog; apply union_subseteq_r|].
    destruct Hms as [(_ & _ & _ & ->)|(_ & -> & _)]; [|done].
    split; intros id.
    + destruct (decide (Clean.instanceKey CPUX_CONTEXT_ID step = id)) as [->|E].
      * by rewrite lookup_insert_eq.
      * by rewrite lookup_insert_ne.
    + destruct (decide (Clean.instanceKey CPUX_CONTEXT_ID step = id)) as [->|E].
      * by rewrite lookup_insert_eq.
      * by rewrite lookup_insert_ne.
Qed.

(** A step for which nothing is left to do is passed over. *)
Lemma visit_settled (st : Clean.Cpux) (w : World) (n : nat) (step : Clean.Step) :
  settled post CPUX_CONTEXT_ID st w step →
  ∃ w', visit (st, w, n) step = (st, w', n) ∧ later w w'.
Proof.
  intros Hs. destruct (visit (st, w, n) step) as [[st' w'] n'] eqn:Hv.
  apply visit_inv in Hv as [(_ & -> & -> & Hl)|(Hlog & Hm & _ & _ & _ & _ & Hms)].
  { by exists w'. }
  exfalso. destruct Hs as [?|[?|[[Ho Hr]|[[Hd Hr]|(Ho & Hd & Hf)]]]]; [done|congruence|..].
  - destruct Hms as [(? & _)|(_ & _ & [[_ [r Hsome]]|?])]; congruence.
  - destruct Hms as [(_ & Hrdy & Ha & _)|(Hnd & _)]; [|done].
    destruct Hr; [done|congruence].
  - destruct Hms as [(? & _)|(_ & _ & [[? _]|?])]; done.
Qed.

(** *** Whole passes *)

Lemma pass_cons (step : Clean.Step) (sequence : list Clean.Step)
    (acc : Clean.Cpux * World * nat) :
  foldl visit acc (step :: sequence) = foldl visit (visit acc step) sequence.
Proof. done. Qed.

Lemma pass_advances (sequence : list Clean.Step) (st st' : Clean.Cpux) (w w' : World)
    (n n' : nat) :
  foldl visit (st, w, n) sequence = (st', w', n') → advances st st' ∧ later w w'.
Proof.
  revert st w n. induction sequence as [|step rest IH]; intros st w n.
  - intros ?; simplify_eq/=. split; [apply advances_refl|constructor].
  - rewrite pass_cons. destruct (visit (st, w, n) step) as [[st1 w1] n1] eqn:Hv.
    intros Hrest. apply visit_advances in Hv as [Ha Hl]. apply IH in Hrest as [Ha' Hl'].
    split; [by eapply advances_trans|by eapply later_trans].
Qed.

(** A key that enters the log during a pass is the key of a step of the
    sequence whose precondition matched; if that step is of type [dn], its
    instance was ready before the pass and is busy after it. *)
Lemma pass_logged (sequence : list Clean.Step) (st st' : Clean.Cpux) (w w' : World)
    (n n' : nat) (key : string) :
  foldl visit (st, w, n) sequence = (st', w', n') →
  key ∈ Clean.executionLog st' →
  key ∈ Clean.executionLog st ∨
  ∃ step, step ∈ sequence ∧ key = Clean.stepKey step ∧
    Clean.fieldMatch (Clean.cpuxField st) (Clean.designTimeSignal step) = true ∧
    (Clean.type step = "dn" →
       ready st step ∧
       Clean.memberStatus st' !! Clean.instanceKey CPUX_CONTEXT_ID step = Some "busy").
Proof.
  revert st w n. induction sequence as [|step rest IH]; intros st w n.
  - intros ?; simplify_eq/=. by left.
  - rewrite pass_cons. destruct (visit (st, w, n) step) as [[st1 w1] n1] eqn:Hv.
    intros Hrest Hkey.
    pose proof (pass_advances _ _ _ _ _ _ _ Hrest) as [(_ & _ & _ & Hbusy) _].
    pose proof (visit_advances _ _ _ _ _ _ _ Hv) as [(Hfield & _ & Hrdy & _) _].
    destruct (IH _ _ _ Hrest Hkey) as [Hin|(s' & Hs' & -> & Hm & Hdn)].
    + apply visit_inv in Hv
        as [(_ & -> & _ & _)|(_ & Hm & _ & _ & _ & Hlog & Hms)]; [by left|].
      rewrite Hlog in Hin. apply elem_of_union in Hin as [Hin|Hin]; [|by left].
      apply elem_of_singleton in Hin. subst key. right.
      exists step. split; [by left|]. split; [done|]. split; [done|].
      intros Hd. destruct Hms as [(_ & Hr & _ & Hms)|(? & _)]; [|done].
      split; [done|]. apply Hbusy. rewrite Hms. by rewrite lookup_insert_eq.
    + right. exists s'. split; [by right|]. split; [done|].
      split; [by rewrite <- Hfield|].
      intros Hd. destruct (Hdn Hd) as [Hr Hb]. split; [by apply Hrdy|done].
Qed.

(** An instance that a pass turns busy is the instance of a [dn] step of
    the sequence that was ready before the pass and whose key the pass logs. *)
Lemma pass_busy (sequence : list Clean.Step) (st st' : Clean.Cpux) (w w' : World)
    (n n' : nat) (id : string) :
  foldl visit (st, w, n) sequence = (st', w', n') →
  Clean.memberStatus st' !! id = Some "busy" →
  Clean.memberStatus st !! id ≠ Some "busy" →
  ∃ step, step ∈ sequence ∧ Clean.type step = "dn" ∧
    id = Clean.instanceKey CPUX_CONTEXT_ID step ∧ ready st step ∧
    Clean.stepKey step ∈ Clean.executionLog st'.
Proof.
  revert st w n. induction sequence as [|step rest IH]; intros st w n.
  - intros ?; simplify_eq/=. done.
  - rewrite pass_cons. destruct (visit (st, w, n) step) as [[st1 w1] n1] eqn:Hv.
    intros Hrest Hb Hnb.
    pose proof (pass_advances _ _ _ _ _ _ _ Hrest) as [(_ & Hsub & _ & _) _].
    pose proof (visit_advances _ _ _ _ _ _ _ Hv) as [(_ & _ & Hrdy & _) _].
    destruct (decide (Clean.memberStatus st1 !! id = Some "busy")) as [Hb1|Hb1].
    + apply visit_inv in Hv
        as [(_ & -> & _ & _)|(_ & _ & _ & _ & _ & Hlog & Hms)]; [done|].
      destruct Hms as [(Hd & Hr & _ & Hms)|(_ & Hms & _)]; [|congruence].
      rewrite Hms in Hb1.
      destruct (decide (Clean.instanceKey CPUX_CONTEXT_ID step = id)) as [<-|E].
      * exists step. split; [by left|]. repeat split; try done.
        apply Hsub. rewrite Hlog. apply elem_of_union_l. by apply elem_of_singleton.
      * by rewrite lookup_insert_ne in Hb1.
    + destruct (IH _ _ _ Hrest Hb Hb1) as (s' & Hs' & Hd & -> & Hr & Hk).
      exists s'. split; [by right|]. repeat split; try done. by apply Hrdy.
Qed.

(** A [dn] step whose instance is not ready is passed over without a call. *)
Lemma visit_skips_unready (st : Clean.Cpux) (w : World) (n : nat) (step : Clean.Step) :
  Clean.type step = "dn" → ¬ ready st step → visit (st, w, n) step = (st, w, n).
Proof.
  intros Hdn Hnr. unfold Clean.visit. case_bool_decide; [done|].
  destruct (Clean.fieldMatch _ _); [|done]. simpl.
  rewrite (executeStep_dn _ _ _ Hdn). by rewrite bool_decide_eq_false_2.
Qed.

(** A visit turns an instance busy only by the accepted dispatch of a [dn]
    step whose instance was ready. *)
Lemma visit_busy (st : Clean.Cpux) (w : World) (n : nat) (step : Clean.Step) (id : string) :
  Clean.memberStatus (visit (st, w, n) step).1.1 !! id = Some "busy" →
  Clean.memberStatus st !! id ≠ Some "busy" →
  Clean.type step = "dn" ∧ id = Clean.instanceKey CPUX_CONTEXT_ID step ∧
  ready st step ∧ Clean.accepted (reply st w step) = true.
Proof.
  destruct (visit (st, w, n) step) as [[st' w'] n'] eqn:Hv. simpl. intros Hb Hnb.
  apply visit_inv in Hv
    as [(_ & -> & _ & _)|(_ & _ & _ & _ & _ & _ & Hms)]; [done|].
  destruct Hms as [(Hd & Hr & Ha & Hms)|(_ & Hms & _)]; [|congruence].
  rewrite Hms in Hb.
  destruct (decide (Clean.instanceKey CPUX_CONTEXT_ID step = id)) as [<-|E]; [done|].
  by rewrite lookup_insert_ne in Hb.
Qed.

(** *** When a key enters the log *)

Lemma visit_logs_dn (st : Clean.Cpux) (w : World) (n : nat) (step : Clean.Step) :
  Clean.type step = "dn" →
  (Clean.stepKey step ∈ Clean.executionLog (visit (st, w, n) step).1.1 ↔
     Clean.stepKey step ∈ Clean.executionLog st ∨
     dispatchAccepted post CPUX_CONTEXT_ID st w step).
Proof.
  intros Hdn. destruct (visit (st, w, n) step) as [[st' w'] n'] eqn:Hv. simpl.
  pose proof (visit_advances _ _ _ _ _ _ _ Hv) as [(_ & Hsub & _ & _) _].
  apply visit_inv in Hv
    as [(Hs & -> & _ & _)|(Hnew & Hm & _ & _ & _ & Hlog & Hms)].
  - split; [by left|]. intros [?|(Hm & Hr & Ha)]; [done|].
    destruct Hs as [?|[?|[[Ho _]|[[_ [Hr'|Ha']]|(_ & ? & _)]]]]; try done; congruence.
  - split.
    + intros _. right. destruct Hms as [(_ & Hr & Ha & _)|(? & _)]; [|done]. done.
    + intros _. rewrite Hlog. apply elem_of_union_l. by apply elem_of_singleton.
Qed.

Lemma visit_marks_busy (st : Clean.Cpux) (w : World) (n : nat) (step : Clean.Step) :
  Clean.type step = "dn" →
  (Clean.stepKey step ∉ Clean.executionLog st) →
  dispatchAccepted post CPUX_CONTEXT_ID st w step →
  Clean.memberStatus (visit (st, w, n) step).1.1
    !! Clean.instanceKey CPUX_CONTEXT_ID step = Some "busy".
Proof.
  intros Hdn Hnew (Hm & Hr & Ha).
  destruct (visit (st, w, n) step) as [[st' w'] n'] eqn:Hv. simpl.
  apply visit_inv in Hv
    as [(Hs & -> & _ & _)|(_ & _ & _ & _ & _ & _ & Hms)].
  - destruct Hs as [?|[?|[[Ho _]|[[_ [Hr'|Ha']]|(_ & ? & _)]]]]; try done; congruence.
  - destruct Hms as [(_ & _ & _ & ->)|(? & _)]; [|done]. by rewrite lookup_insert_eq.
Qed.

Lemma intake_wrong_context (now : string) (sequence : list Clean.Step)
    (st : Clean.Cpux) (w : World) (req : Emission.Message) :
  Emission.cpuxId req ≠ CPUX_CONTEXT_ID →
  Clean.intake post CPUX_CONTEXT_ID now sequence st w req = (st, w, Clean.WrongContext).
Proof. intros H. unfold Clean.intake. by rewrite bool_decide_eq_true_2. Qed.

Lemma intake_right_context (now : string) (sequence : list Clean.Step)
    (st : Clean.Cpux) (w : World) (req : Emission.Message) :
  Emission.cpuxId req = CPUX_CONTEXT_ID →
  ∃ sourceType instanceId,
    Clean.intake post CPUX_CONTEXT_ID now sequence st w req
    = ((executeSequencePass sequence (Clean.absorbEmission now st req) w).1.1,
       (executeSequencePass sequence (Clean.absorbEmission now st req) w).1.2,
       Clean.Received (length (Emission.signal req))
         (executeSequencePass sequence (Clean.absorbEmission now st req) w).2
         sourceType instanceId).
Proof.
  intros H. unfold Clean.intake. rewrite bool_decide_eq_false_2 by (by intros ?).
  destruct (executeSequencePass _ _ _) as [[st' w'] n']. simpl. by eexists _, _.
Qed.

(** C3 (as amended).  In clean-cpux-server.js the key of a [dn] step enters
    the execution log at dispatch time: a visit of the pass leaves the key in
    the log exactly when it was there already or the field matches, the
    instance is ready and the DN answers [accepted]; that visit also marks the
    instance busy.  The intake handler logs nothing by itself: a key that enters
    the log while an emission is taken in belongs to a step whose precondition
    matches the field after absorption and that the triggered pass executed
    (for a [dn] step, dispatched: its instance is busy afterwards). *)
Theorem dn_step_logged_at_dispatch (st : Clean.Cpux) (w : World) (n : nat)
    (step : Clean.Step) (Hdn : Clean.type step = "dn") :
  (Clean.stepKey step ∈ Clean.executionLog (visit (st, w, n) step).1.1 ↔
     Clean.stepKey step ∈ Clean.executionLog st ∨
     dispatchAccepted post CPUX_CONTEXT_ID st w step) ∧
  ((Clean.stepKey step ∉ Clean.executionLog st) →
   dispatchAccepted post CPUX_CONTEXT_ID st w step →
   Clean.memberStatus (visit (st, w, n) step).1.1
     !! Clean.instanceKey CPUX_CONTEXT_ID step = Some "busy") ∧
  (∀ (now : string) (sequence : list Clean.Step) (req : Emission.Message) (key : string),
     key ∈ Clean.executionLog
             (Clean.intake post CPUX_CONTEXT_ID now sequence st w req).1.1 →
     key ∈ Clean.executionLog st ∨
     ∃ s, s ∈ sequence ∧ key = Clean.stepKey s ∧
       Clean.fieldMatch (Clean.fieldAbsorb now (Emission.signal req) (Clean.cpuxField st))
         (Clean.designTimeSignal s) = true ∧
       (Clean.type s = "dn" →
          Clean.memberStatus (Clean.intake post CPUX_CONTEXT_ID now sequence st w req).1.1
            !! Clean.instanceKey CPUX_CONTEXT_ID s = Some "busy")).
Proof.
  split; [by apply visit_logs_dn|]. split; [by apply visit_marks_busy|].
  intros now sequence req key.
  destruct (decide (Emission.cpuxId req = CPUX_CONTEXT_ID)) as [E|E].
  - destruct (intake_right_context now sequence st w req E) as (? & ? & ->). simpl.
    destruct (executeSequencePass _ _ _) as [[st' w'] n'] eqn:Hp. simpl.
    intros Hkey. destruct (pass_logged _ _ _ _ _ _ _ _ Hp Hkey)
      as [?|(s' & Hs' & -> & Hm & Hd)]; [by left|].
    right. exists s'. repeat split; try done. intros Hdn'. by apply Hd.
  - rewrite (intake_wrong_context now sequence st w req E). by left.
Qed.


(** *** Idempotence of passes *)

Section Persistence.
Hypothesis Hpersist : refusalsPersist post.

Lemma settled_persist (st st' : Clean.Cpux) (w w' : World) (step : Clean.Step) :
  settled post CPUX_CONTEXT_ID st w step → advances st st' → later w w' →
  settled post CPUX_CONTEXT_ID st' w' step.
Proof.
  intros Hs (Hf & Hsub & Hrdy & _) Hl. unfold settled, dispatchReply in *. rewrite Hf.
  destruct Hs as [?|[?|[[Ho Hr]|[[Hd Hr]|?]]]].
  - left. by apply Hsub.
  - right. by left.
  - right. right. left. split; [done|]. by apply (Hpersist w w').
  - right. right. right. left. split; [done|]. destruct Hr as [Hr|Hr].
    + left. intros Hr'. apply Hr. by apply Hrdy.
    + right. destruct (Clean.accepted (post w' _ _).2) eqn:Ha; [|done].
      apply (Hpersist w w') in Ha; [congruence|done].
  - by do 4 right.
Qed.

Lemma visit_leaves_settled (st st' : Clean.Cpux) (w w' : World) (n n' : nat)
    (step : Clean.Step) :
  visit (st, w, n) step = (st', w', n') → settled post CPUX_CONTEXT_ID st' w' step.
Proof.
  intros Hv. apply visit_inv in Hv
    as [(Hs & -> & _ & Hl)|(_ & _ & _ & _ & _ & Hlog & _)].
  - eapply settled_persist; [done|apply advances_refl|done].
  - left. rewrite Hlog. apply elem_of_union_l. by apply elem_of_singleton.
Qed.

Lemma pass_leaves_settled (sequence : list Clean.Step) (st st' : Clean.Cpux)
    (w w' : World) (n n' : nat) :
  foldl visit (st, w, n) sequence = (st', w', n') →
  ∀ step, step ∈ sequence → settled post CPUX_CONTEXT_ID st' w' step.
Proof.
  revert st w n. induction sequence as [|s rest IH]; intros st w n.
  - intros _ step Hstep. by apply elem_of_nil in Hstep.
  - rewrite pass_cons. destruct (visit (st, w, n) s) as [[st1 w1] n1] eqn:Hv.
    intros Hrest step Hstep. apply elem_of_cons in Hstep as [->|Hstep].
    + apply pass_advances in Hrest as [Ha Hl].
      eapply settled_persist; [by eapply visit_leaves_settled|done|done].
    + by eapply IH.
Qed.

Lemma pass_idle (sequence : list Clean.Step) (st : Clean.Cpux) (w : World) (n : nat) :
  (∀ step, step ∈ sequence → settled post CPUX_CONTEXT_ID st w step) →
  ∃ w', foldl visit (st, w, n) sequence = (st, w', n) ∧ later w w'.
Proof.
  revert w. induction sequence as [|s rest IH]; intros w Hall.
  - exists w. split; [done|constructor].
  - destruct (visit_settled st w n s) as (w1 & Hv & Hl1); [apply Hall; by left|].
    destruct (IH w1) as (w2 & Hrest & Hl2).
    { intros step Hstep. eapply settled_persist;
        [apply Hall; by right|apply advances_refl|done]. }
    exists w2. split; [by rewrite pass_cons, Hv|by eapply later_trans].
Qed.


End Persistence.

End CleanScheduler.

(** ** One dispatch in flight per instance *)

(** On the DN server an instance starts running only by an accepted
    [/execute] request that found it not running. *)
Lemma dn_step_running (containers : gmap string DN.Container) (srv srv' : DN.Server)
    (id : string) :
  DN.step containers srv srv' →
  DN.isRunning srv' id = true → DN.isRunning srv id = false →
  ∃ now req, srv' = (DN.execute containers now srv req).1 ∧ id = DN.instanceIdOf req ∧
    Wire.status (DN.execute containers now srv req).2 = Some "accepted".
Proof.
  intros Hstep Hr' Hr. destruct Hstep as [now srv req|now i o srv|now maxAge srv].
  - exists now, req. split; [done|]. revert Hr'. unfold DN.execute.
    destruct (containers !! Wire.target req) as [container|]; [|simpl; congruence].
    destruct (DN.isRunning srv (DN.instanceIdOf req)); [simpl; congruence|].
    destruct (DN.canProcess _ _); [|simpl; congruence]. simpl.
    rewrite isRunning_insert. case_decide; [done|congruence].
  - exfalso. revert Hr'. unfold DN.settle. destruct (DN.jobs srv !! i) as [job|]; [|congruence].
    rewrite isRunning_insert. case_decide; [|congruence].
    rewrite bool_decide_eq_false_2; [done|]. apply settledTask_not_running.
  - exfalso. revert Hr' Hr. unfold DN.isRunning. simpl.
    destruct (filter _ _ !! id) as [task|] eqn:Hf; [|done].
    apply map_lookup_filter_Some_1_1 in Hf. rewrite Hf. congruence.
Qed.

(** C5.  On the DN server a request for an instance that is recorded as
    running is answered [rejected] / [instance_busy] and changes nothing (no
    handler is started); in every state the server can reach, the started
    handlers have pairwise distinct instance ids and each of their instances is
    recorded as running; an instance starts running only by an accepted request
    that found it not running.  In the orchestrator of clean-cpux-server.js a
    [dn] step whose instance is not recorded as ready is passed over without
    any call, and an instance becomes busy, in one visit or over a whole pass,
    only by the accepted dispatch of a [dn] step whose instance was ready. *)
Theorem one_dispatch_per_instance :
  (∀ (containers : gmap string DN.Container) (now : Z) (srv : DN.Server)
     (req : Wire.Payload) (container : DN.Container),
     containers !! Wire.target req = Some container →
     DN.isRunning srv (DN.instanceIdOf req) = true →
     DN.execute containers now srv req
     = (srv, Wire.jsonReply 200 "rejected" (Some "instance_busy") None
               (Some (DN.instanceIdOf req)))) ∧
  (∀ (containers : gmap string DN.Container) (srv : DN.Server),
     DN.reachable containers srv →
     NoDup (DN.jobInstanceId <$> DN.jobs srv) ∧
     ∀ job, job ∈ DN.jobs srv → DN.isRunning srv (DN.jobInstanceId job) = true) ∧
  (∀ (containers : gmap string DN.Container) (srv srv' : DN.Server) (id : string),
     DN.step containers srv srv' →
     DN.isRunning srv' id = true → DN.isRunning srv id = false →
     ∃ now req, srv' = (DN.execute containers now srv req).1 ∧ id = DN.instanceIdOf req ∧
       Wire.status (DN.execute containers now srv req).2 = Some "accepted") ∧
  (∀ (World : Type) (post : World → string → Wire.Body → World * option Wire.Reply)
     (ctx : string) (st : Clean.Cpux) (w : World) (n : nat) (step : Clean.Step),
     Clean.type step = "dn" → ¬ instanceReady ctx st step →
     Clean.visit post ctx (st, w, n) step = (st, w, n)) ∧
  (∀ (World : Type) (post : World → string → Wire.Body → World * option Wire.Reply)
     (ctx : string) (st : Clean.Cpux) (w : World) (n : nat) (step : Clean.Step)
     (id : string),
     Clean.memberStatus (Clean.visit post ctx (st, w, n) step).1.1 !! id = Some "busy" →
     Clean.memberStatus st !! id ≠ Some "busy" →
     Clean.type step = "dn" ∧ id = Clean.instanceKey ctx step ∧
     instanceReady ctx st step ∧
     Clean.accepted (dispatchReply post ctx st w step) = true) ∧
  (∀ (World : Type) (post : World → string → Wire.Body → World * option Wire.Reply)
     (ctx : string) (sequence : list Clean.Step) (st : Clean.Cpux) (w : World)
     (id : string),
     Clean.memberStatus (Clean.executeSequencePass post ctx sequence st w).1.1 !! id
       = Some "busy" →
     Clean.memberStatus st !! id ≠ Some "busy" →
     ∃ step, step ∈ sequence ∧ Clean.type step = "dn" ∧
       id = Clean.instanceKey ctx step ∧ instanceReady ctx st step ∧
       Clean.stepKey step
         ∈ Clean.executionLog (Clean.executeSequencePass post ctx sequence st w).1.1).
Proof.
  split; [apply execute_busy|]. split; [apply reachable_exclusive|].
  split; [apply dn_step_running|]. split; [intros; by apply visit_skips_unready|].
  split; [intros; by eapply visit_busy|].
  intros World post ctx sequence st w id.
  destruct (Clean.executeSequencePass post ctx sequence st w) as [[st' w'] n'] eqn:Hp.
  simpl. by eapply pass_busy.
Qed.

(** ** The deployed servers *)

Lemma execute_code (containers : gmap string DN.Container) (now : Z)
    (srv : DN.Server) (req : Wire.Payload) :
  Wire.axios (DN.execute containers now srv req).2 = None ↔
  containers !! Wire.target req = None.
Proof.
  unfold DN.execute. destruct (containers !! Wire.target req) as [container|]; [|done].
  destruct (DN.isRunning _ _); [done|]. by destruct (DN.canProcess _ _).
Qed.

Lemma execute_accepted (containers : gmap string DN.Container) (now : Z)
    (srv : DN.Server) (req : Wire.Payload) :
  Clean.accepted (Wire.axios (DN.execute containers now srv req).2) = true ↔
  ∃ container, containers !! Wire.target req = Some container ∧
    DN.isRunning srv (DN.instanceIdOf req) = false ∧
    DN.canProcess (DN.valve container) (Wire.signal req) = true.
Proof.
  unfold DN.execute. destruct (containers !! Wire.target req) as [container|].
  - destruct (DN.isRunning _ _).
    + split; [done|]. by intros (? & _ & ? & _).
    + destruct (DN.canProcess _ _) eqn:Hv.
      * split; [|done]. intros _. by exists container.
      * split; [done|]. intros (c & [= <-] & _ & ?). congruence.
  - split; [done|]. by intros (? & ? & _).
Qed.

Lemma execute_keeps_running (containers : gmap string DN.Container) (now : Z)
    (srv : DN.Server) (req : Wire.Payload) (id : string) :
  DN.isRunning srv id = true → DN.isRunning (DN.execute containers now srv req).1 id = true.
Proof.
  intros Hr. unfold DN.execute. destruct (containers !! Wire.target req); [|done].
  destruct (DN.isRunning srv (DN.instanceIdOf req)); [done|].
  destruct (DN.canProcess _ _); [|done]. simpl. rewrite isRunning_insert.
  by case_decide.
Qed.

Lemma object_execute_reply (now : string) (st : FinalObjectServer.State)
    (req : Wire.Payload) :
  Wire.code (FinalObjectServer.execute now st req).2 = 200%nat ∧
  Wire.status (FinalObjectServer.execute now st req).2 ≠ Some "accepted".
Proof.
  unfold FinalObjectServer.execute. destruct (foldl _ _ _) as [triggers triggered].
  simpl. split; [done|]. by case_bool_decide.
Qed.

Lemma deployment_throw_static (w w' : Deployment.World) (url : string) (body : Wire.Body) :
  (Deployment.post w url body).2 = None → (Deployment.post w' url body).2 = None.
Proof.
  unfold Deployment.post. destruct body as [payload|]; [|done].
  case_bool_decide.
  { destruct (DN.execute _ _ (Deployment.dnServer w) _) as [srv r] eqn:E.
    destruct (DN.execute _ _ (Deployment.dnServer w') _) as [srv' r'] eqn:E'.
    simpl. intros Hn.
    pose proof (execute_code DN.DN_CONTAINERS (Deployment.clockMs w)
                  (Deployment.dnServer w) payload) as H1.
    pose proof (execute_code DN.DN_CONTAINERS (Deployment.clockMs w')
                  (Deployment.dnServer w') payload) as H2.
    rewrite E in H1. rewrite E' in H2. simpl in *. apply H2, H1, Hn. }
  case_bool_decide; [|done].
  destruct (FinalObjectServer.execute _ (Deployment.objectServer w) _) as [obj r] eqn:E.
  pose proof (object_execute_reply (Deployment.clockISO w) (Deployment.objectServer w)
                payload) as [Hc _].
  rewrite E in Hc. simpl in *. unfold Wire.axios. rewrite Hc. done.
Qed.

Lemma deployment_running_later (w w' : Deployment.World) (id : string) :
  Clean.later Deployment.post w w' →
  DN.isRunning (Deployment.dnServer w) id = true →
  DN.isRunning (Deployment.dnServer w') id = true.
Proof.
  intros Hl Hr. induction Hl as [|w w' url body Hl IH]; [done|].
  specialize (IH Hr). unfold Deployment.post. destruct body as [payload|]; [|done].
  case_bool_decide.
  { pose proof (execute_keeps_running DN.DN_CONTAINERS (Deployment.clockMs w')
                  (Deployment.dnServer w') payload id IH) as Hk.
    by destruct (DN.execute _ _ _ _). }
  case_bool_decide; [|done]. by destruct (FinalObjectServer.execute _ _ _).
Qed.

Lemma deployment_accept_earlier (w w' : Deployment.World) (url : string) (body : Wire.Body) :
  Clean.later Deployment.post w w' →
  Clean.accepted (Deployment.post w' url body).2 = true →
  Clean.accepted (Deployment.post w url body).2 = true.
Proof.
  intros Hl. unfold Deployment.post. destruct body as [payload|]; [|done].
  case_bool_decide.
  { pose proof (execute_accepted DN.DN_CONTAINERS (Deployment.clockMs w')
                  (Deployment.dnServer w') payload) as H'.
    pose proof (execute_accepted DN.DN_CONTAINERS (Deployment.clockMs w)
                  (Deployment.dnServer w) payload) as H0.
    destruct (DN.execute _ _ (Deployment.dnServer w') _) as [srv' r'].
    destruct (DN.execute _ _ (Deployment.dnServer w) _) as [srv r].
    simpl in *. intros Ha. apply H' in Ha as (c & Hc & Hidle & Hv).
    apply H0. exists c. split; [done|]. split; [|done].
    destruct (DN.isRunning (Deployment.dnServer w) _) eqn:Hr; [|done].
    apply (deployment_running_later _ _ _ Hl) in Hr. congruence. }
  case_bool_decide; [|done].
  pose proof (object_execute_reply (Deployment.clockISO w') (Deployment.objectServer w')
                payload) as [Hc Hs].
  destruct (FinalObjectServer.execute _ (Deployment.objectServer w') _) as [obj' r'].
  simpl in *. unfold Wire.axios. rewrite Hc. simpl. intros Ha.
  apply bool_decide_eq_true_1 in Ha. done.
Qed.

(** The DN server and the object O1 keep refusing what they refused. *)
Lemma deployment_refusalsPersist : refusalsPersist Deployment.post.
Proof.
  intros w w' url body Hl. split.
  - apply deployment_throw_static.
  - by apply deployment_accept_earlier.
Qed.

(** ** Concrete runs *)



Lemma dn_step_logged_at_dispatch_witness :
  Clean.stepKey Sample.fetchPersonalDetail
    ∈ Clean.executionLog
        (Clean.visit Deployment.post Deployment.contextId
           (Sample.readyToStart, Deployment.initial, 0%nat) Sample.fetchPersonalDetail).1.1 ∧
  Clean.memberStatus
    (Clean.visit Deployment.post Deployment.contextId
       (Sample.readyToStart, Deployment.initial, 0%nat) Sample.fetchPersonalDetail).1.1
    !! Clean.instanceKey Deployment.contextId Sample.fetchPersonalDetail = Some "busy".
Proof.
  destruct (dn_step_logged_at_dispatch Deployment.post Deployment.contextId
              Sample.readyToStart Deployment.initial 0 Sample.fetchPersonalDetail eq_refl)
    as (Hlog & Hbusy & _).
  assert (Hacc : dispatchAccepted Deployment.post Deployment.contextId
                   Sample.readyToStart Deployment.initial Sample.fetchPersonalDetail).
  { repeat split; vm_compute; reflexivity. }
  split.
  - apply Hlog. by right.
  - apply Hbusy; [|done]. simpl. apply not_elem_of_empty.
Defined.

(** C3 as stated fails on clean-cpux-server.js: after the first pass of
    [executeCPUX] over [CPUXDefinition] the key of step 2 is in the log, although
    DN1 has only accepted the work (its handler is still running), no emission
    has been taken in and the field holds no [personal_detail]. *)
Lemma dn_step_logged_before_emission :
  ("2:fetch_personal_detail:DN1" ∉ Clean.executionLog Sample.readyToStart) ∧
  "2:fetch_personal_detail:DN1" ∈ Clean.executionLog Deployment.afterStart.1.1 ∧
  DN.isRunning (Deployment.dnServer Deployment.afterStart.1.2) "CPUX_1_abc123:2:DN1"
    = true ∧
  (DN.jobInstanceId <$> DN.jobs (Deployment.dnServer Deployment.afterStart.1.2))
    = ["CPUX_1_abc123:2:DN1"] ∧
  Clean.cpuxField Deployment.afterStart.1.1 !! "personal_detail" = None.
Proof.
  split; [apply not_elem_of_empty|]. repeat split; vm_compute; reflexivity.
Qed.

(** ** Consumption of the precondition by [runCPUX] *)

Lemma consumeFromField_lookup (designTimeSignal : list Pulse) (field : gmap string Pulse)
    (n : string) :
  Enhanced.consumeFromField field designTimeSignal !! n
  = if decide (n ∈ name <$> designTimeSignal) then None else field !! n.
Proof.
  unfold Enhanced.consumeFromField. revert field.
  induction designTimeSignal as [|p rest IH]; intros field.
  - done.
  - rewrite fmap_cons. cbn [foldl]. rewrite IH.
    destruct (decide (n ∈ name <$> rest)) as [Hin|Hin].
    + rewrite decide_True; [done|]. by right.
    + destruct (decide (n = name p)) as [->|Hne].
      * rewrite decide_True by (by left). case_bool_decide as Hp.
        -- by rewrite lookup_delete_eq.
        -- destruct (field !! name p) eqn:Hf; [|done]. destruct Hp. by eexists.
      * rewrite decide_False.
        -- case_bool_decide; [|done]. by rewrite lookup_delete_ne.
        -- intros [?|?]%elem_of_cons; done.
Qed.

Section EnhancedScheduler.
Context {World : Type}.
Variable post : World → string → Wire.Body → World * option Wire.Reply.
Variable CPUX_CONTEXT_ID : string.
Variable cpuxId : string.

Local Abbreviation runStep := (Enhanced.runStep post CPUX_CONTEXT_ID cpuxId).

(** After a dispatch that went through, the field is the field before it
    without the precondition's pulses when [consumeSignal] is set, and the
    field before it otherwise; the precondition matched the field before. *)
Lemma runStep_activated (now : string) (st : Enhanced.Cpux) (w : World)
    (step : Enhanced.Step) :
  (runStep now st w step).2 = true →
  Enhanced.fieldMatch (Enhanced.cpuxField st) (Enhanced.designTimeSignal step) = true ∧
  Enhanced.cpuxField (runStep now st w step).1.1
  = if Enhanced.flagSet (Enhanced.consumeSignal step)
    then Enhanced.consumeFromField (Enhanced.cpuxField st) (Enhanced.designTimeSignal step)
    else Enhanced.cpuxField st.
Proof.
  unfold Enhanced.runStep. case_bool_decide; [done|].
  destruct (Enhanced.fieldMatch _ _); [|done]. cbn [negb].
  destruct (Enhanced.targetsDN step &&
            (bool_decide (_ = Some "busy") || bool_decide (_ = Some "stopped")));
    [done|].
  destruct (post w _ _) as [w1 [r|]]; [|done].
  destruct (Enhanced.targetsDN step); [|done].
  destruct (Enhanced.pollReady post cpuxId Enhanced.maxWait w1 step)
    as [w2 dnCompleted].
  done.
Qed.

(** C9.  After a dispatch of [runCPUX] that went through ([axios.post] did
    not throw): if [consumeSignal] is true, no pulse named in the step's
    precondition is left in the field and every other pulse is as before; if
    [consumeSignal] is not true, the field is as before, so the precondition
    still matches it. *)
Theorem runStep_consumption (now : string) (st : Enhanced.Cpux) (w : World)
    (step : Enhanced.Step)
    (Hdispatched : (runStep now st w step).2 = true) :
  (Enhanced.consumeSignal step = Some true →
     (∀ p, p ∈ Enhanced.designTimeSignal step →
           Enhanced.cpuxField (runStep now st w step).1.1 !! name p = None) ∧
     (∀ n, (n ∉ name <$> Enhanced.designTimeSignal step) →
           Enhanced.cpuxField (runStep now st w step).1.1 !! n
           = Enhanced.cpuxField st !! n)) ∧
  (Enhanced.consumeSignal step ≠ Some true →
     Enhanced.cpuxField (runStep now st w step).1.1 = Enhanced.cpuxField st ∧
     Enhanced.fieldMatch (Enhanced.cpuxField (runStep now st w step).1.1)
       (Enhanced.designTimeSignal step) = true).
Proof.
  destruct (runStep_activated now st w step Hdispatched) as [Hm ->]. split.
  - intros ->. simpl. split.
    + intros p Hp. rewrite consumeFromField_lookup. rewrite decide_True; [done|].
      by apply list_elem_of_fmap_2.
    + intros n Hn. rewrite consumeFromField_lookup. by rewrite decide_False.
  - intros Hc. assert (Enhanced.flagSet (Enhanced.consumeSignal step) = false) as ->.
    { by destruct (Enhanced.consumeSignal step) as [[]|]. }
    done.
Qed.

End EnhancedScheduler.

Lemma runStep_consumption_witness :
  Enhanced.cpuxField
    (Enhanced.runStep Deployment.post Deployment.contextId "make_license_cpux" "t1"
       Sample.withDetail Deployment.initial Sample.fetchDriverPoints).1.1
    !! "personal_detail" = None ∧
  Enhanced.cpuxField
    (Enhanced.runStep Deployment.post Deployment.contextId "make_license_cpux" "t1"
       Sample.withDetail Deployment.initial Sample.fetchDriverPoints).1.1
    !! "start_license_request"
  = Enhanced.cpuxField Sample.withDetail !! "start_license_request" ∧
  Enhanced.cpuxField
    (Enhanced.runStep Deployment.post Deployment.contextId "make_license_cpux" "t1"
       Sample.withDetail Deployment.initial Sample.fetchDriverPointsCopy).1.1
  = Enhanced.cpuxField Sample.withDetail.
Proof.
  assert (H1 : (Enhanced.runStep Deployment.post Deployment.contextId "make_license_cpux"
                  "t1" Sample.withDetail Deployment.initial Sample.fetchDriverPoints).2
               = true) by (vm_compute; reflexivity).
  assert (H2 : (Enhanced.runStep Deployment.post Deployment.contextId "make_license_cpux"
                  "t1" Sample.withDetail Deployment.initial Sample.fetchDriverPointsCopy).2
               = true) by (vm_compute; reflexivity).
  destruct (runStep_consumption Deployment.post Deployment.contextId "make_license_cpux"
              "t1" Sample.withDetail Deployment.initial Sample.fetchDriverPoints H1)
    as [Habsorb _].
  destruct (runStep_consumption Deployment.post Deployment.contextId "make_license_cpux"
              "t1" Sample.withDetail Deployment.initial Sample.fetchDriverPointsCopy H2)
    as [_ Hcopy].
  destruct (Habsorb eq_refl) as [Hgone Hkept].
  split; [|split].
  - apply (Hgone (requirement "personal_detail" "Y")). by left.
  - apply Hkept. simpl. intros Hin. apply list_elem_of_singleton in Hin. discriminate.
  - apply Hcopy. discriminate.
Defined.


(** The license flow up to the second pass: the emission of DN1 is taken in,
    its instance is ready again, and the pass it triggers executes steps 3
    and 4, the latter being sent to DN2. *)
Example license_flow_second_pass :
  Clean.executionLog
    (Clean.intake Deployment.post Deployment.contextId "t2" Clean.CPUXDefinition
       Deployment.afterStart.1.1 Deployment.afterStart.1.2 Sample.dn1Emission).1.1
  = list_to_set ["1:add_personal_detail:O1"; "2:fetch_personal_detail:DN1";
                 "3:reflect_personal_detail:O1"; "4:fetch_driver_points:DN2"] ∧
  Clean.memberStatus
    (Clean.intake Deployment.post Deployment.contextId "t2" Clean.CPUXDefinition
       Deployment.afterStart.1.1 Deployment.afterStart.1.2 Sample.dn1Emission).1.1
    !! "CPUX_1_abc123:2:DN1" = Some "ready" ∧
  Clean.memberStatus
    (Clean.intake Deployment.post Deployment.contextId "t2" Clean.CPUXDefinition
       Deployment.afterStart.1.1 Deployment.afterStart.1.2 Sample.dn1Emission).1.1
    !! "CPUX_1_abc123:4:DN2" = Some "busy" ∧
  (Clean.intake Deployment.post Deployment.contextId "t2" Clean.CPUXDefinition
     Deployment.afterStart.1.1 Deployment.afterStart.1.2 Sample.dn1Emission).2
  = Clean.Received 1 2 "dn" "CPUX_1_abc123:2:DN1".
Proof.
  repeat split; vm_compute; reflexivity.
Qed.

(** * Further properties of the code *)

#[local] Set Warnings "-clear-no-such-hyp".

(** ** Absorption, pulse by pulse *)

Lemma latestNamed_elem (n : string) (signal : list Pulse) (p : Pulse) :
  latestNamed n signal = Some p → p ∈ signal ∧ name p = n.
Proof.
  induction signal as [|q s IH]; simpl; [done|].
  destruct (latestNamed n s) as [p'|].
  - intros [= <-]. destruct IH as [? ?]; [done|]. split; [by right|done].
  - case_decide; [|done]. intros [= <-]. split; [by left|done].
Qed.

Lemma latestNamed_None (n : string) (signal : list Pulse) :
  latestNamed n signal = None ↔ n ∉ name <$> signal.
Proof.
  induction signal as [|q s IH].
  - split; [intros _; apply not_elem_of_nil|done].
  - rewrite fmap_cons, not_elem_of_cons. simpl. destruct (latestNamed n s) as [p'|].
    + split; [done|]. intros [_ Hs]. by apply IH in Hs.
    + case_decide as E.
      * split; [done|]. intros [Hq _]. by destruct Hq.
      * split; [|done]. intros _. split; [done|]. by apply IH.
Qed.

Lemma earliestNamed_elem (n : string) (signal : list Pulse) (p : Pulse) :
  earliestNamed n signal = Some p → p ∈ signal ∧ name p = n.
Proof.
  induction signal as [|q s IH]; simpl; [done|]. case_decide as E.
  - intros [= <-]. split; [by left|done].
  - intros Hs. destruct (IH Hs). split; [by right|done].
Qed.

Lemma latestNamed_TV (n : string) (signal : list Pulse) :
  latestTV n signal = TV <$> latestNamed n signal.
Proof.
  induction signal as [|q s IH]; simpl; [done|]. rewrite IH.
  destruct (latestNamed n s); simpl; [done|]. by case_decide.
Qed.


Lemma clean_fieldAbsorb_dom (now : string) (signal : list Pulse)
    (field : gmap string Pulse) :
  dom (Clean.fieldAbsorb now signal field) = dom field ∪ list_to_set (name <$> signal).
Proof.
  unfold Clean.fieldAbsorb. revert field.
  induction signal as [|q s IH]; intros field; simpl.
  - set_solver.
  - rewrite IH, dom_insert_L. set_solver.
Qed.

Lemma clean_fieldAbsorb_keyed (now : string) (signal : list Pulse)
    (field : gmap string Pulse) :
  keyedByName field → keyedByName (Clean.fieldAbsorb now signal field).
Proof.
  unfold Clean.fieldAbsorb. revert field.
  induction signal as [|q s IH]; intros field Hk; simpl; [done|].
  apply IH. intros key pulse. destruct (decide (name q = key)) as [<-|Hne].
  - rewrite lookup_insert_eq. by intros [= <-].
  - rewrite lookup_insert_ne by done. apply Hk.
Qed.


(** What [fieldAbsorb] of enhanced-cpux-server.js does to a pulse that is
    already there: name and timestamp stay, the truth value is the last one
    received, the payload is the old one merged with those received, in order. *)
Lemma enhanced_fieldAbsorb_existing (now : string) (consume : bool) (signal : list Pulse)
    (field : gmap string Pulse) (n : string) (q : Pulse) :
  field !! n = Some q →
  Enhanced.fieldAbsorb now signal field consume !! n
  = Some (mkPulse (name q) (default (TV q) (latestTV n signal))
            (foldl (Enhanced.mergeResponse consume) (response q)
               (response <$> filter (λ p, name p = n) signal))
            (timestamp q)).
Proof.
  unfold Enhanced.fieldAbsorb. revert field q.
  induction signal as [|p s IH]; intros field q Hq.
  - simpl. rewrite Hq. by destruct q.
  - cbn [foldl]. rewrite filter_cons. destruct (decide (name p = n)) as [E|E].
    + subst n. rewrite Hq. erewrite IH by apply lookup_insert_eq.
      cbn [latestTV name TV response timestamp fmap list_fmap foldl].
      rewrite decide_True by done. by destruct (latestTV (name p) s).
    + erewrite IH.
      2:{ destruct (field !! name p); rewrite lookup_insert_ne by done; exact Hq. }
      cbn [latestTV]. rewrite decide_False by done. by destruct (latestTV n s).
Qed.

Lemma mergeResponse_append (items : list JVal) (incoming : list JVal) :
  (∀ r, r ∈ incoming → r ≠ JUndefined) →
  foldl (Enhanced.mergeResponse false) (JArr items) incoming = JArr (items ++ incoming).
Proof.
  revert items. induction incoming as [|r rs IH]; intros items Hdef; simpl.
  - by rewrite app_nil_r.
  - assert (Enhanced.mergeResponse false (JArr items) r = JArr (items ++ [r])) as ->.
    { unfold Enhanced.mergeResponse. destruct r; try done.
      exfalso. by apply (Hdef JUndefined); [left|]. }
    rewrite IH; [by rewrite <- app_assoc|]. intros r' Hr'. apply Hdef. by right.
Qed.

Lemma mergeResponse_undefined (consume : bool) (existing : JVal) (incoming : list JVal) :
  (∀ r, r ∈ incoming → r = JUndefined) →
  foldl (Enhanced.mergeResponse consume) existing incoming = existing.
Proof.
  induction incoming as [|r rs IH]; intros Hu; simpl; [done|].
  rewrite (Hu r) by (by left). simpl. apply IH. intros r' Hr'. apply Hu. by right.
Qed.

Lemma filter_all {A : Type} (P : A → Prop) `{!∀ x, Decision (P x)} (l : list A) :
  (∀ x, x ∈ l → P x) → filter P l = l.
Proof.
  induction l as [|x l IH]; intros Hall; [done|]. rewrite filter_cons.
  rewrite decide_True by (apply Hall; by left). f_equal. apply IH.
  intros y Hy. apply Hall. by right.
Qed.

(** X3.  [fieldAbsorb] of enhanced-cpux-server.js with [consume = false]
    accumulates payloads: when the pulse is already there with a list of
    payloads, absorbing a signal of pulses of that name whose payloads are all
    defined appends those payloads to the list, in the order of the signal. *)
Theorem enhanced_fieldAbsorb_accumulates (now : string) (field : gmap string Pulse)
    (n : string) (q : Pulse) (items : list JVal) (signal : list Pulse)
    (Hpresent : field !! n = Some q)
    (Hlist : response q = JArr items)
    (Hsignal : ∀ p, p ∈ signal → name p = n ∧ response p ≠ JUndefined) :
  response <$> (Enhanced.fieldAbsorb now signal field false !! n)
  = Some (JArr (items ++ (response <$> signal))).
Proof.
  rewrite (enhanced_fieldAbsorb_existing now false signal field n q Hpresent). simpl.
  rewrite filter_all by (intros p Hp; by apply Hsignal).
  rewrite Hlist, mergeResponse_append; [done|].
  intros r [p [-> Hp]]%list_elem_of_fmap. by apply Hsignal.
Qed.

Lemma enhanced_fieldAbsorb_accumulates_witness :
  response <$>
    (Enhanced.fieldAbsorb "t1" [Sample.batch "batch 2"; Sample.batch "batch 3"]
       Sample.batches false !! "personal_detail")
  = Some (JArr [JStr "batch 1"; JStr "batch 2"; JStr "batch 3"]).
Proof.
  apply (enhanced_fieldAbsorb_accumulates "t1" Sample.batches "personal_detail"
           (mkPulse "personal_detail" "Y" (JArr [JStr "batch 1"]) (JStr "t0"))
           [JStr "batch 1"] [Sample.batch "batch 2"; Sample.batch "batch 3"]).
  - reflexivity.
  - reflexivity.
  - intros p Hp. apply elem_of_cons in Hp as [->|Hp]; [done|].
    apply list_elem_of_singleton in Hp. by subst p.
Defined.

(** X4.  [fieldAbsorb] of enhanced-cpux-server.js updates a pulse that is
    already there in place, for both values of [consume]: the pulse keeps its
    name and the timestamp of its first absorption, and pulses that carry no
    payload ([response] undefined) leave its payload as it is. *)
Theorem enhanced_fieldAbsorb_in_place (now : string) (consume : bool)
    (field : gmap string Pulse) (n : string) (q : Pulse) (signal : list Pulse)
    (Hpresent : field !! n = Some q) :
  ∃ p', Enhanced.fieldAbsorb now signal field consume !! n = Some p' ∧
    name p' = name q ∧ timestamp p' = timestamp q ∧
    ((∀ p, p ∈ signal → name p = n → response p = JUndefined) →
     response p' = response q).
Proof.
  eexists. split; [by apply enhanced_fieldAbsorb_existing|]. simpl.
  split; [done|]. split; [done|]. intros Hu. apply mergeResponse_undefined.
  intros r [p [-> Hp]]%list_elem_of_fmap.
  apply list_elem_of_filter in Hp as [Hn Hp]. by apply Hu.
Qed.

Lemma enhanced_fieldAbsorb_in_place_witness :
  ∃ p', Enhanced.fieldAbsorb "t1" [requirement "personal_detail" "N"] Sample.batches true
          !! "personal_detail" = Some p' ∧
    name p' = "personal_detail" ∧ timestamp p' = JStr "t0" ∧
    response p' = JArr [JStr "batch 1"].
Proof.
  destruct (enhanced_fieldAbsorb_in_place "t1" true Sample.batches "personal_detail"
              (mkPulse "personal_detail" "Y" (JArr [JStr "batch 1"]) (JStr "t0"))
              [requirement "personal_detail" "N"] eq_refl)
    as (p' & Hp' & Hname & Hstamp & Hresp).
  exists p'. split; [exact Hp'|]. split; [exact Hname|]. split; [exact Hstamp|].
  apply Hresp. intros p Hp _. apply list_elem_of_singleton in Hp. by subst p.
Defined.

Lemma utils_fieldAbsorb_lookup_consume (signal : list Pulse) (field : gmap string Pulse)
    (n : string) :
  Utils.fieldAbsorb signal field true !! n =
  match latestNamed n signal with
  | Some pulse => Some (stored JUndefined pulse)
  | None => field !! n
  end.
Proof.
  unfold Utils.fieldAbsorb. revert field.
  induction signal as [|q s IH]; intros field; simpl; [done|].
  rewrite IH. destruct (latestNamed n s); [done|].
  case_decide as E.
  - by rewrite <- E, lookup_insert_eq.
  - by rewrite lookup_insert_ne.
Qed.

Lemma utils_fieldAbsorb_lookup_keep (signal : list Pulse) (field : gmap string Pulse)
    (n : string) :
  Utils.fieldAbsorb signal field false !! n =
  match field !! n with
  | Some pulse => Some pulse
  | None => stored JUndefined <$> earliestNamed n signal
  end.
Proof.
  unfold Utils.fieldAbsorb. revert field.
  induction signal as [|q s IH]; intros field; simpl.
  - by destruct (field !! n).
  - rewrite IH. case_bool_decide as Hq; simpl.
    + destruct (decide (name q = n)) as [E|E]; [|done].
      rewrite <- E. by destruct Hq as [x ->].
    + destruct (decide (name q = n)) as [E|E].
      * rewrite <- E, lookup_insert_eq.
        destruct (field !! name q) eqn:Hf; [|done]. destruct Hq. by eexists.
      * by rewrite lookup_insert_ne.
Qed.


Lemma object_fieldAbsorb_lookup (signal : list Pulse) (field : gmap string Pulse)
    (n : string) :
  ObjectServer.fieldAbsorb signal field !! n =
  match latestNamed n signal with
  | Some pulse => Some pulse
  | None => field !! n
  end.
Proof.
  unfold ObjectServer.fieldAbsorb. revert field.
  induction signal as [|q s IH]; intros field; simpl; [done|].
  rewrite IH. destruct (latestNamed n s); [done|].
  case_decide as E.
  - by rewrite <- E, lookup_insert_eq.
  - by rewrite lookup_insert_ne.
Qed.

(** X6.  In object-server.js a condition matches the field right after a
    signal was absorbed whenever every entry of the condition has a pulse of its
    name and truth value in the signal and no pulse of the signal contradicts an
    entry; what the field held before does not matter. *)
Theorem object_absorb_then_match (field : gmap string Pulse)
    (signal condition : list Pulse)
    (Hcovers : ∀ r, r ∈ condition →
                    ∃ q, q ∈ signal ∧ name q = name r ∧ TV q = TV r)
    (Hconsistent : ∀ q r, q ∈ signal → r ∈ condition → name q = name r → TV q = TV r) :
  ObjectServer.fieldMatch (ObjectServer.fieldAbsorb signal field) condition = true.
Proof.
  rewrite object_fieldMatch_clean. apply clean_fieldMatch_true. intros r Hr.
  rewrite object_fieldAbsorb_lookup.
  destruct (latestNamed (name r) signal) as [p|] eqn:Hl.
  - apply latestNamed_elem in Hl as [Hp Hn]. exists p. split; [done|].
    by apply Hconsistent.
  - apply latestNamed_None in Hl. destruct (Hcovers r Hr) as (q & Hq & Hn & _).
    destruct Hl. rewrite <- Hn. by apply list_elem_of_fmap_2.
Qed.

Lemma object_absorb_then_match_witness :
  ObjectServer.fieldMatch
    (ObjectServer.fieldAbsorb [Sample.startY; Sample.detailY] Sample.started)
    [requirement "personal_detail" "Y"] = true.
Proof.
  apply object_absorb_then_match.
  - intros r Hr. apply list_elem_of_singleton in Hr. subst r.
    exists Sample.detailY. split; [|done]. right. left.
  - intros q r Hq Hr Hn. apply list_elem_of_singleton in Hr. subst r.
    apply elem_of_cons in Hq as [->|Hq]; [discriminate|].
    apply list_elem_of_singleton in Hq. by subst q.
Defined.

(** ** The orchestrator of clean-cpux-server.js, further *)

Lemma initializeDNStatus_ready_stays (sequence : list Clean.Step) (ctx id : string)
    (status : gmap string string) :
  status !! id = Some "ready" →
  Clean.initializeDNStatus sequence ctx status !! id = Some "ready".
Proof.
  unfold Clean.initializeDNStatus. revert status.
  induction sequence as [|s rest IH]; intros status Hr; simpl; [done|].
  apply IH. case_bool_decide; [|done].
  destruct (decide (Clean.instanceKey ctx s = id)) as [->|E].
  - by rewrite lookup_insert_eq.
  - by rewrite lookup_insert_ne.
Qed.

(** X7.  [initializeDNStatus] marks the instance of every [dn] step of the
    sequence ready - also one that was recorded busy before - and leaves every
    other entry of the member status as it was; steps of other types register
    nothing. *)
Theorem initializeDNStatus_registers (sequence : list Clean.Step) (ctx : string)
    (status : gmap string string) :
  (∀ step, step ∈ sequence → Clean.type step = "dn" →
     Clean.initializeDNStatus sequence ctx status !! Clean.instanceKey ctx step
     = Some "ready") ∧
  (∀ id, (∀ step, step ∈ sequence → Clean.type step = "dn" →
                  Clean.instanceKey ctx step ≠ id) →
     Clean.initializeDNStatus sequence ctx status !! id = status !! id).
Proof.
  split.
  - revert status. induction sequence as [|s rest IH]; intros status step Hstep Hdn.
    + by apply elem_of_nil in Hstep.
    + apply elem_of_cons in Hstep as [->|Hstep].
      * unfold Clean.initializeDNStatus. simpl. rewrite bool_decide_eq_true_2 by done.
        apply initializeDNStatus_ready_stays. by rewrite lookup_insert_eq.
      * by apply IH.
  - revert status. induction sequence as [|s rest IH]; intros status id Hother; [done|].
    unfold Clean.initializeDNStatus in *. simpl. rewrite IH.
    + case_bool_decide as Hdn; [|done]. rewrite lookup_insert_ne; [done|].
      apply Hother; [by left|done].
    + intros step Hstep. apply Hother. by right.
Qed.

(** X8.  The signal that [executeStep] sends carries the names and truth
    values of the step's design-time signal, whatever the field holds (the
    field only contributes payloads); so the valve check of the DN server
    decides on the design-time signal alone. *)
Theorem signalToSend_design_time (field : gmap string Pulse) (step : Clean.Step)
    (valve : list Pulse) :
  (λ p, (name p, TV p)) <$> Clean.signalToSend field step
    = (λ p, (name p, TV p)) <$> Clean.designTimeSignal step ∧
  DN.canProcess valve (Clean.signalToSend field step)
    = DN.canProcess valve (Clean.designTimeSignal step) ∧
  (∀ p, p ∈ Clean.signalToSend field step →
        response p ≠ JUndefined ∧ timestamp p = JUndefined).
Proof.
  unfold Clean.signalToSend. split; [|split].
  - rewrite <- list_fmap_compose. done.
  - unfold DN.canProcess. apply forallb_pointwise. intros v.
    induction (Clean.designTimeSignal step) as [|q l IH]; [done|].
    rewrite fmap_cons. simpl. by rewrite IH.
  - intros p [q [-> _]]%list_elem_of_fmap. simpl. split; [|done].
    unfold jsOr. destruct (truthy (responseOf _)) eqn:Ht; [|done].
    intros Hu. by rewrite Hu in Ht.
Qed.

Section CleanSchedulerFurther.
Context {World : Type}.
Variable post : World → string → Wire.Body → World * option Wire.Reply.
Variable CPUX_CONTEXT_ID : string.

Local Abbreviation visit := (Clean.visit post CPUX_CONTEXT_ID).
Local Abbreviation executeSequencePass := (Clean.executeSequencePass post CPUX_CONTEXT_ID).

Lemma pass_counts (sequence : list Clean.Step) (st st' : Clean.Cpux) (w w' : World)
    (n n' : nat) :
  foldl visit (st, w, n) sequence = (st', w', n') →
  (size (Clean.executionLog st') + n = size (Clean.executionLog st) + n')%nat ∧
  (n' ≤ n + length sequence)%nat ∧
  dom (Clean.memberStatus st') = dom (Clean.memberStatus st).
Proof.
  revert st w n. induction sequence as [|step rest IH]; intros st w n.
  - intros ?; simplify_eq/=. split; [done|]. split; [lia|done].
  - rewrite pass_cons. destruct (visit (st, w, n) step) as [[st1 w1] n1] eqn:Hv.
    intros Hrest. apply IH in Hrest as (Hsize & Hle & Hdom).
    apply visit_inv in Hv
      as [(_ & -> & -> & _)|(Hnew & _ & -> & _ & _ & Hlog & Hms)].
    + split; [done|]. split; [simpl; lia|done].
    + rewrite Hlog, size_union, size_singleton in Hsize by set_solver.
      split; [lia|]. split; [simpl; lia|]. rewrite Hdom.
      destruct Hms as [(_ & Hr & _ & ->)|(_ & -> & _)]; [|done].
      rewrite dom_insert_L. apply elem_of_dom_2 in Hr. set_solver.
Qed.

(** X9.  The number [executeSequencePass] returns is the number of keys it
    added to the execution log, and it is at most the length of the sequence. *)
Theorem passActivations_counts_logged (sequence : list Clean.Step)
    (st : Clean.Cpux) (w : World) :
  (size (Clean.executionLog (executeSequencePass sequence st w).1.1)
   = size (Clean.executionLog st) + (executeSequencePass sequence st w).2)%nat ∧
  ((executeSequencePass sequence st w).2 ≤ length sequence)%nat.
Proof.
  destruct (executeSequencePass sequence st w) as [[st' w'] n'] eqn:Hp. simpl.
  apply pass_counts in Hp as (Hsize & Hle & _). lia.
Qed.

(** X10.  A pass of [executeSequencePass] never changes the field, never
    removes a key from the log, never registers or forgets an instance, never
    turns an instance ready and never releases a busy one. *)
Theorem executeSequencePass_frame (sequence : list Clean.Step)
    (st : Clean.Cpux) (w : World) :
  Clean.cpuxField (executeSequencePass sequence st w).1.1 = Clean.cpuxField st ∧
  Clean.executionLog st ⊆ Clean.executionLog (executeSequencePass sequence st w).1.1 ∧
  dom (Clean.memberStatus (executeSequencePass sequence st w).1.1)
    = dom (Clean.memberStatus st) ∧
  (∀ id, Clean.memberStatus (executeSequencePass sequence st w).1.1 !! id = Some "ready" →
         Clean.memberStatus st !! id = Some "ready") ∧
  (∀ id, Clean.memberStatus st !! id = Some "busy" →
         Clean.memberStatus (executeSequencePass sequence st w).1.1 !! id = Some "busy").
Proof.
  destruct (executeSequencePass sequence st w) as [[st' w'] n'] eqn:Hp. simpl.
  pose proof (pass_counts _ _ _ _ _ _ _ Hp) as (_ & _ & Hdom).
  apply pass_advances in Hp as [(Hf & Hsub & Hr & Hb) _]. done.
Qed.

(** The log of a pass holds keys of the sequence besides those it held. *)
Lemma pass_log_within (sequence : list Clean.Step) (st : Clean.Cpux) (w : World) :
  Clean.executionLog (executeSequencePass sequence st w).1.1
    ⊆ Clean.executionLog st ∪ CleanMonitor.keysOf sequence.
Proof.
  destruct (executeSequencePass sequence st w) as [[st' w'] n'] eqn:Hp. simpl.
  intros key Hkey. destruct (pass_logged _ _ _ _ _ _ _ _ _ _ Hp Hkey)
    as [?|(step & Hstep & -> & _)]; [set_solver|].
  apply elem_of_union_r. unfold CleanMonitor.keysOf. apply elem_of_list_to_set.
  by apply list_elem_of_fmap_2.
Qed.

End CleanSchedulerFurther.

(** X11.  [checkCompletion] is sound for a log that holds keys of the
    sequence only (as the log of an orchestrator that started empty and ran
    passes over that sequence does): when it answers true, every step of the
    sequence is logged. *)
Theorem checkCompletion_sound (sequence : list Clean.Step) (st : Clean.Cpux)
    (Hwithin : Clean.executionLog st ⊆ CleanMonitor.keysOf sequence)
    (Hcomplete : CleanMonitor.checkCompletion sequence st = true) :
  ∀ step, step ∈ sequence → Clean.stepKey step ∈ Clean.executionLog st.
Proof.
  apply bool_decide_eq_true_1 in Hcomplete.
  assert (size (CleanMonitor.keysOf sequence) ≤ length sequence)%nat as Hkeys.
  { unfold CleanMonitor.keysOf. clear.
    induction sequence as [|s l IH]; [done|]. rewrite fmap_cons. simpl.
    rewrite size_union_alt, size_singleton.
    assert (size (list_to_set (Clean.stepKey <$> l) ∖ {[Clean.stepKey s]} : gset string)
            ≤ size (list_to_set (Clean.stepKey <$> l) : gset string))%nat
      by (apply subseteq_size; set_solver).
    simpl. lia. }
  assert (Clean.executionLog st = CleanMonitor.keysOf sequence) as Heq.
  { apply set_eq. intros k. split; [apply Hwithin|]. intros Hk.
    destruct (decide (k ∈ Clean.executionLog st)) as [|Hnot]; [done|]. exfalso.
    assert (Clean.executionLog st ⊂ CleanMonitor.keysOf sequence) as Hstrict.
    { split; [done|]. intros Hsub. apply Hnot. by apply Hsub. }
    apply subset_size in Hstrict. lia. }
  intros step Hstep. rewrite Heq. apply elem_of_list_to_set. by apply list_elem_of_fmap_2.
Qed.

Lemma checkCompletion_sound_witness :
  Forall (λ step, Clean.stepKey step ∈ Clean.executionLog CleanMonitor.allLogged)
    Clean.CPUXDefinition.
Proof.
  apply Forall_forall.
  apply (checkCompletion_sound Clean.CPUXDefinition CleanMonitor.allLogged).
  - done.
  - vm_compute. reflexivity.
Defined.

(** ** The DN server, further *)

(** X12.  Once the DN server has accepted a request, every further request
    for the same instance of a known DN is answered [rejected] /
    [instance_busy] and changes nothing - in particular the same request sent
    again at once. *)
Theorem execute_again_busy (containers : gmap string DN.Container) (now now' : Z)
    (srv : DN.Server) (req req' : Wire.Payload) (container' : DN.Container)
    (Haccepted : Wire.status (DN.execute containers now srv req).2 = Some "accepted")
    (Hsame : DN.instanceIdOf req' = DN.instanceIdOf req)
    (Hknown : containers !! Wire.target req' = Some container') :
  DN.execute containers now' (DN.execute containers now srv req).1 req'
  = ((DN.execute containers now srv req).1,
     Wire.jsonReply 200 "rejected" (Some "instance_busy") None
       (Some (DN.instanceIdOf req))).
Proof.
  rewrite <- Hsame. apply (execute_busy _ _ _ _ container'); [done|].
  rewrite Hsame. revert Haccepted. unfold DN.execute.
  destruct (containers !! Wire.target req); [|done].
  destruct (DN.isRunning srv _); [done|]. destruct (DN.canProcess _ _); [|done].
  intros _. simpl. rewrite isRunning_insert. by rewrite decide_True.
Qed.

Lemma execute_again_busy_witness :
  DN.execute DN.DN_CONTAINERS 1
    (DN.execute DN.DN_CONTAINERS 0 DN.initial Sample.dn1Request).1 Sample.dn1Request
  = ((DN.execute DN.DN_CONTAINERS 0 DN.initial Sample.dn1Request).1,
     Wire.jsonReply 200 "rejected" (Some "instance_busy") None
       (Some "CPUX_1_abc123:2:DN1")).
Proof.
  apply (execute_again_busy DN.DN_CONTAINERS 0 1 DN.initial Sample.dn1Request
           Sample.dn1Request
           (DN.mkContainer "Personal Detail Processor"
              [requirement "start_license_request" "Y"])).
  - vm_compute. reflexivity.
  - reflexivity.
  - reflexivity.
Defined.

(** X13.  Instances are tracked one by one: a request for one instance,
    accepted or not, does not change the answer to a request for another
    instance, also of the same DN; and two requests for different instances
    leave the same entries in [activeInstances] in either order. *)
Theorem execute_instances_independent (containers : gmap string DN.Container)
    (now1 now2 : Z) (srv : DN.Server) (req1 req2 : Wire.Payload)
    (Hdistinct : DN.instanceIdOf req1 ≠ DN.instanceIdOf req2) :
  (DN.execute containers now2 (DN.execute containers now1 srv req1).1 req2).2
    = (DN.execute containers now2 srv req2).2 ∧
  DN.activeInstances
    (DN.execute containers now2 (DN.execute containers now1 srv req1).1 req2).1
  = DN.activeInstances
      (DN.execute containers now1 (DN.execute containers now2 srv req2).1 req1).1.
Proof.
  assert (∀ now srv' req id, id ≠ DN.instanceIdOf req →
            DN.isRunning (DN.execute containers now srv' req).1 id = DN.isRunning srv' id)
    as Hkeep.
  { intros now srv' req id Hid. unfold DN.execute.
    destruct (containers !! Wire.target req); [|done].
    destruct (DN.isRunning srv' (DN.instanceIdOf req)); [done|].
    destruct (DN.canProcess _ _); [|done]. simpl. rewrite isRunning_insert.
    by rewrite decide_False. }
  split.
  - unfold DN.execute at 1 3. rewrite Hkeep by done.
    destruct (containers !! Wire.target req2); [|done].
    destruct (DN.isRunning srv (DN.instanceIdOf req2)); [done|].
    by destruct (DN.canProcess _ _).
  - unfold DN.execute at 1 3. rewrite !Hkeep by done.
    unfold DN.execute.
    destruct (containers !! Wire.target req1), (containers !! Wire.target req2);
      try done;
      destruct (DN.isRunning srv (DN.instanceIdOf req1)),
               (DN.isRunning srv (DN.instanceIdOf req2)); simpl; try done;
      repeat (destruct (DN.canProcess _ _); simpl; try done).
    by apply insert_insert_ne.
Qed.

Lemma execute_instances_independent_witness :
  (DN.execute DN.DN_CONTAINERS 1
     (DN.execute DN.DN_CONTAINERS 0 DN.initial Sample.dn1Request).1
     (Wire.mkPayload "CPUX_1_abc123" 6 "fetch_personal_detail" [Sample.startY]
        None "DN1" None None (Some "CPUX_1_abc123:6:DN1"))).2
  = Wire.jsonReply 200 "accepted" None None (Some "CPUX_1_abc123:6:DN1").
Proof.
  destruct (execute_instances_independent DN.DN_CONTAINERS 0 1 DN.initial
              Sample.dn1Request
              (Wire.mkPayload "CPUX_1_abc123" 6 "fetch_personal_detail" [Sample.startY]
                 None "DN1" None None (Some "CPUX_1_abc123:6:DN1")))
    as [Hreply _].
  - discriminate.
  - rewrite Hreply. reflexivity.
Defined.

(** X14.  When a job settles - emitted, emission failed or processing
    failed - its instance stops running, one job less is pending, no other
    instance changes its running state, and the instance can be dispatched
    again: the next request for it that passes the valve is accepted. *)
Theorem settle_releases (containers : gmap string DN.Container) (now now' : Z)
    (i : nat) (o : DN.Outcome) (srv : DN.Server) (job : DN.Job)
    (Hjob : DN.jobs srv !! i = Some job) :
  DN.isRunning (DN.settle now i o srv) (DN.jobInstanceId job) = false ∧
  S (length (DN.jobs (DN.settle now i o srv))) = length (DN.jobs srv) ∧
  (∀ id, id ≠ DN.jobInstanceId job →
         DN.isRunning (DN.settle now i o srv) id = DN.isRunning srv id) ∧
  (∀ req container,
     DN.instanceIdOf req = DN.jobInstanceId job →
     containers !! Wire.target req = Some container →
     DN.canProcess (DN.valve container) (Wire.signal req) = true →
     Wire.status (DN.execute containers now' (DN.settle now i o srv) req).2
     = Some "accepted").
Proof.
  assert (DN.isRunning (DN.settle now i o srv) (DN.jobInstanceId job) = false) as Hoff.
  { unfold DN.settle. rewrite Hjob, isRunning_insert, decide_True by done.
    apply bool_decide_eq_false_2, settledTask_not_running. }
  split; [done|]. split; [|split].
  - unfold DN.settle. rewrite Hjob. simpl. rewrite length_delete by (by eexists).
    apply lookup_lt_Some in Hjob. lia.
  - intros id Hid. unfold DN.settle. rewrite Hjob, isRunning_insert.
    by rewrite decide_False.
  - intros req container Hid Hknown Hvalve.
    rewrite (execute_known_idle _ _ _ _ container); [by rewrite Hvalve|done|].
    by rewrite Hid.
Qed.

Lemma settle_releases_witness :
  DN.isRunning
    (DN.settle 5 0 DN.Emitted (DN.execute DN.DN_CONTAINERS 0 DN.initial Sample.dn1Request).1)
    "CPUX_1_abc123:2:DN1" = false ∧
  Wire.status
    (DN.execute DN.DN_CONTAINERS 9
       (DN.settle 5 0 DN.Emitted
          (DN.execute DN.DN_CONTAINERS 0 DN.initial Sample.dn1Request).1)
       Sample.dn1Request).2 = Some "accepted".
Proof.
  destruct (settle_releases DN.DN_CONTAINERS 5 9 0 DN.Emitted
              (DN.execute DN.DN_CONTAINERS 0 DN.initial Sample.dn1Request).1
              (DN.mkJob "DN1" (Wire.signal Sample.dn1Request) "CPUX_1_abc123"
                 "fetch_personal_detail" "CPUX_1_abc123:2:DN1") eq_refl)
    as (Hoff & _ & _ & Hagain).
  split; [exact Hoff|].
  apply (Hagain Sample.dn1Request
           (DN.mkContainer "Personal Detail Processor"
              [requirement "start_license_request" "Y"])); reflexivity.
Defined.

Lemma cleanup_lookup (now maxAge : Z) (srv : DN.Server) (id : string) :
  DN.activeInstances (DN.cleanup now maxAge srv) !! id
  = match DN.activeInstances srv !! id with
    | Some task => if DN.expired now maxAge task then None else Some task
    | None => None
    end.
Proof.
  unfold DN.cleanup. simpl. rewrite map_lookup_filter.
  destruct (DN.activeInstances srv !! id) as [task|]; simpl; [|done].
  case_guard as Hg; simpl in Hg.
  - by rewrite Hg.
  - by destruct (DN.expired now maxAge task).
Qed.

(** X15.  [/cleanup] deletes exactly the entries that are completed, carry a
    completion time and are older than [maxAge]; it never touches a running
    instance or a pending job, so the answer of [/execute] to any request is the
    same before and after; running it again at the same time deletes nothing
    more; and the two numbers it reports add up to the number of entries
    before. *)
Theorem cleanup_only_expired (containers : gmap string DN.Container)
    (now maxAge : Z) (srv : DN.Server) :
  (∀ id, DN.activeInstances (DN.cleanup now maxAge srv) !! id
         = match DN.activeInstances srv !! id with
           | Some task => if DN.expired now maxAge task then None else Some task
           | None => None
           end) ∧
  (∀ id, DN.isRunning (DN.cleanup now maxAge srv) id = DN.isRunning srv id) ∧
  DN.jobs (DN.cleanup now maxAge srv) = DN.jobs srv ∧
  (∀ now' req, (DN.execute containers now' (DN.cleanup now maxAge srv) req).2
               = (DN.execute containers now' srv req).2) ∧
  DN.cleanup now maxAge (DN.cleanup now maxAge srv) = DN.cleanup now maxAge srv ∧
  (DNAdmin.cleanedCount now maxAge srv + DNAdmin.remainingInstances now maxAge srv
   = DNAdmin.totalInstances srv)%nat.
Proof.
  assert (∀ id, DN.isRunning (DN.cleanup now maxAge srv) id = DN.isRunning srv id)
    as Hrun.
  { intros id. unfold DN.isRunning. rewrite cleanup_lookup.
    destruct (DN.activeInstances srv !! id) as [task|]; [|done].
    destruct (DN.expired now maxAge task) eqn:He; [|done].
    unfold DN.expired in He. apply andb_true_iff in He as [He _].
    apply bool_decide_eq_true_1 in He. rewrite He. done. }
  split; [apply cleanup_lookup|]. split; [done|]. split; [done|]. split; [|split].
  - intros now' req. unfold DN.execute. rewrite Hrun.
    destruct (containers !! Wire.target req); [|done].
    destruct (DN.isRunning srv _); [done|]. by destruct (DN.canProcess _ _).
  - assert (DN.activeInstances (DN.cleanup now maxAge (DN.cleanup now maxAge srv))
            = DN.activeInstances (DN.cleanup now maxAge srv)) as Heq.
    { apply map_eq. intros id. rewrite !cleanup_lookup.
      destruct (DN.activeInstances srv !! id) as [task|]; [|done].
      destruct (DN.expired now maxAge task) eqn:He; [done|]. by rewrite He. }
    unfold DN.cleanup in *. simpl in *. by rewrite Heq.
  - unfold DNAdmin.cleanedCount, DNAdmin.remainingInstances, DNAdmin.totalInstances.
    unfold DN.cleanup. simpl.
    rewrite <- (map_size_disj_union
                  (filter (λ entry : string * DN.Task, DN.expired now maxAge entry.2 = true)
                     (DN.activeInstances srv))
                  (filter (λ entry : string * DN.Task, DN.expired now maxAge entry.2 = false)
                     (DN.activeInstances srv))).
    + f_equal. apply map_eq. intros id. rewrite lookup_union, !map_lookup_filter.
      destruct (DN.activeInstances srv !! id) as [task|]; simpl; [|done].
      repeat case_guard; simpl in *; try done; try congruence.
      by destruct (DN.expired now maxAge task).
    + apply map_disjoint_spec. intros id t1 t2 H1 H2.
      apply map_lookup_filter_Some in H1 as [H1 E1]. apply map_lookup_filter_Some in H2 as [H2 E2].
      simpl in *. congruence.
Qed.

Lemma elem_of_delete_other {A : Type} (l : list A) (i : nat) (x y : A) :
  x ∈ l → l !! i = Some y → x ≠ y → x ∈ delete i l.
Proof.
  intros [j Hj]%list_elem_of_lookup Hi Hne. apply list_elem_of_lookup.
  destruct (decide (j < i)%nat) as [Hlt|Hge].
  - exists j. by rewrite list_lookup_delete_lt.
  - assert (j ≠ i) by (intros ->; congruence).
    exists (pred j). rewrite list_lookup_delete_ge by lia.
    by replace (S (pred j)) with j by lia.
Qed.

(** Every instance recorded as running has a pending job. *)
Lemma running_has_job (containers : gmap string DN.Container) (srv : DN.Server) :
  DN.reachable containers srv →
  ∀ id, DN.isRunning srv id = true → id ∈ DN.jobInstanceId <$> DN.jobs srv.
Proof.
  unfold DN.reachable. intros Hr.
  apply (rtc_ind_r (R := DN.step containers)
           (λ s, ∀ id, DN.isRunning s id = true → id ∈ DN.jobInstanceId <$> DN.jobs s)
           DN.initial); [| |exact Hr].
  - intros id. unfold DN.isRunning. simpl. by rewrite lookup_empty.
  - intros mid srv' _ Hstep IH id. destruct Hstep as [now s req|now i o s|now maxAge s].
    + unfold DN.execute. destruct (containers !! Wire.target req); [|apply IH].
      destruct (DN.isRunning s (DN.instanceIdOf req)); [apply IH|].
      destruct (DN.canProcess _ _); [|apply IH]. simpl.
      rewrite isRunning_insert, fmap_app. case_decide as E.
      * intros _. subst id. apply elem_of_app. right. by left.
      * intros Hrun. apply elem_of_app. left. by apply IH.
    + unfold DN.settle. destruct (DN.jobs s !! i) as [job|] eqn:Hi; [|apply IH].
      simpl. rewrite isRunning_insert. case_decide as E.
      * intros Hrun. apply bool_decide_eq_true_1 in Hrun.
        by apply settledTask_not_running in Hrun.
      * intros Hrun. apply IH in Hrun as [job' [-> Hjob']]%list_elem_of_fmap.
        apply list_elem_of_fmap_2. apply (elem_of_delete_other _ _ _ job); [done|done|].
        by intros ->.
    + intros Hrun. apply IH. revert Hrun. unfold DN.isRunning. rewrite cleanup_lookup.
      destruct (DN.activeInstances s !! id) as [task|]; [|done].
      by destruct (DN.expired now maxAge task).
Qed.

(** X16.  In every state the DN server can reach, the number of running
    instances that [/status] reports is the number of started handlers that
    have not settled. *)
Theorem status_counts_pending_jobs (containers : gmap string DN.Container)
    (srv : DN.Server) (Hreachable : DN.reachable containers srv) :
  DNAdmin.runningInstances srv = length (DN.jobs srv).
Proof.
  destruct (reachable_exclusive _ _ Hreachable) as [Hnd Hrun].
  pose proof (running_has_job _ _ Hreachable) as Hjob.
  unfold DNAdmin.runningInstances. rewrite <- size_dom.
  assert (dom (filter (λ entry : string * DN.Task, DN.status entry.2 = "running")
                 (DN.activeInstances srv))
          = list_to_set (DN.jobInstanceId <$> DN.jobs srv)) as ->.
  { apply set_eq. intros id. rewrite elem_of_dom, elem_of_list_to_set. split.
    - intros [task [Ht Hs]%map_lookup_filter_Some]. simpl in Hs. apply Hjob.
      unfold DN.isRunning. rewrite Ht. by apply bool_decide_eq_true_2.
    - intros [job [-> Hin]]%list_elem_of_fmap. specialize (Hrun job Hin).
      unfold DN.isRunning in Hrun.
      destruct (DN.activeInstances srv !! DN.jobInstanceId job) as [task|] eqn:Ht; [|done].
      exists task. apply map_lookup_filter_Some. split; [done|]. simpl.
      by apply bool_decide_eq_true_1 in Hrun. }
  rewrite size_list_to_set by done. by rewrite length_fmap.
Qed.

Lemma status_counts_pending_jobs_witness :
  DNAdmin.runningInstances (DN.execute DN.DN_CONTAINERS 0 DN.initial Sample.dn1Request).1
  = 1%nat.
Proof.
  apply (status_counts_pending_jobs DN.DN_CONTAINERS
           (DN.execute DN.DN_CONTAINERS 0 DN.initial Sample.dn1Request).1).
  eapply rtc_r; [apply rtc_refl|]. apply DN.step_execute.
Defined.

(** ** The object O1 of final-corrected-object-server.js *)

Lemma object_execute_unfold (now : string) (st : FinalObjectServer.State)
    (req : Wire.Payload) :
  FinalObjectServer.execute now st req
  = let field :=
      FinalObjectServer.fieldAbsorb now (Wire.signal req) (FinalObjectServer.objectField st) in
    let folded :=
      foldl (considerMapping field req) (FinalObjectServer.activeTriggers st, [])
        FinalObjectServer.triggerMappings in
    (FinalObjectServer.mkState field folded.1
       (FinalObjectServer.outbox st ++ folded.2),
     Wire.jsonReply 200
       (if bool_decide (0 < length folded.2)%nat then "triggered" else "absorbed")
       None None None).
Proof.
  unfold FinalObjectServer.execute. cbv zeta.
  change (foldl _ (FinalObjectServer.activeTriggers st, []) FinalObjectServer.triggerMappings)
    with (foldl (considerMapping
                   (FinalObjectServer.fieldAbsorb now (Wire.signal req)
                      (FinalObjectServer.objectField st)) req)
            (FinalObjectServer.activeTriggers st, []) FinalObjectServer.triggerMappings).
  by destruct (foldl _ _ _).
Qed.

(** The loop records the key of every mapping that applies and matches. *)
Lemma considerMapping_records (field : gmap string Pulse) (req : Wire.Payload)
    (mappings : list FinalObjectServer.Mapping) (acc : gset string * list Emission.Message) :
  acc.1 ⊆ (foldl (considerMapping field req) acc mappings).1 ∧
  ∀ mapping, mapping ∈ mappings →
    FinalObjectServer.incomingIntention mapping = Wire.intention req →
    FinalObjectServer.fieldMatch field (FinalObjectServer.triggerCondition mapping) = true →
    Wire.intention req +:+ ":" +:+ FinalObjectServer.outgoingIntention mapping
      ∈ (foldl (considerMapping field req) acc mappings).1.
Proof.
  revert acc. induction mappings as [|m ms IH]; intros acc.
  - split; [done|]. intros mapping Hin. by apply elem_of_nil in Hin.
  - cbn [foldl]. destruct (IH (considerMapping field req acc m)) as [Hsub Hall].
    assert (acc.1 ⊆ (considerMapping field req acc m).1) as Hstep.
    { unfold considerMapping. case_bool_decide; [done|].
      destruct (_ && _); [simpl; set_solver|done]. }
    split; [set_solver|]. intros mapping Hin Hint Hm.
    apply elem_of_cons in Hin as [->|Hin]; [|by apply Hall].
    apply Hsub. unfold considerMapping. rewrite bool_decide_eq_false_2 by (by intros ?).
    rewrite Hm. simpl. case_bool_decide; simpl; [done|set_solver].
Qed.

(** With those keys recorded, the loop changes nothing. *)
Lemma considerMapping_idle (field : gmap string Pulse) (req : Wire.Payload)
    (mappings : list FinalObjectServer.Mapping) (acc : gset string * list Emission.Message) :
  (∀ mapping, mapping ∈ mappings →
     FinalObjectServer.incomingIntention mapping = Wire.intention req →
     FinalObjectServer.fieldMatch field (FinalObjectServer.triggerCondition mapping) = true →
     Wire.intention req +:+ ":" +:+ FinalObjectServer.outgoingIntention mapping ∈ acc.1) →
  foldl (considerMapping field req) acc mappings = acc.
Proof.
  induction mappings as [|m ms IH]; intros Hall; [done|]. cbn [foldl].
  assert (considerMapping field req acc m = acc) as ->.
  { unfold considerMapping. case_bool_decide as Hint; [done|].
    destruct (FinalObjectServer.fieldMatch _ _) eqn:Hm; [|done]. simpl.
    rewrite bool_decide_eq_true_2; [done|].
    apply Hall; [by left| |done]. by destruct (decide (FinalObjectServer.incomingIntention m
                                                     = Wire.intention req)). }
  apply IH. intros mapping Hin. apply Hall. by right.
Qed.

Lemma final_fieldMatch_by_TV (f g : gmap string Pulse) (condition : list Pulse) :
  (∀ n, tvAt f n = tvAt g n) →
  FinalObjectServer.fieldMatch f condition = FinalObjectServer.fieldMatch g condition.
Proof.
  intros Htv. unfold FinalObjectServer.fieldMatch. apply forallb_pointwise. intros r.
  specialize (Htv (name r)). unfold tvAt in Htv.
  destruct (f !! name r) as [p|], (g !! name r) as [p'|]; simpl in Htv; try done.
  by injection Htv as ->.
Qed.

(** X17.  A trigger of O1 fires once: when the request that was just
    handled is sent again, nothing is added to the emissions, the set of
    activated triggers stays, and the answer is [absorbed]. *)
Theorem object_trigger_fires_once (now now' : string) (st : FinalObjectServer.State)
    (req : Wire.Payload) :
  FinalObjectServer.outbox
    (FinalObjectServer.execute now' (FinalObjectServer.execute now st req).1 req).1
  = FinalObjectServer.outbox (FinalObjectServer.execute now st req).1 ∧
  FinalObjectServer.activeTriggers
    (FinalObjectServer.execute now' (FinalObjectServer.execute now st req).1 req).1
  = FinalObjectServer.activeTriggers (FinalObjectServer.execute now st req).1 ∧
  Wire.status
    (FinalObjectServer.execute now' (FinalObjectServer.execute now st req).1 req).2
  = Some "absorbed".
Proof.
  rewrite (object_execute_unfold now' _ req). rewrite (object_execute_unfold now st req).
  cbv zeta. cbn [fst snd FinalObjectServer.objectField FinalObjectServer.activeTriggers
                 FinalObjectServer.outbox].
  set (field1 := FinalObjectServer.fieldAbsorb now (Wire.signal req)
                   (FinalObjectServer.objectField st)).
  set (field2 := FinalObjectServer.fieldAbsorb now' (Wire.signal req) field1).
  set (first := foldl (considerMapping field1 req) (FinalObjectServer.activeTriggers st, [])
                  FinalObjectServer.triggerMappings).
  assert (foldl (considerMapping field2 req) (first.1, []) FinalObjectServer.triggerMappings
          = (first.1, [])) as ->.
  { apply considerMapping_idle. intros mapping Hin Hint Hm. simpl.
    apply (considerMapping_records field1 req FinalObjectServer.triggerMappings
             (FinalObjectServer.activeTriggers st, [])); [done|done|].
    rewrite <- Hm. apply final_fieldMatch_by_TV. intros n.
    change FinalObjectServer.fieldAbsorb with Clean.fieldAbsorb in field1, field2.
    unfold field2. rewrite clean_fieldAbsorb_tvAt.
    destruct (latestTV n (Wire.signal req)) eqn:Hl; [|done].
    unfold field1. by rewrite clean_fieldAbsorb_tvAt, Hl. }
  simpl. by rewrite app_nil_r.
Qed.

(** X18.  What O1 emits never names a DN instance: every message that
    [/execute] adds to the emissions comes from O1, carries the run id of the
    request and the object instance id, and no [dnInstanceId]; taken in by
    [/cpux/intention] of clean-cpux-server.js it therefore leaves the member
    status as it is. *)
Theorem object_emission_releases_nothing (now now' : string)
    (st : FinalObjectServer.State) (req : Wire.Payload) (message : Emission.Message)
    (cpux : Clean.Cpux)
    (Hemitted : message ∈ FinalObjectServer.outbox (FinalObjectServer.execute now st req).1)
    (Hnew : message ∉ FinalObjectServer.outbox st) :
  Emission.source message = Some "O1" ∧
  Emission.cpuxId message = Wire.cpuxId req ∧
  Emission.objectInstanceId message
    = Some (Wire.cpuxId req +:+ ":" +:+ pretty (Wire.stepId req) +:+ ":O1") ∧
  Emission.dnInstanceId message = None ∧
  Clean.memberStatus (Clean.absorbEmission now' cpux message) = Clean.memberStatus cpux.
Proof.
  rewrite object_execute_unfold in Hemitted. cbv zeta in Hemitted.
  cbn [fst snd FinalObjectServer.outbox] in Hemitted.
  apply elem_of_app in Hemitted as [?|Hemitted]; [done|].
  assert (∀ mappings acc,
            message ∈ (foldl (considerMapping
                                (FinalObjectServer.fieldAbsorb now (Wire.signal req)
                                   (FinalObjectServer.objectField st)) req) acc mappings).2 →
            message ∈ acc.2 ∨
            (Emission.source message = Some "O1" ∧
             Emission.cpuxId message = Wire.cpuxId req ∧
             Emission.objectInstanceId message
               = Some (Wire.cpuxId req +:+ ":" +:+ pretty (Wire.stepId req) +:+ ":O1") ∧
             Emission.dnInstanceId message = None)) as Hfold.
  { induction mappings as [|m ms IH]; intros acc; [by left|]. cbn [foldl].
    intros Hin. apply IH in Hin as [Hin|?]; [|by right].
    revert Hin. unfold considerMapping. case_bool_decide; [by left|].
    destruct (_ && _); [|by left]. simpl.
    intros [?|Hin]%elem_of_app; [by left|]. apply list_elem_of_singleton in Hin.
    subst message. by right. }
  apply Hfold in Hemitted as [Hin|(Hs & Hc & Ho & Hd)]; [by apply elem_of_nil in Hin|].
  repeat split; try done. unfold Clean.absorbEmission. simpl. by rewrite Hd.
Qed.

Lemma object_emission_releases_nothing_witness :
  Clean.memberStatus
    (Clean.absorbEmission "t3" Deployment.afterStart.1.1
       (Emission.mkMessage "CPUX_1_abc123" "start_confirmed" [Sample.startY] None
          (Some "CPUX_1_abc123:1:O1") (Some "O1")))
  = Clean.memberStatus Deployment.afterStart.1.1.
Proof.
  apply (object_emission_releases_nothing "t0" "t3" FinalObjectServer.initial
           (Clean.payloadOf Deployment.contextId (Clean.cpuxField Sample.readyToStart)
              (Clean.mkStep 1 "add_personal_detail"
                 [requirement "start_license_request" "Y"] "O1" "object"))).
  - vm_compute. left.
  - apply not_elem_of_nil.
Defined.

(** ** The polling scheduler and its DN members *)

Lemma length_append (s1 s2 : string) :
  String.length (s1 +:+ s2) = (String.length s1 + String.length s2)%nat.
Proof. induction s1 as [|a s1 IH]; simpl; [done|by rewrite IH]. Qed.

(** The key under which the gate of [runCPUX] reads the status of a DN is
    never the key under which the loop writes it. *)
Lemma enhanced_instanceKey_not_target (contextId : string) (step : Enhanced.Step) :
  Enhanced.instanceKey contextId step ≠ Enhanced.target step.
Proof.
  unfold Enhanced.instanceKey. intros Heq. apply (f_equal String.length) in Heq.
  rewrite !length_append in Heq. simpl in Heq. lia.
Qed.

Section EnhancedSchedulerFurther.
Context {World : Type}.
Variable post : World → string → Wire.Body → World * option Wire.Reply.
Variable CPUX_CONTEXT_ID cpuxId : string.

(** X19.  The loop body of [runCPUX] in enhanced-cpux-server.js never
    completes a DN step: whatever the member answers, the step is not added
    to the execution log, and the status that the gate of the step reads (the
    one under its instance id) is left as it was - the loop writes the status
    under the bare target name only. *)
Theorem runStep_dn_never_logged (now : string) (st : Enhanced.Cpux) (w : World)
    (step : Enhanced.Step) (Hdn : Enhanced.targetsDN step = true) :
  Enhanced.executionLog (Enhanced.runStep post CPUX_CONTEXT_ID cpuxId now st w step).1.1
  = Enhanced.executionLog st ∧
  Enhanced.memberStatus (Enhanced.runStep post CPUX_CONTEXT_ID cpuxId now st w step).1.1
    !! Enhanced.instanceKey CPUX_CONTEXT_ID step
  = Enhanced.memberStatus st !! Enhanced.instanceKey CPUX_CONTEXT_ID step ∧
  ∀ key, key ≠ Enhanced.target step →
    Enhanced.memberStatus (Enhanced.runStep post CPUX_CONTEXT_ID cpuxId now st w step).1.1
      !! key
    = Enhanced.memberStatus st !! key.
Proof.
  assert (Enhanced.executionLog
            (Enhanced.runStep post CPUX_CONTEXT_ID cpuxId now st w step).1.1
          = Enhanced.executionLog st ∧
          ∀ key, key ≠ Enhanced.target step →
            Enhanced.memberStatus
              (Enhanced.runStep post CPUX_CONTEXT_ID cpuxId now st w step).1.1 !! key
            = Enhanced.memberStatus st !! key) as [Hlog Hframe].
  { unfold Enhanced.runStep. rewrite Hdn. cbv zeta.
    case_bool_decide; [done|].
    destruct (negb _); [done|].
    destruct (_ && _); [done|].
    destruct (post w _ _) as [w1 [reply|]]; [|done].
    destruct (Enhanced.pollReady post cpuxId Enhanced.maxWait w1 step) as [w2 dnCompleted].
    cbn [fst snd Enhanced.executionLog Enhanced.memberStatus]. split; [done|].
    intros key Hkey. by rewrite !lookup_insert_ne. }
  split; [done|]. split; [|done].
  apply Hframe, enhanced_instanceKey_not_target.
Qed.

End EnhancedSchedulerFurther.

Lemma runStep_dn_never_logged_witness :
  (Enhanced.runStep Deployment.post Deployment.contextId "make_license_cpux" "t1"
     Sample.withDetail Deployment.initial Sample.fetchDriverPoints).2 = true ∧
  Enhanced.executionLog
    (Enhanced.runStep Deployment.post Deployment.contextId "make_license_cpux" "t1"
       Sample.withDetail Deployment.initial Sample.fetchDriverPoints).1.1
  = Enhanced.executionLog Sample.withDetail.
Proof.
  split; [vm_compute; reflexivity|].
  exact (proj1 (runStep_dn_never_logged Deployment.post Deployment.contextId
                  "make_license_cpux" "t1" Sample.withDetail Deployment.initial
                  Sample.fetchDriverPoints eq_refl)).
Defined.

(** ** The IPTP protocol server *)

Lemma existingPulseMap_snoc (pulses : list Pulse) (pulse : Pulse) :
  IPTP.existingPulseMap (pulses ++ [pulse])
  = <[name pulse := length pulses]> (IPTP.existingPulseMap pulses).
Proof.
  unfold IPTP.existingPulseMap. rewrite imap_app, foldl_app. simpl.
  by rewrite Nat.add_0_r.
Qed.

Lemma fieldPulseMap_snoc (pulses : list Pulse) (pulse : Pulse) :
  IPTP.fieldPulseMap (pulses ++ [pulse]) = <[name pulse := pulse]> (IPTP.fieldPulseMap pulses).
Proof. unfold IPTP.fieldPulseMap. by rewrite foldl_snoc. Qed.

Lemma lastNamedAt_snoc_other (l : list Pulse) (p : Pulse) (n : string) (i : nat) :
  lastNamedAt l n i → name p ≠ n → lastNamedAt (l ++ [p]) n i.
Proof.
  intros (q & Hi & Hn & Hlast) Hp. exists q.
  split; [by apply lookup_app_l_Some|]. split; [done|].
  intros j p' Hj Hlk. apply lookup_app_Some in Hlk as [Hlk|[_ Hlk]].
  - by eapply Hlast.
  - apply list_lookup_singleton_Some in Hlk as [_ <-]. done.
Qed.

Lemma lastNamedAt_snoc_this (l : list Pulse) (p : Pulse) :
  lastNamedAt (l ++ [p]) (name p) (length l).
Proof.
  exists p. split; [by apply list_lookup_middle|]. split; [done|].
  intros j p' Hj Hlk. apply lookup_lt_Some in Hlk.
  rewrite length_app in Hlk. simpl in Hlk. lia.
Qed.

Lemma lastNamedAt_alter (f : Pulse → Pulse) (l : list Pulse) (i : nat) (n : string)
    (j : nat) :
  (∀ x, name (f x) = name x) → lastNamedAt l n j → lastNamedAt (alter f i l) n j.
Proof.
  intros Hf (q & Hj & Hn & Hlast). destruct (decide (i = j)) as [->|Hne].
  - exists (f q). rewrite list_lookup_alter_eq, Hj. split; [done|].
    split; [by rewrite Hf|]. intros k p' Hk.
    rewrite list_lookup_alter_ne by lia. by apply Hlast.
  - exists q. rewrite list_lookup_alter_ne by done. split; [done|]. split; [done|].
    intros k p' Hk. rewrite list_lookup_alter. case_decide as Hik.
    + subst k. destruct (l !! i) as [x|] eqn:Hx; simpl; [|done].
      intros [= <-]. rewrite Hf. by eapply Hlast.
    + by apply Hlast.
Qed.

Lemma existingPulseMap_indexedBy (pulses : list Pulse) :
  indexedBy (IPTP.existingPulseMap pulses) pulses.
Proof.
  induction pulses as [|p ps IH] using rev_ind; intros n i.
  - done.
  - rewrite existingPulseMap_snoc. destruct (decide (name p = n)) as [<-|Hne].
    + rewrite lookup_insert_eq. intros [= <-]. apply lastNamedAt_snoc_this.
    + rewrite lookup_insert_ne by done. intros Hi.
      apply lastNamedAt_snoc_other; [by apply IH|done].
Qed.

Lemma existingPulseMap_None (pulses : list Pulse) (n : string) :
  IPTP.existingPulseMap pulses !! n = None ↔ n ∉ name <$> pulses.
Proof.
  induction pulses as [|p ps IH] using rev_ind.
  - split; [intros _; apply not_elem_of_nil|done].
  - rewrite existingPulseMap_snoc, fmap_app, not_elem_of_app. simpl.
    destruct (decide (name p = n)) as [<-|Hne].
    + rewrite lookup_insert_eq. split; [done|]. intros [_ Hp]. destruct Hp. by left.
    + rewrite lookup_insert_ne by done. rewrite IH. split; [|by intros [? _]].
      intros Hps. split; [done|]. intros Hp. apply list_elem_of_singleton in Hp. done.
Qed.

Lemma fieldPulseMap_lastNamedAt (l : list Pulse) (n : string) (i : nat) :
  lastNamedAt l n i → IPTP.fieldPulseMap l !! n = l !! i.
Proof.
  revert i. induction l as [|p l IH] using rev_ind; intros i (q & Hi & Hn & Hlast).
  - done.
  - rewrite fieldPulseMap_snoc. destruct (decide (i = length l)) as [->|Hne].
    + rewrite list_lookup_middle in Hi by done. injection Hi as ->.
      rewrite list_lookup_middle by done. by rewrite <- Hn, lookup_insert_eq.
    + assert (i < length l)%nat as Hlt.
      { apply lookup_lt_Some in Hi. rewrite length_app in Hi. simpl in Hi. lia. }
      assert (name p ≠ n) as Hp.
      { apply (Hlast (length l)); [done|by apply list_lookup_middle]. }
      rewrite lookup_insert_ne by done. rewrite lookup_app_l by done.
      rewrite lookup_app_l in Hi by done. apply IH. exists q.
      split; [done|]. split; [done|]. intros j p' Hj Hlk.
      apply (Hlast j); [done|]. by apply lookup_app_l_Some.
Qed.

Lemma fieldPulseMap_alter_other (f : Pulse → Pulse) (l : list Pulse) (i : nat)
    (m : string) :
  (∀ x, name (f x) = name x) →
  (∀ p, l !! i = Some p → name p ≠ m) →
  IPTP.fieldPulseMap (alter f i l) !! m = IPTP.fieldPulseMap l !! m.
Proof.
  intros Hf. revert i. induction l as [|p l IH] using rev_ind; intros i Hi; [done|].
  rewrite alter_app. case_decide as Hlt.
  - rewrite !fieldPulseMap_snoc. destruct (decide (name p = m)) as [<-|Hne].
    + by rewrite !lookup_insert_eq.
    + rewrite !lookup_insert_ne by done. apply IH. intros q Hq. apply Hi.
      by apply lookup_app_l_Some.
  - destruct (i - length l)%nat as [|k] eqn:Hk; simpl; [|done].
    assert (i = length l) as -> by lia.
    rewrite !fieldPulseMap_snoc, Hf.
    assert (name p ≠ m) as Hp by (apply Hi; by apply list_lookup_middle).
    by rewrite !lookup_insert_ne.
Qed.

Lemma absorbPulse_indexedBy (indices : gmap string nat) (l : list Pulse) (q : Pulse) :
  indexedBy indices l → indexedBy indices (IPTP.absorbPulse indices l q).
Proof.
  intros Hl n i Hn. unfold IPTP.absorbPulse.
  destruct (indices !! name q) as [j|] eqn:Hq.
  - apply lastNamedAt_alter; [done|by apply Hl].
  - apply lastNamedAt_snoc_other; [by apply Hl|]. simpl. intros Heq.
    rewrite Heq in Hq. congruence.
Qed.

Lemma absorbPulse_tvAt (indices : gmap string nat) (l : list Pulse) (q : Pulse)
    (n : string) :
  indexedBy indices l →
  tvAt (IPTP.fieldPulseMap (IPTP.absorbPulse indices l q)) n
  = if decide (name q = n) then Some (TV q) else tvAt (IPTP.fieldPulseMap l) n.
Proof.
  intros Hl. unfold IPTP.absorbPulse, tvAt.
  destruct (indices !! name q) as [j|] eqn:Hq.
  - pose proof (Hl _ _ Hq) as Hlast. case_decide as Hn.
    + subst n. rewrite (fieldPulseMap_lastNamedAt _ _ j).
      * rewrite list_lookup_alter_eq. destruct Hlast as (p & -> & _). done.
      * by apply lastNamedAt_alter.
    + f_equal. apply fieldPulseMap_alter_other; [done|].
      intros p Hp. destruct Hlast as (p' & Hp' & Hname & _). congruence.
  - rewrite fieldPulseMap_snoc. simpl. case_decide as Hn.
    + subst n. by rewrite lookup_insert_eq.
    + by rewrite lookup_insert_ne.
Qed.

Lemma absorbSignal_tvAt (indices : gmap string nat) (signal l : list Pulse) (n : string) :
  indexedBy indices l →
  tvAt (IPTP.fieldPulseMap (foldl (IPTP.absorbPulse indices) l signal)) n
  = tvAfter signal (tvAt (IPTP.fieldPulseMap l)) n.
Proof.
  unfold tvAfter. revert l. induction signal as [|q s IH]; intros l Hl; [done|].
  cbn [foldl latestTV]. rewrite IH by by apply absorbPulse_indexedBy.
  destruct (latestTV n s); [done|]. rewrite absorbPulse_tvAt by done. by case_decide.
Qed.

Lemma absorbSignal_names (indices : gmap string nat) (signal l : list Pulse) :
  name <$> foldl (IPTP.absorbPulse indices) l signal
  = ((name <$> l) ++ filter (λ n, indices !! n = None) (name <$> signal))%list.
Proof.
  revert l. induction signal as [|q s IH]; intros l.
  - simpl. by rewrite app_nil_r.
  - rewrite fmap_cons. cbn [foldl]. rewrite IH. unfold IPTP.absorbPulse.
    destruct (indices !! name q) as [j|] eqn:Hq.
    + rewrite filter_cons_False by (by rewrite Hq).
      f_equal. rewrite (list_fmap_alter name _ id).
      * clear. revert j. induction (name <$> l) as [|x k IH']; intros [|j]; simpl;
          try done. f_equal. apply IH'.
      * by apply Forall_forall.
    + rewrite filter_cons_True by done. rewrite fmap_app. simpl.
      by rewrite <- app_assoc.
Qed.

Lemma conditionMet_requiredBy (pulseMap : gmap string Pulse) (condition : list Pulse) :
  IPTP.conditionMet pulseMap condition = requiredBy (tvAt pulseMap) condition.
Proof.
  unfold requiredBy, tvAt. induction condition as [|r rest IH]; simpl; [done|].
  destruct (pulseMap !! name r) as [p|]; simpl.
  - rewrite <- IH. repeat case_bool_decide; simpl; try done; congruence.
  - done.
Qed.

Lemma requiredBy_ext (f g : string → option string) (condition : list Pulse) :
  (∀ n, f n = g n) → requiredBy f condition = requiredBy g condition.
Proof.
  intros Hfg. unfold requiredBy. apply forallb_pointwise. intros r. by rewrite Hfg.
Qed.

(** X20.  [FieldAbsorb] of the IPTP server keeps the array in order and
    only appends: the names after the call are the names before it, followed
    by the names of the signal that the array did not hold before the call, in
    the order and as often as the signal has them - the map of indices is
    built once, before the loop, so a new name that comes twice in one signal
    is stored twice.  When neither the array nor the signal repeats a name,
    no name is repeated afterwards. *)
Theorem iptp_FieldAbsorb_names (objectId : string) (signal pulses : list Pulse)
    (srv : IPTP.Server) (Hstate : IPTP.objectStates srv !! objectId = Some pulses) :
  ∃ pulses',
    IPTP.FieldAbsorb objectId (Some signal) srv
    = (IPTP.mkServer (IPTP.objectRegistry srv)
         (<[objectId := pulses']> (IPTP.objectStates srv)) (IPTP.emitted srv), true) ∧
    name <$> pulses'
    = ((name <$> pulses) ++ filter (λ n, n ∉ name <$> pulses) (name <$> signal))%list ∧
    (NoDup (name <$> pulses) → NoDup (name <$> signal) → NoDup (name <$> pulses')).
Proof.
  unfold IPTP.FieldAbsorb. rewrite Hstate. eexists. split; [done|].
  assert (name <$> foldl (IPTP.absorbPulse (IPTP.existingPulseMap pulses)) pulses signal
          = ((name <$> pulses) ++ filter (λ n, n ∉ name <$> pulses) (name <$> signal))%list)
    as Hnames.
  { rewrite absorbSignal_names. f_equal. apply list_filter_iff. intros n.
    apply existingPulseMap_None. }
  split; [done|]. intros Hps Hsig. rewrite Hnames. apply NoDup_app.
  split; [done|]. split.
  - intros n Hn Hin. by apply list_elem_of_filter in Hin as [? _].
  - by apply NoDup_filter.
Qed.

Lemma iptp_FieldAbsorb_names_witness :
  ∃ pulses',
    IPTP.FieldAbsorb "O1"
      (Some [mkPulse "user name present" "Y" (JStr "alice@example.com") JUndefined;
             mkPulse "user name present" "N" JUndefined JUndefined])
      IPTP.initial
    = (IPTP.mkServer (IPTP.objectRegistry IPTP.initial)
         (<["O1" := pulses']> (IPTP.objectStates IPTP.initial))
         (IPTP.emitted IPTP.initial), true) ∧
    name <$> pulses' = ["user name present"; "user name present"].
Proof.
  destruct (iptp_FieldAbsorb_names "O1"
              [mkPulse "user name present" "Y" (JStr "alice@example.com") JUndefined;
               mkPulse "user name present" "N" JUndefined JUndefined]
              [] IPTP.initial) as (pulses' & Hcall & Hnames & _).
  - reflexivity.
  - exists pulses'. split; [exact Hcall|]. rewrite Hnames. reflexivity.
Defined.

(** X21.  What [FieldTrigger] reads after [FieldAbsorb]: under every name
    the truth value of the last pulse of that name in the signal, and where
    the signal does not name it, the truth value read before - also when the
    array holds a name more than once. *)
Theorem iptp_FieldAbsorb_latest_TV (objectId : string) (signal pulses : list Pulse)
    (srv : IPTP.Server) (n : string)
    (Hstate : IPTP.objectStates srv !! objectId = Some pulses) :
  tvAt (IPTP.fieldPulseMap
          (default [] (IPTP.objectStates (IPTP.FieldAbsorb objectId (Some signal) srv).1
                         !! objectId))) n
  = tvAfter signal (tvAt (IPTP.fieldPulseMap pulses)) n.
Proof.
  unfold IPTP.FieldAbsorb. rewrite Hstate. cbn [fst IPTP.objectStates].
  rewrite lookup_insert_eq. cbn [default].
  apply absorbSignal_tvAt, existingPulseMap_indexedBy.
Qed.

Lemma truthyStr_Some (s : string) : truthyStr (Some s) = true ↔ s ≠ "".
Proof.
  simpl. destruct (String.eqb s "") eqn:Hs; simpl.
  - apply String.eqb_eq in Hs. split; [done|]. intros Hne. by destruct Hne.
  - apply String.eqb_neq in Hs. done.
Qed.

(** [processIPTPMessage] for a registered object and an intention that
    the object maps. *)
Lemma processIPTPMessage_accepted (intention source target : string)
    (signal pulses : list Pulse) (srv : IPTP.Server) (mappings : list IPTP.Mapping)
    (mapping : IPTP.Mapping) :
  IPTP.objectRegistry srv !! target = Some mappings →
  IPTP.objectStates srv !! target = Some pulses →
  find (λ m, bool_decide (IPTP.incomingIntention m = intention)) mappings = Some mapping →
  IPTP.processIPTPMessage intention source target (Some signal) srv
  = let pulses' := foldl (IPTP.absorbPulse (IPTP.existingPulseMap pulses)) pulses signal in
    let srv1 :=
      IPTP.mkServer (IPTP.objectRegistry srv) (<[target := pulses']> (IPTP.objectStates srv))
        (IPTP.emitted srv) in
    if requiredBy (tvAfter signal (tvAt (IPTP.fieldPulseMap pulses)))
         (IPTP.triggerCondition mapping)
    then (IPTP.emitIPTPIntention (IPTP.outgoingIntention mapping) target
            (IPTP.targetNode mapping) (IPTP.prepareCompleteSignal pulses') srv1,
          Some (IPTP.Evaluated
                  (IPTP.Triggered (IPTP.outgoingIntention mapping) (IPTP.targetNode mapping)
                     (length (IPTP.prepareCompleteSignal pulses')))))
    else (srv1, Some (IPTP.Evaluated IPTP.NotTriggered)).
Proof.
  intros Hreg Hstate Hfind.
  unfold IPTP.processIPTPMessage. rewrite Hreg, Hfind.
  unfold IPTP.FieldAbsorb. rewrite Hstate. cbn [negb].
  unfold IPTP.FieldTrigger. cbn [IPTP.objectStates]. rewrite lookup_insert_eq.
  rewrite conditionMet_requiredBy.
  rewrite (requiredBy_ext _ (tvAfter signal (tvAt (IPTP.fieldPulseMap pulses)))).
  - cbv zeta. by destruct (requiredBy _ _).
  - intros n. apply absorbSignal_tvAt, existingPulseMap_indexedBy.
Qed.

(** [POST /iptp] for such a message when it passes the checks of the headers. *)
Lemma iptp_accepted (intention source target : string) (signal pulses : list Pulse)
    (srv : IPTP.Server) (mappings : list IPTP.Mapping) (mapping : IPTP.Mapping) :
  intention ≠ "" → source ≠ "" → target ≠ "" →
  IPTP.objectRegistry srv !! target = Some mappings →
  IPTP.objectStates srv !! target = Some pulses →
  find (λ m, bool_decide (IPTP.incomingIntention m = intention)) mappings = Some mapping →
  IPTP.iptp (Some intention) (Some source) (Some target) (Some signal) srv
  = let pulses' := foldl (IPTP.absorbPulse (IPTP.existingPulseMap pulses)) pulses signal in
    let srv1 :=
      IPTP.mkServer (IPTP.objectRegistry srv) (<[target := pulses']> (IPTP.objectStates srv))
        (IPTP.emitted srv) in
    if requiredBy (tvAfter signal (tvAt (IPTP.fieldPulseMap pulses)))
         (IPTP.triggerCondition mapping)
    then (IPTP.emitIPTPIntention (IPTP.outgoingIntention mapping) target
            (IPTP.targetNode mapping) (IPTP.prepareCompleteSignal pulses') srv1,
          IPTP.Processed target intention
            (IPTP.Evaluated
               (IPTP.Triggered (IPTP.outgoingIntention mapping) (IPTP.targetNode mapping)
                  (length (IPTP.prepareCompleteSignal pulses')))))
    else (srv1, IPTP.Processed target intention (IPTP.Evaluated IPTP.NotTriggered)).
Proof.
  intros Hi Hs Ht Hreg Hstate Hfind. unfold IPTP.iptp.
  apply truthyStr_Some in Hi, Hs, Ht. rewrite Hi, Hs, Ht. cbv zeta.
  cbn [negb orb default from_option id]. rewrite bool_decide_eq_true_2 by (by rewrite Hreg). cbn [negb].
  rewrite (processIPTPMessage_accepted intention source target signal pulses srv
             mappings mapping) by done.
  cbv zeta. by destruct (requiredBy _ _).
Qed.

(** X22.  When [POST /iptp] triggers: for a message that passes the checks,
    the first mapping of the intention decides.  The message triggers exactly
    when every pulse of the mapping's condition reads its truth value after
    absorption - from the signal where the signal names it, from the field
    otherwise.  What is then sent to the target node is every pulse of the
    field with truth value Y, and no other pulse, whatever the condition
    names. *)
Theorem iptp_trigger_characterisation (intention source target : string)
    (signal pulses : list Pulse) (srv : IPTP.Server) (mappings : list IPTP.Mapping)
    (mapping : IPTP.Mapping)
    (Hintention : intention ≠ "") (Hsource : source ≠ "") (Htarget : target ≠ "")
    (Hregistered : IPTP.objectRegistry srv !! target = Some mappings)
    (Hstate : IPTP.objectStates srv !! target = Some pulses)
    (Hmapping : find (λ m, bool_decide (IPTP.incomingIntention m = intention)) mappings
                = Some mapping) :
  let call := IPTP.iptp (Some intention) (Some source) (Some target) (Some signal) srv in
  let after := default [] (IPTP.objectStates call.1 !! target) in
  let met :=
    requiredBy (tvAfter signal (tvAt (IPTP.fieldPulseMap pulses)))
      (IPTP.triggerCondition mapping) in
  call.2
  = IPTP.Processed target intention
      (IPTP.Evaluated
         (if met
          then IPTP.Triggered (IPTP.outgoingIntention mapping) (IPTP.targetNode mapping)
                 (length (IPTP.prepareCompleteSignal after))
          else IPTP.NotTriggered)) ∧
  IPTP.emitted call.1
  = (IPTP.emitted srv ++
       if met
       then [IPTP.mkEmitted (IPTP.getNodeUrl (IPTP.targetNode mapping))
               (IPTP.outgoingIntention mapping) target (IPTP.targetNode mapping)
               (IPTP.prepareCompleteSignal after)]
       else [])%list ∧
  (∀ pulse, pulse ∈ IPTP.prepareCompleteSignal after ↔ pulse ∈ after ∧ TV pulse = "Y").
Proof.
  cbv zeta.
  rewrite (iptp_accepted intention source target signal pulses srv mappings mapping)
    by done.
  cbv zeta.
  destruct (requiredBy _ _);
    cbn [fst snd IPTP.emitIPTPIntention IPTP.objectStates IPTP.emitted];
    rewrite lookup_insert_eq; cbn [default].
  - split; [done|]. split; [done|]. intros pulse. unfold IPTP.prepareCompleteSignal.
    rewrite list_elem_of_filter. tauto.
  - split; [done|]. split; [by rewrite app_nil_r|]. intros pulse.
    unfold IPTP.prepareCompleteSignal. rewrite list_elem_of_filter. tauto.
Qed.

(** X23.  What [POST /iptp] leaves alone: the registry always, and the
    pulses of every object but the target.  A message that is refused - a
    header missing or empty, an object that is not registered, an intention
    the object does not map, a body that is not an array - changes nothing at
    all: in particular the signal of an unmapped intention is not absorbed.
    A message sends at most one request, and only when it triggers. *)
Theorem iptp_frame (intention source target : option string)
    (signal : option (list Pulse)) (srv : IPTP.Server) :
  let call := IPTP.iptp intention source target signal srv in
  IPTP.objectRegistry call.1 = IPTP.objectRegistry srv ∧
  (∀ objectId, objectId ≠ default "" target →
     IPTP.objectStates call.1 !! objectId = IPTP.objectStates srv !! objectId) ∧
  match call.2 with
  | IPTP.Processed _ _ (IPTP.Evaluated (IPTP.Triggered _ _ _)) =>
      length (IPTP.emitted call.1) = S (length (IPTP.emitted srv))
  | IPTP.Processed _ _ (IPTP.Evaluated _) => IPTP.emitted call.1 = IPTP.emitted srv
  | _ => call.1 = srv
  end.
Proof.
  cbv zeta. unfold IPTP.iptp.
  destruct (negb (truthyStr intention) || negb (truthyStr source)
            || negb (truthyStr target)); [done|].
  cbv zeta. case_bool_decide as Hreg; cbn [negb]; [|done].
  unfold IPTP.processIPTPMessage.
  destruct (IPTP.objectRegistry srv !! default "" target) as [mappings|]; [|done].
  destruct (find _ mappings) as [mapping|]; [|done].
  unfold IPTP.FieldAbsorb. destruct signal as [signal|]; [|done].
  destruct (IPTP.objectStates srv !! default "" target) as [pulses|] eqn:Hstate; [|done].
  cbn [negb]. unfold IPTP.FieldTrigger. cbn [IPTP.objectStates].
  rewrite lookup_insert_eq. destruct (IPTP.conditionMet _ _);
    cbn [fst snd IPTP.emitIPTPIntention IPTP.objectRegistry IPTP.objectStates IPTP.emitted].
  - split; [done|]. split; [|by rewrite length_app, Nat.add_comm].
    intros objectId Hne. by rewrite lookup_insert_ne.
  - split; [done|]. split; [|done].
    intros objectId Hne. by rewrite lookup_insert_ne.
Qed.

Lemma iptp_triggered_inv (intention source target : option string)
    (signal : option (list Pulse)) (srv : IPTP.Server) (t i o n : string) (k : nat) :
  (IPTP.iptp intention source target signal srv).2
  = IPTP.Processed t i (IPTP.Evaluated (IPTP.Triggered o n k)) →
  ∃ source' signal' mappings mapping pulses,
    intention = Some i ∧ source = Some source' ∧ target = Some t ∧ signal = Some signal' ∧
    i ≠ "" ∧ source' ≠ "" ∧ t ≠ "" ∧
    IPTP.objectRegistry srv !! t = Some mappings ∧
    IPTP.objectStates srv !! t = Some pulses ∧
    find (λ m, bool_decide (IPTP.incomingIntention m = i)) mappings = Some mapping ∧
    o = IPTP.outgoingIntention mapping ∧ n = IPTP.targetNode mapping ∧
    requiredBy (tvAfter signal' (tvAt (IPTP.fieldPulseMap pulses)))
      (IPTP.triggerCondition mapping) = true.
Proof.
  unfold IPTP.iptp.
  destruct (truthyStr intention) eqn:Hi; [|done].
  destruct (truthyStr source) eqn:Hs; [|done].
  destruct (truthyStr target) eqn:Ht; [|done].
  destruct intention as [i'|]; [|done]. destruct source as [s'|]; [|done].
  destruct target as [t'|]; [|done].
  apply truthyStr_Some in Hi, Hs, Ht. cbv zeta. cbn [negb orb default from_option id].
  case_bool_decide as Hreg; cbn [negb]; [|done].
  destruct (IPTP.objectRegistry srv !! t') as [mappings|] eqn:Hmappings;
    [|by destruct Hreg].
  destruct (find (λ m, bool_decide (IPTP.incomingIntention m = i')) mappings)
    as [mapping|] eqn:Hfind.
  - destruct signal as [signal'|].
    + destruct (IPTP.objectStates srv !! t') as [pulses|] eqn:Hstate.
      * rewrite (processIPTPMessage_accepted i' s' t' signal' pulses srv mappings mapping)
          by done.
        cbv zeta. destruct (requiredBy _ _) eqn:Hmet; [|done]. simpl.
        intros [= -> -> <- <- _].
        by exists s', signal', mappings, mapping, pulses.
      * unfold IPTP.processIPTPMessage. rewrite Hmappings, Hfind.
        unfold IPTP.FieldAbsorb. by rewrite Hstate.
    + unfold IPTP.processIPTPMessage. by rewrite Hmappings, Hfind.
  - unfold IPTP.processIPTPMessage. by rewrite Hmappings, Hfind.
Qed.

(** X24.  The IPTP server has no record of what it triggered: a message
    that triggers, sent again, triggers again and sends a second request. *)
Theorem iptp_triggers_again (intention source target : option string)
    (signal : option (list Pulse)) (srv : IPTP.Server) (t i o n : string) (k : nat)
    (Htriggered : (IPTP.iptp intention source target signal srv).2
                  = IPTP.Processed t i (IPTP.Evaluated (IPTP.Triggered o n k))) :
  ∃ k',
    (IPTP.iptp intention source target signal
       (IPTP.iptp intention source target signal srv).1).2
    = IPTP.Processed t i (IPTP.Evaluated (IPTP.Triggered o n k')) ∧
    length (IPTP.emitted
              (IPTP.iptp intention source target signal
                 (IPTP.iptp intention source target signal srv).1).1)
    = S (S (length (IPTP.emitted srv))).
Proof.
  apply iptp_triggered_inv in Htriggered
    as (source' & signal' & mappings & mapping & pulses & -> & -> & -> & -> & Hi & Hs & Ht
        & Hreg & Hstate & Hfind & -> & -> & Hmet).
  rewrite (iptp_accepted i source' t signal' pulses srv mappings mapping) by done.
  cbv zeta. rewrite Hmet. cbn [fst].
  set (pulses' := foldl (IPTP.absorbPulse (IPTP.existingPulseMap pulses)) pulses signal').
  rewrite (iptp_accepted i source' t signal' pulses' _ mappings mapping); try done.
  - cbv zeta.
    rewrite (requiredBy_ext _ (tvAfter signal' (tvAt (IPTP.fieldPulseMap pulses)))).
    + rewrite Hmet. eexists. split; [done|].
      cbn [fst IPTP.emitIPTPIntention IPTP.emitted]. rewrite !length_app. simpl. lia.
    + intros m. unfold pulses', tvAfter.
      destruct (latestTV m signal') eqn:Hlatest; [done|].
      rewrite (absorbSignal_tvAt (IPTP.existingPulseMap pulses) signal' pulses m)
        by apply existingPulseMap_indexedBy.
      unfold tvAfter. by rewrite Hlatest.
  - cbn [IPTP.emitIPTPIntention IPTP.objectStates]. by rewrite lookup_insert_eq.
Qed.

Lemma iptp_triggers_again_witness :
  ∃ k',
    (IPTP.iptp (Some "Log me in") (Some "DN1") (Some "O1") (Some [Login.submitted])
       (IPTP.iptp (Some "Log me in") (Some "DN1") (Some "O1") (Some [Login.submitted])
          Login.credentialsGiven).1).2
    = IPTP.Processed "O1" "Log me in" (IPTP.Evaluated (IPTP.Triggered "Log me in" "DN2" k')) ∧
    length (IPTP.emitted
              (IPTP.iptp (Some "Log me in") (Some "DN1") (Some "O1") (Some [Login.submitted])
                 (IPTP.iptp (Some "Log me in") (Some "DN1") (Some "O1")
                    (Some [Login.submitted]) Login.credentialsGiven).1).1)
    = S (S (length (IPTP.emitted Login.credentialsGiven))).
Proof.
  apply (iptp_triggers_again (Some "Log me in") (Some "DN1") (Some "O1")
           (Some [Login.submitted]) Login.credentialsGiven "O1" "Log me in" "Log me in"
           "DN2" 3).
  vm_compute. reflexivity.
Defined.

Lemma iptp_FieldAbsorb_latest_TV_witness :
  tvAt (IPTP.fieldPulseMap
          (default []
             (IPTP.objectStates
                (IPTP.FieldAbsorb "O1" (Some [Login.submitted; Login.withdrawn])
                   Login.credentialsGiven).1 !! "O1")))
    "user responded"
  = Some "N".
Proof.
  apply (iptp_FieldAbsorb_latest_TV "O1" [Login.submitted; Login.withdrawn]
           [mkPulse "user name present" "Y" (JStr "alice@example.com") JUndefined;
            mkPulse "password present" "Y" (JStr "secret123") JUndefined]
           Login.credentialsGiven "user responded").
  vm_compute. reflexivity.
Defined.

Lemma iptp_trigger_characterisation_witness :
  (IPTP.iptp (Some "Log me in") (Some "DN1") (Some "O1") (Some [Login.submitted])
     Login.credentialsGiven).2
  = IPTP.Processed "O1" "Log me in" (IPTP.Evaluated (IPTP.Triggered "Log me in" "DN2" 3)).
Proof.
  refine (proj1 (iptp_trigger_characterisation "Log me in" "DN1" "O1" [Login.submitted]
                   [mkPulse "user name present" "Y" (JStr "alice@example.com") JUndefined;
                    mkPulse "password present" "Y" (JStr "secret123") JUndefined]
                   Login.credentialsGiven
                   [IPTP.mkMapping "Log me in" [requirement "user responded" "Y"]
                      "Log me in" "DN2"]
                   (IPTP.mkMapping "Log me in" [requirement "user responded" "Y"]
                      "Log me in" "DN2")
                   _ _ _ _ _ _)); try done; vm_compute; reflexivity.
Defined.

(** ** The login node DN2 *)

Lemma latestNamed_app (n : string) (s1 s2 : list Pulse) :
  latestNamed n (s1 ++ s2)
  = match latestNamed n s2 with Some p => Some p | None => latestNamed n s1 end.
Proof.
  induction s1 as [|q s1 IH]; simpl.
  - by destruct (latestNamed n s2).
  - rewrite IH. by destruct (latestNamed n s2).
Qed.

(** The credentials are the payloads of the last pulses with truth value Y
    that carry the two names. *)
Lemma extractCredentials_given (signal : list Pulse) :
  DN2.username (DN2.extractCredentialsFromSignal (Some signal))
  = responseOf (latestNamed "user name present" (filter (λ p, TV p = "Y") signal)) ∧
  DN2.password (DN2.extractCredentialsFromSignal (Some signal))
  = responseOf (latestNamed "password present" (filter (λ p, TV p = "Y") signal)).
Proof.
  unfold DN2.extractCredentialsFromSignal.
  induction signal as [|q s IH] using rev_ind; [done|].
  rewrite foldl_snoc, filter_app, !latestNamed_app. destruct IH as [IHu IHp].
  destruct (decide (TV q = "Y")) as [Hy|Hn].
  - rewrite filter_cons_True by done. rewrite filter_nil. cbn [latestNamed].
    destruct (decide (name q = "user name present")) as [Hu|Hu].
    + rewrite bool_decide_eq_true_2 by done. cbn [DN2.username DN2.password responseOf].
      split; [done|]. rewrite IHp. rewrite decide_False; [done|]. by rewrite Hu.
    + rewrite bool_decide_eq_false_2 by (by intros [? _]).
      destruct (decide (name q = "password present")) as [Hp|Hp].
      * rewrite bool_decide_eq_true_2 by done. cbn [DN2.username DN2.password responseOf].
        split; [|done]. by rewrite IHu.
      * rewrite bool_decide_eq_false_2 by (by intros [? _]). by rewrite IHu, IHp.
  - rewrite filter_cons_False by done. rewrite filter_nil. cbn [latestNamed].
    rewrite bool_decide_eq_false_2 by (by intros [_ ?]).
    rewrite bool_decide_eq_false_2 by (by intros [_ ?]). by rewrite IHu, IHp.
Qed.

Lemma userDatabase_entries (key : string) (user : DN2.User.t) :
  DN2.userDatabase !! key = Some user → key ≠ "" ∧ DN2.User.password user ≠ "".
Proof.
  unfold DN2.userDatabase. cbn [list_to_map foldr uncurry fst snd].
  intros Hkey.
  repeat (apply lookup_insert_Some in Hkey as [[<- <-]|[_ Hkey]]; [done|]).
  done.
Qed.

(** X25.  When DN2 lets a user in: exactly when the last Y pulse named
    [user name present] carries a string that is a key of the user database
    and the last Y pulse named [password present] carries that user's
    password, as a string.  A later pulse of the same name with another truth
    value withdraws nothing. *)
Theorem dn2_login_succeeds_iff (signal : list Pulse) (source timestamp : string)
    (loginAttempts : list DN2.Attempt.t) :
  let given n := responseOf (latestNamed n (filter (λ p, TV p = "Y") signal)) in
  DN2.Outcome.success
    (DN2.processLoginIntention (Some signal) source timestamp loginAttempts).2 = true ↔
  ∃ key user,
    given "user name present" = JStr key ∧
    DN2.userDatabase !! key = Some user ∧
    given "password present" = JStr (DN2.User.password user).
Proof.
  cbv zeta. unfold DN2.processLoginIntention. cbv zeta.
  destruct (extractCredentials_given signal) as [-> ->].
  set (u := responseOf (latestNamed "user name present" _)).
  set (p := responseOf (latestNamed "password present" _)).
  split.
  - destruct (negb (truthy u) || negb (truthy p)); [done|].
    cbn [snd DN2.Outcome.success]. unfold DN2.authenticateUser.
    destruct u as [| | | |key| |]; try done.
    destruct (DN2.userDatabase !! key) as [user|] eqn:Hkey; [|done].
    destruct p as [| | | |text| |]; try done.
    case_bool_decide as Hpw; [done|]. intros _. exists key, user.
    split; [done|]. split; [done|]. f_equal.
    by destruct (decide (DN2.User.password user = text)).
  - intros (key & user & -> & Hkey & ->).
    destruct (userDatabase_entries key user Hkey) as [Hk Hp].
    cbn [truthy]. apply String.eqb_neq in Hk, Hp. rewrite Hk, Hp. cbn [negb orb].
    cbn [snd DN2.Outcome.success]. unfold DN2.authenticateUser. rewrite Hkey.
    by rewrite bool_decide_eq_false_2 by (by intros ?).
Qed.


Lemma filter_complement_length {A : Type} (P Q : A → Prop) `{!∀ x, Decision (P x)}
    `{!∀ x, Decision (Q x)} (l : list A) :
  Forall (λ x, (P x ∨ Q x) ∧ ¬ (P x ∧ Q x)) l →
  length l = (length (filter P l) + length (filter Q l))%nat.
Proof.
  induction 1 as [|x l [Hor Hnot] _ IH]; [done|].
  rewrite !filter_cons. simpl.
  destruct (decide (P x)), (decide (Q x)); simpl; rewrite IH; try lia; tauto.
Qed.

Lemma dn2_attempts_marked (loginAttempts : list DN2.Attempt.t) :
  DN2.reachable loginAttempts →
  Forall (λ a, DN2.Attempt.result a = "SUCCESS" ∨ DN2.Attempt.result a = "FAILED")
    loginAttempts.
Proof.
  intros Hreach.
  apply (rtc_ind_r (R := DN2.step)
           (λ l, Forall (λ a, DN2.Attempt.result a = "SUCCESS"
                              ∨ DN2.Attempt.result a = "FAILED") l) []);
    [by apply Forall_nil| |exact Hreach].
  intros l l' _ Hstep IH. destruct Hstep as [now intention source stamp signal l].
  unfold DN2.iptp. cbv zeta.
  destruct (negb (truthyStr intention) || negb (truthyStr source)); [done|].
  destruct (negb (bool_decide (default "" intention ∈ DN2.supportedIntentions))); [done|].
  unfold DN2.processIntention. case_bool_decide; [|done].
  unfold DN2.processLoginIntention. cbv zeta.
  destruct (negb _ || negb _); [done|]. cbn [fst].
  apply Forall_app. split; [done|]. apply Forall_singleton.
  cbn [DN2.Attempt.result]. destruct (DN2.success _); [by left|by right].
Qed.

(** X27.  The statistics of [GET /dn2/status] add up: in every state the
    node can reach, the number of attempts is the number of successful logins
    plus the number of failed ones. *)
Theorem dn2_statistics_add_up (loginAttempts : list DN2.Attempt.t)
    (Hreachable : DN2.reachable loginAttempts) :
  DN2.totalLoginAttempts loginAttempts
  = (DN2.successfulLogins loginAttempts + DN2.failedLogins loginAttempts)%nat.
Proof.
  unfold DN2.totalLoginAttempts, DN2.successfulLogins, DN2.failedLogins.
  apply filter_complement_length.
  eapply Forall_impl; [by apply dn2_attempts_marked|].
  intros a Hor. split; [done|]. intros [Hs Hf]. rewrite Hs in Hf. discriminate.
Qed.

Lemma dn2_statistics_add_up_witness :
  DN2.totalLoginAttempts
    (DN2.iptp "t1" (Some "Log me in") (Some "O1") None
       (Some [Login.userName; Login.password; Login.submitted]) []).1
  = (DN2.successfulLogins
       (DN2.iptp "t1" (Some "Log me in") (Some "O1") None
          (Some [Login.userName; Login.password; Login.submitted]) []).1
     + DN2.failedLogins
         (DN2.iptp "t1" (Some "Log me in") (Some "O1") None
            (Some [Login.userName; Login.password; Login.submitted]) []).1)%nat.
Proof.
  apply dn2_statistics_add_up.
  eapply rtc_r; [apply rtc_refl|]. apply DN2.step_iptp.
Defined.

(** ** The first system *)

Lemma container_registered (target : string) (container : First.Container.Container) :
  First.Container.DN_CONTAINERS !! target = Some container →
  First.CpuxServer.targetRegistry !! target = Some "http://localhost:5001".
Proof.
  unfold First.Container.DN_CONTAINERS. cbn [list_to_map foldr uncurry fst snd].
  intros Hc.
  repeat (apply lookup_insert_Some in Hc as [[<- _]|[_ Hc]]; [done|]).
  done.
Qed.

Lemma triggerMappings_design_time (m : First.Object.Mapping) :
  In m First.Object.triggerMappings →
  Forall (λ p, response p = JUndefined) (First.Object.triggerCondition m).
Proof.
  unfold First.Object.triggerMappings. simpl.
  intros [<-|[<-|[<-|[<-|[]]]]]; by repeat constructor.
Qed.

Ltac first_route :=
  unfold First.post; cbv zeta;
  repeat first [ rewrite bool_decide_eq_true_2 by reflexivity
               | rewrite bool_decide_eq_false_2 by discriminate ].

(** X28.  A step of the first system that targets a registered DN
    completes with the first poll: the container server never looks at its
    valve nor at the signal of the request, it stores what the handler of the
    target returns; the orchestrator absorbs that, logs the intention, and
    leaves no entry under its key in the store of the server. *)
Theorem first_dn_step_completes (polls : nat) (cpuxId : string) (i : nat)
    (step : First.CpuxServer.Step) (st : First.CpuxServer.State) (w : First.World)
    (container : First.Container.Container)
    (Hcontainer : First.Container.DN_CONTAINERS !! First.CpuxServer.target step
                  = Some container)
    (Hnew : First.CpuxServer.intention step ∉ First.CpuxServer.executionLog st)
    (Hmatch : First.CpuxServer.signalMatch (First.CpuxServer.field st) step = true) :
  First.CpuxServer.runStep First.post (S polls) cpuxId i step st w
  = (First.mkWorld (First.object w)
       (delete (First.resultKey cpuxId i) (First.containerResults w)),
     First.CpuxServer.Completed
       (First.CpuxServer.mkState
          (Utils.fieldAbsorb (First.Container.handler container) (First.CpuxServer.field st)
             (default true (First.CpuxServer.consumeSignal step)))
          ({[First.CpuxServer.intention step]} ∪ First.CpuxServer.executionLog st))).
Proof.
  unfold First.CpuxServer.runStep.
  rewrite bool_decide_eq_false_2 by done. rewrite Hmatch. cbn [negb]. cbv zeta.
  unfold First.CpuxServer.memberUrl. rewrite (container_registered _ _ Hcontainer).
  cbn [default from_option id].
  change ("http://localhost:5001" +:+ "/execute") with "http://localhost:5001/execute".
  change ("http://localhost:5001" +:+ "/result") with "http://localhost:5001/result".
  cbn [First.CpuxServer.awaitReady].
  change ("http://localhost:5001" +:+ "/ready") with "http://localhost:5001/ready".
  first_route. unfold First.Container.execute.
  cbn [First.target First.cpuxId First.sequenceIndex]. rewrite Hcontainer.
  first_route. unfold First.Container.ready. cbn [First.containerResults].
  rewrite bool_decide_eq_true_2 by (rewrite lookup_insert_eq; by eexists).
  cbn [First.CpuxServer.readyOf]. first_route.
  unfold First.Container.result. cbn [First.containerResults First.object].
  rewrite lookup_insert_eq, delete_insert_eq. done.
Qed.

Lemma first_dn_step_completes_witness :
  First.CpuxServer.runStep First.post 1 "make_license_cpux" 0 FirstSample.addPersonalDetail
    FirstSample.started FirstSample.idle
  = (First.mkWorld First.Object.initial (delete (First.resultKey "make_license_cpux" 0) ∅),
     First.CpuxServer.Completed
       (First.CpuxServer.mkState
          (Utils.fieldAbsorb
             [mkPulse "personal_detail" "Y"
                (JObj [("name", JStr "Alice"); ("age", JNum 24); ("fine_flag", JStr "Y")])
                JUndefined]
             (First.CpuxServer.field FirstSample.started) true)
          ({["add_personal_detail"]} ∪ ∅))).
Proof.
  apply (first_dn_step_completes 0 "make_license_cpux" 0 FirstSample.addPersonalDetail
           FirstSample.started FirstSample.idle
           (First.Container.mkContainer [requirement "start_license_request" "Y"]
              [mkPulse "personal_detail" "Y"
                 (JObj [("name", JStr "Alice"); ("age", JNum 24); ("fine_flag", JStr "Y")])
                 JUndefined])).
  - reflexivity.
  - apply not_elem_of_empty.
  - vm_compute. reflexivity.
Defined.

(** The polls of O1 while its store has nothing under the key. *)
Lemma awaitReady_object_unready (polls : nat) (w : First.World) (cpuxId : string)
    (i : nat) :
  First.Object.resultStore (First.object w) !! First.resultKey cpuxId i = None →
  First.CpuxServer.awaitReady First.post polls w "http://localhost:4000" cpuxId i
  = (w, First.CpuxServer.StillWaiting).
Proof.
  intros Hfree. induction polls as [|polls IH]; [done|].
  cbn [First.CpuxServer.awaitReady].
  change ("http://localhost:4000" +:+ "/ready") with "http://localhost:4000/ready".
  first_route. unfold First.Object.ready.
  rewrite bool_decide_eq_false_2 by (rewrite Hfree; by intros [? ?]).
  cbn [First.CpuxServer.readyOf]. exact IH.
Qed.

(** X29.  The first orchestrator can wait for ever: when a step hands O1
    an intention that reflects nothing - no mapping of that intention is
    matched by the field of O1 after absorption - and the store of O1 has
    nothing under the key of the step, O1 answers [ready: false] to every
    poll, and the loop [while (!ready)] has no other way out. *)
Theorem first_object_step_waits (polls : nat) (cpuxId : string) (i : nat)
    (step : First.CpuxServer.Step) (st : First.CpuxServer.State) (w : First.World)
    (Htarget : First.CpuxServer.target step = "O1")
    (Hnew : First.CpuxServer.intention step ∉ First.CpuxServer.executionLog st)
    (Hmatch : First.CpuxServer.signalMatch (First.CpuxServer.field st) step = true)
    (Hnone : find (λ m, bool_decide (First.Object.incomingIntention m
                                     = First.CpuxServer.intention step)
                        && ObjectServer.fieldMatch
                             (ObjectServer.fieldAbsorb (First.CpuxServer.signal step)
                                (First.Object.objectField (First.object w)))
                             (First.Object.triggerCondition m))
               First.Object.triggerMappings = None)
    (Hfree : First.Object.resultStore (First.object w) !! First.resultKey cpuxId i = None) :
  (First.CpuxServer.runStep First.post polls cpuxId i step st w).2
  = First.CpuxServer.Waiting.
Proof.
  unfold First.CpuxServer.runStep.
  rewrite bool_decide_eq_false_2 by done. rewrite Hmatch. cbn [negb]. cbv zeta.
  unfold First.CpuxServer.memberUrl. rewrite Htarget.
  change (default "undefined" (First.CpuxServer.targetRegistry !! "O1"))
    with "http://localhost:4000".
  change ("http://localhost:4000" +:+ "/execute") with "http://localhost:4000/execute".
  first_route. unfold First.Object.execute.
  cbn [First.signal First.intention First.cpuxId First.sequenceIndex]. cbv zeta.
  rewrite Hnone. rewrite awaitReady_object_unready by done. done.
Qed.

Lemma first_object_step_waits_witness :
  (First.CpuxServer.runStep First.post 1000 "make_license_cpux" 0 FirstSample.notifyObject
     FirstSample.started FirstSample.idle).2
  = First.CpuxServer.Waiting.
Proof.
  apply first_object_step_waits.
  - reflexivity.
  - apply not_elem_of_empty.
  - vm_compute. reflexivity.
  - vm_compute. reflexivity.
  - reflexivity.
Defined.

(** X30.  A reflection through O1 costs the payload: when the step
    triggers a mapping, what O1 hands back is the mapping's design-time
    condition, which carries no payload; the step completes with the first
    poll, and unless it is marked [consumeSignal: false] the orchestrator
    overwrites its pulses of those names - their payload is [null]
    afterwards. *)
Theorem first_reflection_erases_payload (polls : nat) (cpuxId : string) (i : nat)
    (step : First.CpuxServer.Step) (st : First.CpuxServer.State) (w : First.World)
    (mapping : First.Object.Mapping)
    (Htarget : First.CpuxServer.target step = "O1")
    (Hnew : First.CpuxServer.intention step ∉ First.CpuxServer.executionLog st)
    (Hmatch : First.CpuxServer.signalMatch (First.CpuxServer.field st) step = true)
    (Htrigger : find (λ m, bool_decide (First.Object.incomingIntention m
                                        = First.CpuxServer.intention step)
                           && ObjectServer.fieldMatch
                                (ObjectServer.fieldAbsorb (First.CpuxServer.signal step)
                                   (First.Object.objectField (First.object w)))
                                (First.Object.triggerCondition m))
                  First.Object.triggerMappings = Some mapping) :
  ∃ w' st',
    First.CpuxServer.runStep First.post (S polls) cpuxId i step st w
    = (w', First.CpuxServer.Completed st') ∧
    First.CpuxServer.field st'
    = Utils.fieldAbsorb (First.Object.triggerCondition mapping) (First.CpuxServer.field st)
        (default true (First.CpuxServer.consumeSignal step)) ∧
    First.CpuxServer.executionLog st'
    = {[First.CpuxServer.intention step]} ∪ First.CpuxServer.executionLog st ∧
    (First.CpuxServer.consumeSignal step ≠ Some false →
     ∀ r, r ∈ First.Object.triggerCondition mapping →
       response <$> First.CpuxServer.field st' !! name r = Some JNull).
Proof.
  unfold First.CpuxServer.runStep.
  rewrite bool_decide_eq_false_2 by done. rewrite Hmatch. cbn [negb]. cbv zeta.
  unfold First.CpuxServer.memberUrl. rewrite Htarget.
  change (default "undefined" (First.CpuxServer.targetRegistry !! "O1"))
    with "http://localhost:4000".
  change ("http://localhost:4000" +:+ "/execute") with "http://localhost:4000/execute".
  change ("http://localhost:4000" +:+ "/result") with "http://localhost:4000/result".
  cbn [First.CpuxServer.awaitReady].
  change ("http://localhost:4000" +:+ "/ready") with "http://localhost:4000/ready".
  first_route. unfold First.Object.execute.
  cbn [First.signal First.intention First.cpuxId First.sequenceIndex]. cbv zeta.
  rewrite Htrigger. first_route. unfold First.Object.ready.
  cbn [First.object First.Object.resultStore].
  rewrite bool_decide_eq_true_2 by (rewrite lookup_insert_eq; by eexists).
  cbn [First.CpuxServer.readyOf]. first_route. unfold First.Object.result.
  cbn [First.object First.Object.resultStore]. rewrite lookup_insert_eq.
  eexists _, _. split; [done|].
  cbn [First.CpuxServer.field First.CpuxServer.executionLog First.Result.signal].
  split; [done|]. split; [done|]. intros Hconsume r Hr.
  assert (default true (First.CpuxServer.consumeSignal step) = true) as ->.
  { destruct (First.CpuxServer.consumeSignal step) as [[|]|]; done. }
  rewrite utils_fieldAbsorb_lookup_consume.
  destruct (latestNamed (name r) (First.Object.triggerCondition mapping)) as [q|] eqn:Hq.
  - apply latestNamed_elem in Hq as [Hin _]. apply find_some in Htrigger as [Hm _].
    apply triggerMappings_design_time in Hm.
    rewrite Forall_forall in Hm. simpl. by rewrite (Hm q Hin).
  - apply latestNamed_None in Hq. destruct Hq. by apply list_elem_of_fmap_2.
Qed.

Lemma first_reflection_erases_payload_witness :
  ∃ w' st',
    First.CpuxServer.runStep First.post 1 "make_license_cpux" 1
      FirstSample.reflectPersonalDetail FirstSample.detailed FirstSample.idle
    = (w', First.CpuxServer.Completed st') ∧
    response <$> First.CpuxServer.field st' !! "personal_detail" = Some JNull.
Proof.
  destruct (first_reflection_erases_payload 0 "make_license_cpux" 1
              FirstSample.reflectPersonalDetail FirstSample.detailed FirstSample.idle
              (First.Object.mkMapping "reflect_personal_detail"
                 [requirement "personal_detail" "Y"] "fetch_driver_points" "DN2"))
    as (w' & st' & Hrun & _ & _ & Hnull).
  - reflexivity.
  - simpl. intros Hin. apply elem_of_singleton in Hin. discriminate.
  - vm_compute. reflexivity.
  - vm_compute. reflexivity.
  - exists w', st'. split; [exact Hrun|].
    apply (Hnull ltac:(discriminate) (requirement "personal_detail" "Y")). by left.
Defined.
